(** * Northapp: the email-based payment confirmation engine

    A shallow embedding of the confirmation engine of the repository
    (utils/paymentValidator.js, utils/paymentLogger.js,
    utils/topupConfirmer.js and services/gmailPoller.js) together with
    the properties its specification states about it.

    Conventions of the embedding:
    - JavaScript strings are [string]s of ASCII characters; the
      whitespace class is the ASCII part of the class the engine's
      regular expressions and [trim] use.
    - Timestamps are [Z] milliseconds since the epoch.  SQLite's
      [datetime(..)] has a resolution of one second, so the SQL
      comparisons are made on whole seconds.
    - Numbers read from an amount string are exact decimals
      (mantissa and power of ten) or one of NaN, +Infinity, -Infinity;
      the rounding to binary64 is not part of the model.
    - The database is a record of tables; tables with a primary key are
      finite maps from the key.  A function that writes to the database
      returns the new database.
    - The mailbox, the external extractor and the clock are inputs: a
      scan pass receives, per message, what the mailbox and the extractor
      answered and what the clock read. *)

From Stdlib Require Import ZArith String Ascii List Lia Bool.
From stdpp Require Import base decidable option list gmap strings pretty sorting.

Local Open Scope string_scope.

(** ** The JavaScript primitives the engine uses *)

Module JS.

(** [\s] and the characters [trim] removes (ASCII part): TAB, LF, VT,
    FF, CR and SPACE. *)
Definition isWhiteSpace (c : ascii) : bool :=
  let n := nat_of_ascii c in
  Nat.eqb n 32 || (Nat.leb 9 n && Nat.leb n 13).

(** Line terminators, for [.], [^] and [$] under the [m] flag. *)
Definition isLineTerminator (c : ascii) : bool :=
  let n := nat_of_ascii c in
  Nat.eqb n 10 || Nat.eqb n 13.

Definition toLowerChar (c : ascii) : ascii :=
  let n := nat_of_ascii c in
  if Nat.leb 65 n && Nat.leb n 90 then ascii_of_nat (n + 32) else c.

Fixpoint toLowerCase (s : string) : string :=
  match s with
  | EmptyString => EmptyString
  | String c r => String (toLowerChar c) (toLowerCase r)
  end.

(** [s.replace(/\s+/g, " ")]: every maximal run of whitespace becomes
    one space.  [inRun] tells that the previous character belonged to a
    run whose space was already written. *)
Fixpoint collapse_go (inRun : bool) (s : string) : string :=
  match s with
  | EmptyString => EmptyString
  | String c r =>
      if isWhiteSpace c
      then if inRun then collapse_go true r
           else String " " (collapse_go true r)
      else String c (collapse_go false r)
  end.

Definition collapseWhitespace (s : string) : string := collapse_go false s.

Fixpoint trimStart (s : string) : string :=
  match s with
  | EmptyString => EmptyString
  | String c r => if isWhiteSpace c then trimStart r else s
  end.

Fixpoint trimEnd (s : string) : string :=
  match s with
  | EmptyString => EmptyString
  | String c r =>
      match trimEnd r with
      | EmptyString => if isWhiteSpace c then EmptyString else String c EmptyString
      | r' => String c r'
      end
  end.

Definition trim (s : string) : string := trimStart (trimEnd s).

(** [hay.includes(needle)] *)
Fixpoint includes (needle hay : string) : bool :=
  String.prefix needle hay ||
  match hay with
  | EmptyString => false
  | String _ r => includes needle r
  end.

(** [s.substring(0, n)] *)
Definition substring0 (n : nat) (s : string) : string := String.substring 0 n s.

(** Truthiness of a string: only the empty string is falsy. *)
Definition truthy (s : string) : bool :=
  match s with EmptyString => false | _ => true end.

(** [a || b] on strings *)
Definition orElse (a b : string) : string := if truthy a then a else b.

(** The text between double quotes, as a template literal with
    quotes around a hole prints it. *)
Definition quote (s : string) : string :=
  String (ascii_of_nat 34) s ++ String (ascii_of_nat 34) EmptyString.

(** [xs.join(sep)] *)
Fixpoint join (sep : string) (xs : list string) : string :=
  match xs with
  | [] => ""
  | [x] => x
  | x :: r => x ++ sep ++ join sep r
  end.

(** *** Numbers *)

(** A JavaScript number as far as the engine needs it: NaN, an
    infinity, or the decimal [m * 10^e]. *)
Inductive number :=
| NaN
| Inf (negative : bool)
| Dec (m e : Z).

Definition isDigit (c : ascii) : bool :=
  let n := nat_of_ascii c in Nat.leb 48 n && Nat.leb n 57.

Definition digitVal (c : ascii) : Z := Z.of_nat (nat_of_ascii c) - 48.

(** Reads the longest run of decimal digits: its value continued from
    [acc], how many digits were read, and the rest of the string. *)
Fixpoint readDigits (acc : Z) (s : string) : Z * nat * string :=
  match s with
  | String c r =>
      if isDigit c
      then let '(v, n, rest) := readDigits (10 * acc + digitVal c) r in (v, S n, rest)
      else (acc, O, s)
  | EmptyString => (acc, O, s)
  end.

(** The optional exponent part [[eE][+-]?digits]; it is read only when
    it is complete, otherwise the exponent is 0. *)
Definition readExponent (s : string) : Z :=
  match s with
  | String c r =>
      if (Ascii.eqb c "e" || Ascii.eqb c "E")%bool
      then
        let '(neg, r1) :=
          match r with
          | String "-" r' => (true, r')
          | String "+" r' => (false, r')
          | _ => (false, r)
          end in
        let '(v, n, _) := readDigits 0 r1 in
        match n with
        | O => 0
        | _ => if neg then - v else v
        end
      else 0
  | EmptyString => 0
  end%Z.

(** The decimals at or above [2^1024 - 2^970] in magnitude, half-way
    between the largest finite number and [2^1024], are read as an
    infinity. *)
Definition overflowBound : Z := (2 ^ 1024 - 2 ^ 970)%Z.

Definition overflows (m e : Z) : bool :=
  if (0 <=? e)%Z
  then (overflowBound <=? Z.abs m * 10 ^ e)%Z
  else (overflowBound * 10 ^ (- e) <=? Z.abs m)%Z.

(** [parseFloat(s)]: leading whitespace is skipped and the longest
    prefix that is a decimal literal is read; NaN when there is none,
    an infinity when the literal is beyond the range of the numbers.
    Inside the range the decimal is kept as it is written. *)
Definition parseFloat (s : string) : number :=
  let t := trimStart s in
  let '(neg, u) :=
    match t with
    | String "-" r => (true, r)
    | String "+" r => (false, r)
    | _ => (false, t)
    end in
  if String.prefix "Infinity" u then Inf neg
  else
    let '(ip, ni, r1) := readDigits 0 u in
    let '(m, nf, r2) :=
      match r1 with
      | String "." r => let '(v, n, rest) := readDigits ip r in (v, n, rest)
      | _ => (ip, O, r1)
      end in
    match ni, nf with
    | O, O => NaN
    | _, _ =>
        let e := (readExponent r2 - Z.of_nat nf)%Z in
        if overflows m e then Inf neg
        else Dec (if neg then - m else m)%Z e
    end.

(** [Math.floor] *)
Definition floor (x : number) : number :=
  match x with
  | Dec m e =>
      if (0 <=? e)%Z then Dec (m * 10 ^ e) 0
      else Dec (m / 10 ^ (- e)) 0
  | _ => x
  end%Z.

Definition isNaN (x : number) : bool :=
  match x with NaN => true | _ => false end.

(** [x <= 0] and [x > 0]; both are false on NaN. *)
Definition leZero (x : number) : bool :=
  match x with
  | NaN => false
  | Inf neg => neg
  | Dec m _ => (m <=? 0)%Z
  end.

Definition gtZero (x : number) : bool :=
  match x with
  | NaN => false
  | Inf neg => negb neg
  | Dec m _ => (0 <? m)%Z
  end.

(** [String(z)] for an integer. *)
Definition showZ (z : Z) : string := pretty z.

(** [parseInt(s)] on the decimal strings the engine stores: [None] is
    NaN. *)
Definition parseInt (s : string) : option Z :=
  let t := trimStart s in
  let '(neg, u) :=
    match t with
    | String "-" r => (true, r)
    | String "+" r => (false, r)
    | _ => (false, t)
    end in
  let '(v, n, _) := readDigits 0 u in
  match n with
  | O => None
  | _ => Some (if neg then - v else v)%Z
  end.

End JS.


(** *** Dates *)

Module JSDate.

Local Open Scope Z_scope.

(** Zero-padded decimal of a non-negative number. *)
Definition pad (width : nat) (z : Z) : string :=
  let s := JS.showZ z in
  String.concat "" (repeat "0"%string (width - String.length s)) ++ s.

(** The civil date of a day number counted from 1970-01-01. *)
Definition civil (days : Z) : Z * Z * Z :=
  let z := days + 719468 in
  let era := z / 146097 in
  let doe := z - era * 146097 in
  let yoe := (doe - doe / 1460 + doe / 36524 - doe / 146096) / 365 in
  let doy := doe - (365 * yoe + yoe / 4 - yoe / 100) in
  let mp := (5 * doy + 2) / 153 in
  let d := doy - (153 * mp + 2) / 5 + 1 in
  let m := if mp <? 10 then mp + 3 else mp - 9 in
  let y := yoe + era * 400 + (if m <=? 2 then 1 else 0) in
  (y, m, d).

(** [new Date(ms).toISOString()] for years 0000 to 9999. *)
Definition toISOString (ms : Z) : string :=
  let '(y, m, d) := civil (ms / 86400000) in
  let r := ms mod 86400000 in
  pad 4 y ++ "-" ++ pad 2 m ++ "-" ++ pad 2 d ++ "T" ++
  pad 2 (r / 3600000) ++ ":" ++ pad 2 (r / 60000 mod 60) ++ ":" ++
  pad 2 (r / 1000 mod 60) ++ "." ++ pad 3 (r mod 1000) ++ "Z".

(** SQLite's [datetime(t)]: the timestamp cut to whole seconds.  Two
    [datetime] texts compare as their second counts do. *)
Definition datetime (ms : Z) : Z := ms / 1000.

End JSDate.

(** ** The data model *)

(** The decision column of a payment log row. *)
Inductive LogDecision := ACCEPTED | REJECTED | IGNORED | ERROR.

Global Instance LogDecision_eq_dec : EqDecision LogDecision.
Proof. solve_decision. Defined.

(** The status column of a topup: the three values the application
    writes. *)
Inductive TopupStatus := PENDING | CONFIRMED | EXPIRED.

Global Instance TopupStatus_eq_dec : EqDecision TopupStatus.
Proof. solve_decision. Defined.

Definition statusName (s : TopupStatus) : string :=
  match s with
  | PENDING => "PENDING"
  | CONFIRMED => "CONFIRMED"
  | EXPIRED => "EXPIRED"
  end.

(** A row of [payment_logs] (without the row id and the timestamp the
    database fills in), which is also the argument of [logPayment].
    [None] is NULL.  Of [full_email_data] the error message is kept. *)
Record LogEntry := mkLog {
  email_uid : option string;
  parser_pay_type : option string;
  parser_amount : option string;
  parser_request_status : option string;
  parser_is_expired : option bool;
  extracted_code : option string;
  matched_topup_id : option Z;
  decision : LogDecision;
  reason : option string;
  raw_subject : option string;
  short_body_preview : option string;
  full_email_data : option string
}.

(** A row of [topups]; the primary key [id] is the key of the table. *)
Record TopupRow := mkTopup {
  userId : Z;
  code : string;
  status : TopupStatus;
  expiresAt : Z;
  createdAt : Z;
  amount_coins : option JS.number;
  armed_uidnext : option Z
}.

(** The tables the engine touches.  [users] keeps [balance_coins] by user
    id; [mail_markers] is the set of its primary keys. *)
Record DB := mkDB {
  topups : gmap Z TopupRow;
  users : gmap Z JS.number;
  payment_logs : list LogEntry;
  mail_markers : gset string;
  app_settings : gmap string string
}.

Definition setTopups (db : DB) (t : gmap Z TopupRow) : DB :=
  mkDB t (users db) (payment_logs db) (mail_markers db) (app_settings db).
Definition setUsers (db : DB) (u : gmap Z JS.number) : DB :=
  mkDB (topups db) u (payment_logs db) (mail_markers db) (app_settings db).
Definition setPaymentLogs (db : DB) (l : list LogEntry) : DB :=
  mkDB (topups db) (users db) l (mail_markers db) (app_settings db).
Definition setMailMarkers (db : DB) (m : gset string) : DB :=
  mkDB (topups db) (users db) (payment_logs db) m (app_settings db).
Definition setAppSettings (db : DB) (s : gmap string string) : DB :=
  mkDB (topups db) (users db) (payment_logs db) (mail_markers db) s.

(** SQL addition [balance_coins + ?]. *)
Definition sqlAdd (a b : JS.number) : JS.number :=
  match a, b with
  | JS.Dec m1 e1, JS.Dec m2 e2 =>
      let e := Z.min e1 e2 in
      JS.Dec (m1 * 10 ^ (e1 - e) + m2 * 10 ^ (e2 - e)) e
  | JS.NaN, _ | _, JS.NaN => JS.NaN
  | JS.Inf n1, JS.Inf n2 => if Bool.eqb n1 n2 then JS.Inf n1 else JS.NaN
  | JS.Inf n, _ | _, JS.Inf n => JS.Inf n
  end%Z.

(** ** utils/paymentLogger.js *)

Module Logger.

(** Some row already carries this [email_uid]: the unique index
    [idx_payment_logs_email_uid] refuses a second one (NULLs are not
    compared). *)
Definition uidLogged (u : string) (rows : list LogEntry) : bool :=
  existsb (fun r => bool_decide (email_uid r = Some u)) rows.

(** The row [logPayment] inserts for its argument: the body preview is
    cut to 200 characters, an empty preview is stored as NULL. *)
Definition rowOf (e : LogEntry) : LogEntry :=
  mkLog (email_uid e) (parser_pay_type e) (parser_amount e)
    (parser_request_status e) (parser_is_expired e) (extracted_code e)
    (matched_topup_id e) (decision e) (reason e) (raw_subject e)
    (match short_body_preview e with
     | Some s => if JS.truthy s then Some (JS.substring0 200 s) else None
     | None => None
     end)
    (full_email_data e).

(** [logPayment]: the INSERT, whose unique-constraint failure is
    swallowed. *)
Definition logPayment (e : LogEntry) (db : DB) : DB :=
  match email_uid e with
  | Some u =>
      if uidLogged u (payment_logs db) then db
      else setPaymentLogs db (payment_logs db ++ [rowOf e])%list
  | None => setPaymentLogs db (payment_logs db ++ [rowOf e])%list
  end.

(** Several calls in a row. *)
Definition logAll (es : list LogEntry) (db : DB) : DB :=
  fold_left (fun d e => logPayment e d) es db.

End Logger.

(** ** utils/paymentValidator.js *)

(** What the external extractor returned.  [None] is a field that is
    absent ([undefined]); the text fields are strings, as the
    specification types them. *)
Record ParserData := mkParserData {
  amount : option string;
  pay_type : option string;
  request_status : option string;
  is_expired : option bool;
  receipt_memo : option string;
  note_part : option string;
  subject : option string
}.

Module Validator.

Definition normalizePhrase (text : string) : string :=
  if JS.truthy text
  then JS.trim (JS.collapseWhitespace (JS.toLowerCase text))
  else "".

(** Matching a literal without regard to case: the rest of the string
    after the literal. *)
Fixpoint matchCI (lit s : string) : option string :=
  match lit with
  | EmptyString => Some s
  | String a lit' =>
      match s with
      | String c r =>
          if Ascii.eqb (JS.toLowerChar c) (JS.toLowerChar a)
          then matchCI lit' r else None
      | EmptyString => None
      end
  end.

(** The characters up to the next line terminator: what a greedy [.+]
    takes. *)
Fixpoint takeLine (s : string) : string :=
  match s with
  | EmptyString => EmptyString
  | String c r => if JS.isLineTerminator c then EmptyString else String c (takeLine r)
  end.

(** The last character that is not a line terminator. *)
Fixpoint lastNonLT (s : string) : option ascii :=
  match s with
  | EmptyString => None
  | String c r =>
      match lastNonLT r with
      | Some d => Some d
      | None => if JS.isLineTerminator c then None else Some c
      end
  end.

(** The pattern [^\s*topup\s*:\s*(.+)\s*$] (flags [im]) tried at the
    start of [s]: the text of group 1.  The greedy [\s*] after the colon
    takes all whitespace, line ends included, and [(.+)] the rest of
    the line it lands on; when only whitespace follows the colon the
    matcher backtracks until [(.+)] holds the last whitespace character
    that is not a line terminator. *)
Definition topupAt (s : string) : option string :=
  match matchCI "topup" (JS.trimStart s) with
  | Some s2 =>
      match JS.trimStart s2 with
      | String ":" s4 =>
          match JS.trimStart s4 with
          | EmptyString =>
              match lastNonLT s4 with
              | Some c => Some (String c EmptyString)
              | None => None
              end
          | s5 => Some (takeLine s5)
          end
      | _ => None
      end
  | None => None
  end.

(** The leftmost match: every position where [^] holds is tried in
    turn. *)
Fixpoint searchTopup (lineStart : bool) (s : string) : option string :=
  match (if lineStart then topupAt s else None) with
  | Some g => Some g
  | None =>
      match s with
      | EmptyString => None
      | String c r => searchTopup (JS.isLineTerminator c) r
      end
  end.

Definition extractTopupLine (emailBody : string) : option string :=
  if JS.truthy emailBody
  then match searchTopup true emailBody with
       | Some g => if JS.truthy g then Some (normalizePhrase g) else None
       | None => None
       end
  else None.

Definition withDefault (o : option string) : string :=
  match o with Some s => s | None => "" end.

(** First candidate of the list whose normalized text is not empty. *)
Fixpoint firstNonEmpty (candidates : list (string * string))
    : option string * option string :=
  match candidates with
  | [] => (None, None)
  | (text, source) :: rest =>
      let normalized := normalizePhrase text in
      if JS.truthy normalized && negb (Nat.eqb (String.length normalized) 0)
      then (Some normalized, Some source)
      else firstNonEmpty rest
  end.

(** [{ code, code_source }] *)
Definition extractPassphraseFromSafeZones
    (parserData : ParserData) (emailBody emailSubject : string)
    : option string * option string :=
  let receipt_memo := withDefault (receipt_memo parserData) in
  let note_part := withDefault (note_part parserData) in
  let subject := withDefault (subject parserData) in
  match extractTopupLine (JS.orElse emailBody "") with
  | Some topupLine =>
      if JS.truthy topupLine then (Some topupLine, Some "topup_line")
      else firstNonEmpty
             [ (note_part, "note_part");
               (receipt_memo, "receipt_memo");
               (JS.orElse emailSubject subject, "subject") ]
  | None =>
      firstNonEmpty
        [ (note_part, "note_part");
          (receipt_memo, "receipt_memo");
          (JS.orElse emailSubject subject, "subject") ]
  end.

Record Validation := mkValidation {
  valid : bool;
  v_reason : string;
  v_amount : option JS.number;
  codeCandidate : option string;
  code_source : option string
}.

(** What a template literal prints for a field that may be absent. *)
Definition showField (o : option string) : string :=
  match o with Some s => s | None => "undefined" end.

Definition invalid (r : string) : Validation := mkValidation false r None None None.

(** [validatePayment]: the result and the entries it hands to
    [logPayment], in order. *)
Definition validatePayment
    (parserData : ParserData) (emailBody emailSubject : string) (emailUid : option string)
    : Validation * list LogEntry :=
  let request_status := withDefault (request_status parserData) in
  let receipt_memo := withDefault (receipt_memo parserData) in
  let note_part := withDefault (note_part parserData) in
  let subject := withDefault (subject parserData) in
  let '(codeCandidate, code_source) :=
    extractPassphraseFromSafeZones parserData (JS.orElse emailBody "") (JS.orElse emailSubject "") in
  let logData (d : LogDecision) (r : string) :=
    mkLog emailUid (pay_type parserData) (amount parserData) (Some request_status)
      (is_expired parserData) codeCandidate None d (Some r)
      (Some (JS.orElse emailSubject subject))
      (Some (JS.substring0 200
         (JS.orElse receipt_memo (JS.orElse note_part (JS.orElse emailSubject (JS.orElse subject ""))))))
      None in
  let reject (r : string) := (invalid r, [logData REJECTED r]) in
  (* Rule 1 *)
  if negb (bool_decide (pay_type parserData = Some "sent"))
  then reject ("Invalid pay_type: " ++ showField (pay_type parserData)
               ++ " (only " ++ JS.quote "sent" ++ " payments accepted)")
  else
  (* Rule 2 *)
  match amount parserData with
  | None => reject "Amount missing or empty"
  | Some amount =>
      if negb (JS.truthy amount) || bool_decide (JS.trim amount = "")
      then reject "Amount missing or empty"
      else
        let amountNum := JS.parseFloat amount in
        if JS.isNaN amountNum || JS.leZero amountNum
        then reject ("Invalid amount: " ++ amount ++ " (must be > 0)")
        else
        (* Rule 3 *)
        if JS.truthy request_status
           && negb (bool_decide (request_status = ""))
           && negb (bool_decide (request_status = "active"))
        then reject ("Invalid request_status: " ++ request_status)
        else
        (* Rule 4 *)
        if bool_decide (is_expired parserData = Some true)
        then reject "Payment marked as expired by parser"
        else
        (* Rule 5 *)
        match codeCandidate with
        | None =>
            let r := "No passphrase found in safe zones (receipt_memo, note_part, subject, TOPUP line)" in
            (invalid r, [logData IGNORED r])
        | Some c =>
            if negb (JS.truthy c)
            then
              let r := "No passphrase found in safe zones (receipt_memo, note_part, subject, TOPUP line)" in
              (invalid r, [logData IGNORED r])
            else
              (mkValidation true
                 ("Basic validation passed - passphrase extracted from " ++ showField code_source)
                 (Some amountNum) codeCandidate code_source, [])
        end
  end.

End Validator.

(** ** utils/topupConfirmer.js *)

Module Confirmer.

Import Validator.

(** What the clock reads during one call of [confirmTopupFromEmail]:
    at the query of [getActiveTopups], at the expiry checks, and at the
    two statements of the transaction that evaluate [datetime('now')]. *)
Record Clock := mkClock {
  t_list : Z;
  t_check : Z;
  t_reread : Z;
  t_update : Z
}.

(** [status = 'PENDING' AND datetime(expiresAt) > datetime(now)] *)
Definition isActive (now : Z) (t : TopupRow) : bool :=
  bool_decide (status t = PENDING)
  && (JSDate.datetime now <? JSDate.datetime (expiresAt t))%Z.

(** [ORDER BY createdAt DESC] *)
Definition newerFirst (a b : Z * TopupRow) : Prop :=
  (createdAt b.2 <= createdAt a.2)%Z.

Global Instance newerFirst_dec a b : Decision (newerFirst a b).
Proof. unfold newerFirst. apply _. Defined.

(** The rows come with their id. *)
Definition getActiveTopups (now : Z) (db : DB) : list (Z * TopupRow) :=
  merge_sort newerFirst
    (filter (fun p : Z * TopupRow => isActive now p.2) (map_to_list (topups db))).

Record MatchResult := mkMatch {
  m_topup : option (Z * TopupRow);
  m_reason : string;
  matchedPhrase : option string
}.

Definition showNat (n : nat) : string := JS.showZ (Z.of_nat n).

Definition findMatchingTopupByPhrase (now : Z) (db : DB) (codeCandidate : option string)
    : MatchResult :=
  match codeCandidate with
  | None => mkMatch None "No code candidate provided" None
  | Some cand =>
      if negb (JS.truthy cand)
      then mkMatch None "No code candidate provided" None
      else
        let normalizedCandidate := normalizePhrase cand in
        if negb (JS.truthy normalizedCandidate)
           || Nat.eqb (String.length normalizedCandidate) 0
        then mkMatch None "Code candidate is empty after normalization" None
        else
          let activeTopups := getActiveTopups now db in
          if Nat.eqb (length activeTopups) 0
          then mkMatch None "No active PENDING topups found in database" None
          else
            let matches :=
              filter (fun p : Z * TopupRow => normalizedCandidate = normalizePhrase (code p.2))
                activeTopups in
            match matches with
            | [] =>
                mkMatch None
                  ("No active topup phrase matches candidate " ++ JS.quote normalizedCandidate
                   ++ " (checked " ++ showNat (length activeTopups) ++ " active topup(s))")
                  None
            | [m] =>
                mkMatch (Some m)
                  ("Exact phrase match found: " ++ JS.quote (code m.2))
                  (Some (code m.2))
            | _ =>
                let matchedPhrases :=
                  JS.join ", " (map (fun m : Z * TopupRow => JS.quote (code m.2)) matches) in
                mkMatch None
                  ("Multiple active topup phrases match candidate: " ++ matchedPhrases
                   ++ " (" ++ showNat (length matches) ++ " matches)")
                  None
            end
  end.

(** The matches that [findMatchingTopupByPhrase] collects for a
    normalized candidate. *)
Definition matchesOf (now : Z) (db : DB) (nc : string) : list (Z * TopupRow) :=
  filter (fun p : Z * TopupRow => nc = normalizePhrase (code p.2)) (getActiveTopups now db).

(** The arguments of [confirmTopupFromEmail].  [emailDate] is [None]
    when it is absent or the text Unknown. *)
Record Params := mkParams {
  p_codeCandidate : option string;
  p_code_source : option string;
  amountString : option string;
  p_email_uid : string;
  p_subject : string;
  bodyPreview : string;
  emailDate : option Z
}.

Record Confirmation := mkConfirmation {
  success : bool;
  c_reason : string;
  topupId : option Z;
  c_userId : option Z;
  coins : option JS.number;
  c_extracted_code : option string
}.

Definition failure (r : string) : Confirmation :=
  mkConfirmation false r None None None None.

(** Strips the zeros a decimal ends with, one per unit of fuel. *)
Fixpoint stripZeros (fuel : nat) (m e : Z) : Z * Z :=
  match fuel with
  | S f => if ((e <? 0) && (m mod 10 =? 0))%Z then stripZeros f (m / 10)%Z (e + 1)%Z else (m, e)
  | O => (m, e)
  end.

(** What a template literal prints for a number. *)
Definition showNumber (x : JS.number) : string :=
  match x with
  | JS.NaN => "NaN"
  | JS.Inf neg => if neg then "-Infinity" else "Infinity"
  | JS.Dec m e =>
      let '(m, e) := stripZeros (Z.to_nat (- e)) m e in
      if (0 <=? e)%Z then JS.showZ (m * 10 ^ e)
      else
        let p := (10 ^ (- e))%Z in
        (if (m <? 0)%Z then "-" else "") ++ JS.showZ (Z.abs m / p) ++ "."
        ++ JSDate.pad (Z.to_nat (- e)) (Z.abs m mod p)
  end.

Definition showNumberOpt (x : option JS.number) : string :=
  match x with Some n => showNumber n | None => "null" end.

Definition sourceOf (p : Params) : string :=
  match p_code_source p with Some s => s | None => "unknown" end.

(** The reason with the source zone appended, as the log rows of the
    failing branches carry it. *)
Definition withSource (p : Params) (r : string) : string :=
  r ++ " (source: " ++ sourceOf p ++ ")".

(** The entry every branch hands to [logPayment], up to the fields
    that differ. *)
Definition logOf (p : Params) (extracted : option string) (matched : option Z)
    (d : LogDecision) (r : string) (full : option string) : LogEntry :=
  mkLog (Some (p_email_uid p)) None (amountString p) None None extracted matched d
    (Some r) (Some (p_subject p)) (Some (bodyPreview p)) full.

(** [SELECT email_uid FROM payment_logs WHERE email_uid = ? AND
    decision = 'ACCEPTED'] finds a row. *)
Definition acceptedLogged (uid : string) (db : DB) : bool :=
  existsb (fun r => bool_decide (email_uid r = Some uid) && bool_decide (decision r = ACCEPTED))
    (payment_logs db).

(** [Math.floor(parseFloat(amountString || "0"))] *)
Definition coinsOf (amountString : option string) : JS.number :=
  JS.floor (JS.parseFloat (JS.orElse (withDefault amountString) "0")).

(** A topup that passed every check, with the coins to credit. *)
Record Matched := mkMatched {
  mt_id : Z;
  mt_row : TopupRow;
  mt_phrase : option string;
  mt_coins : JS.number
}.

(** The part of [confirmTopupFromEmail] before the transaction: the
    idempotency check, the amount, the phrase match and the three
    checks on the matched topup.  Either the call ends there, with its
    result and the entries it logs, or the transaction is reached. *)
Definition confirmChecks (p : Params) (clk : Clock) (db : DB)
    : (Confirmation * list LogEntry) + Matched :=
  if acceptedLogged (p_email_uid p) db
  then inl (failure ("Email UID " ++ p_email_uid p ++ " already processed (idempotency check)"), [])
  else
    let coins := coinsOf (amountString p) in
    if JS.isNaN coins || JS.leZero coins
    then
      let reason := "Invalid email amount: " ++ showField (amountString p)
        ++ " (must be > 0). Parser returned empty/invalid amount - likely no strong transaction match found." in
      inl (failure reason, [logOf p (p_codeCandidate p) None REJECTED (withSource p reason) None])
    else
      let matchResult := findMatchingTopupByPhrase (t_list clk) db (p_codeCandidate p) in
      match m_topup matchResult with
      | None =>
          inl (failure (m_reason matchResult),
               [logOf p (matchedPhrase matchResult) None
                  (if JS.includes "Multiple" (m_reason matchResult) then REJECTED else IGNORED)
                  (withSource p (m_reason matchResult)) None])
      | Some (id, topup) =>
          let matchedPhrase := matchedPhrase matchResult in
          let now := t_check clk in
          (* Check 1 *)
          if negb (bool_decide (status topup = PENDING))
          then
            let reason := "TopUp status is " ++ statusName (status topup) ++ ", expected PENDING" in
            inl (failure reason, [logOf p matchedPhrase (Some id) REJECTED (withSource p reason) None])
          else
          (* Check 2 *)
          if (expiresAt topup <? now)%Z
          then
            let reason := "Payment arrived after TopUp expiry (expiresAt: "
              ++ JSDate.toISOString (expiresAt topup) ++ ")" in
            inl (failure reason, [logOf p matchedPhrase (Some id) REJECTED (withSource p reason) None])
          else
          (* Check 3 *)
          match emailDate p with
          | Some d =>
              let expiresAtPlus5 := (expiresAt topup + 5 * 60 * 1000)%Z in
              if (expiresAtPlus5 <? d)%Z
              then
                let reason := "Email date (" ++ JSDate.toISOString d
                  ++ ") is too far in the future (after expiresAt + 5min: "
                  ++ JSDate.toISOString expiresAtPlus5 ++ ")" in
                inl (failure reason, [logOf p matchedPhrase (Some id) REJECTED (withSource p reason) None])
              else inr (mkMatched id topup matchedPhrase coins)
          | None => inr (mkMatched id topup matchedPhrase coins)
          end
      end.

(** The statements of the transaction. *)

(** [SELECT status, amount_coins FROM topups WHERE id = ? AND status =
    'PENDING' AND datetime(expiresAt) > datetime('now')] *)
Definition selectPending (now id : Z) (db : DB) : option TopupRow :=
  match topups db !! id with
  | Some t => if isActive now t then Some t else None
  | None => None
  end.

(** The row after [SET status = 'CONFIRMED', amount_coins = ?]. *)
Definition confirmedRow (t : TopupRow) (coins : JS.number) : TopupRow :=
  mkTopup (userId t) (code t) CONFIRMED (expiresAt t) (createdAt t) (Some coins)
    (armed_uidnext t).

(** [UPDATE topups SET status = 'CONFIRMED', amount_coins = ? WHERE id
    = ? AND status = 'PENDING' AND datetime(expiresAt) >
    datetime('now')]: the number of rows changed and the new
    database. *)
Definition updateConfirmed (now : Z) (coins : JS.number) (id : Z) (db : DB) : nat * DB :=
  match selectPending now id db with
  | Some t => (1%nat, setTopups db (<[id := confirmedRow t coins]> (topups db)))
  | None => (0%nat, db)
  end.

(** [UPDATE users SET balance_coins = balance_coins + ? WHERE id = ?] *)
Definition updateBalance (coins : JS.number) (user : Z) (db : DB) : nat * DB :=
  match users db !! user with
  | Some balance => (1%nat, setUsers db (<[user := sqlAdd balance coins]> (users db)))
  | None => (0%nat, db)
  end.

(** The function handed to [db.transaction]: the message of the error
    it throws, or the database it leaves. *)
Definition creditBody (clk : Clock) (m : Matched) (db : DB) : string + DB :=
  match selectPending (t_reread clk) (mt_id m) db with
  | None => inl "TopUp not found, expired, or already processed"
  | Some _ =>
      let '(changes, db1) := updateConfirmed (t_update clk) (mt_coins m) (mt_id m) db in
      if negb (Nat.eqb changes 1)
      then
        match topups db1 !! mt_id m with
        | Some checkTopup =>
            if bool_decide (status checkTopup = CONFIRMED)
            then inl ("TopUp already confirmed (amount: "
                      ++ showNumberOpt (amount_coins checkTopup)
                      ++ " coins) - preventing double-credit")
            else inl "TopUp update failed (may have been confirmed or expired)"
        | None => inl "TopUp update failed (may have been confirmed or expired)"
        end
      else
        let '(changes2, db2) := updateBalance (mt_coins m) (userId (mt_row m)) db1 in
        if negb (Nat.eqb changes2 1)
        then inl ("Failed to update user balance for user " ++ JS.showZ (userId (mt_row m)))
        else inr db2
  end.

(** [db.transaction(fn)()]: the writes of [fn] are kept when it
    returns and undone when it throws. *)
Definition transaction (fn : DB -> string + DB) (db : DB) : option string * DB :=
  match fn db with
  | inl e => (Some e, db)
  | inr db' => (None, db')
  end.

(** [confirmTopupFromEmail]: the result, the entries handed to
    [logPayment] in order, and the database after the call. *)
Definition confirmTopupFromEmail (p : Params) (clk : Clock) (db : DB)
    : Confirmation * list LogEntry * DB :=
  match confirmChecks p clk db with
  | inl (r, logs) => (r, logs, Logger.logAll logs db)
  | inr m =>
      match transaction (creditBody clk m) db with
      | (None, db') =>
          let e := logOf p (mt_phrase m) (Some (mt_id m)) ACCEPTED
            ("Payment confirmed: " ++ showNumber (mt_coins m) ++ " coins credited to user "
             ++ JS.showZ (userId (mt_row m)) ++ " (source: " ++ sourceOf p
             ++ ", coins from email)") None in
          (mkConfirmation true
             ("Payment confirmed: " ++ showNumber (mt_coins m) ++ " coins credited")
             (Some (mt_id m)) (Some (userId (mt_row m))) (Some (mt_coins m)) (mt_phrase m),
           [e], Logger.logPayment e db')
      | (Some msg, db') =>
          let reason := "Database transaction failed: " ++ msg in
          let e := logOf p (mt_phrase m) (Some (mt_id m)) ERROR (withSource p reason) (Some msg) in
          (failure reason, [e], Logger.logPayment e db')
      end
  end.

End Confirmer.

(** ** services/gmailPoller.js *)

Module Poller.

Import Validator Confirmer.

(** *** What the mailbox and the extractor answer *)

(** [client.fetchOne]: it throws, it returns no source, or it returns
    the source with the subject and the date of the envelope. *)
Inductive Fetch :=
| FetchThrows (message : string)
| FetchNoSource (envSubject : option string)
| Fetched (source : string) (envSubject : option string) (envDate : option Z).

(** One message of the mailbox in one scan pass: its UID and what the
    collaborators answer when the pass handles it: the fetch, the
    extractor (the message of its error, or its result), whether
    [messageFlagsAdd] succeeds, and the clock during the
    confirmation. *)
Record Message := mkMessage {
  uidNum : Z;
  fetch : Fetch;
  parse : string + ParserData;
  flagOk : bool;
  clock : Clock
}.

(** What one scan pass meets: which mailbox names can be opened and
    with which UIDNEXT ([None]: the open throws; [Some None]: no
    UIDNEXT), the error of the search if it throws, the messages of the
    mailbox in UID order, and the clock at the end. *)
Record PassEnv := mkPassEnv {
  mailboxOpen : string -> option (option Z);
  searchError : option string;
  inbox : list Message;
  t_end : Z
}.

(** The database together with the set of UIDs flagged as seen in the
    mailbox, and the calls made to the extractor and to the confirmer
    (by UID, latest first). *)
Record World := mkWorld {
  w_db : DB;
  w_seen : gset Z;
  parseCalls : list Z;
  confirmCalls : list Z
}.

Definition setDb (w : World) (db : DB) : World :=
  mkWorld db (w_seen w) (parseCalls w) (confirmCalls w).

(** *** Settings and markers *)

Definition getSetting (db : DB) (key : string) (defaultValue : option string) : option string :=
  match app_settings db !! key with
  | Some v => Some v
  | None => defaultValue
  end.

Definition setSetting (db : DB) (key value : string) : DB :=
  setAppSettings db (<[key := value]> (app_settings db)).

(** [None] is null, [Some None] is NaN. *)
Definition getStartUid (db : DB) : option (option Z) :=
  match getSetting db "gmail_start_uid" None with
  | Some startUid => if JS.truthy startUid then Some (JS.parseInt startUid) else None
  | None => None
  end.

Definition setStartUid (db : DB) (uid : Z) : DB :=
  setSetting db "gmail_start_uid" (JS.showZ uid).

Definition markerKey (mailbox uid : string) : string := mailbox ++ ":" ++ uid.

Definition markerExists (db : DB) (mailbox uid : string) : bool :=
  bool_decide (markerKey mailbox uid ∈ mail_markers db).

(** The INSERT into [mail_markers]; [false] when the key is there
    already. *)
Definition markProcessed (db : DB) (mailbox uid : string) : bool * DB :=
  if bool_decide (markerKey mailbox uid ∈ mail_markers db)
  then (false, db)
  else (true, setMailMarkers db ({[ markerKey mailbox uid ]} ∪ mail_markers db)).

(** *** Opening the mailbox *)

Definition mailboxes : list string :=
  ["INBOX"; "[Gmail]/All Mail"; "[Google Mail]/All Mail"; "All Mail"].

(** The first name that opens; on the first open ever the UIDNEXT is
    saved as the start boundary.  [None]: no mailbox could be opened. *)
Fixpoint openFrom (names : list string) (open : string -> option (option Z)) (db : DB)
    : option (string * DB) :=
  match names with
  | [] => None
  | mailbox :: rest =>
      match open mailbox with
      | None => openFrom rest open db
      | Some uidNext =>
          match uidNext, getStartUid db with
          | Some n, None => if (0 <? n)%Z then Some (mailbox, setStartUid db n) else Some (mailbox, db)
          | _, _ => Some (mailbox, db)
          end
      end
  end.

Definition openMailboxWithFallback (open : string -> option (option Z)) (db : DB)
    : option (string * DB) :=
  openFrom mailboxes open db.

(** *** The search *)

(** [SELECT MIN(armed_uidnext) FROM topups WHERE status = 'PENDING'
    AND armed_uidnext IS NOT NULL] *)
Definition minArmed (db : DB) : option Z :=
  foldr (fun (p : Z * TopupRow) (acc : option Z) =>
           match armed_uidnext p.2 with
           | Some a =>
               if bool_decide (status p.2 = PENDING)
               then match acc with Some b => Some (Z.min a b) | None => Some a end
               else acc
           | None => acc
           end)
        None (map_to_list (topups db)).

Definition maxUid (msgs : list Message) : option Z :=
  foldr (fun (m : Message) (acc : option Z) =>
           match acc with Some b => Some (Z.max (uidNum m) b) | None => Some (uidNum m) end)
        None msgs.

(** [client.search({ unseen: true, uid: "start:*" })], without the
    unseen criterion in debug mode.  In IMAP the star is the highest
    UID in the mailbox and the two ends of a range may come in either
    order. *)
Definition search (debugMode : bool) (startUid : Z) (seen : gset Z) (msgs : list Message)
    : list Message :=
  match maxUid msgs with
  | None => []
  | Some top =>
      filter (fun m : Message =>
                (Z.min startUid top <= uidNum m <= Z.max startUid top)%Z
                /\ (debugMode = true \/ uidNum m ∉ seen))
             msgs
  end.

(** *** The messages of a pass *)

(** [s?.[0]]: the first character of a text. *)
Definition firstChar (s : option string) : option string :=
  match s with
  | Some (String c _) => Some (String c EmptyString)
  | _ => None
  end.

Definition CR : ascii := ascii_of_nat 13.
Definition LF : ascii := ascii_of_nat 10.

(** A line end followed by a line end (each an optional CR and a LF)
    at the start of the text: what follows it. *)
Definition blankLineAt (s : string) : option string :=
  let afterLF (t : string) : option string :=
    match t with
    | String c r => if Ascii.eqb c LF then Some r else None
    | EmptyString => None
    end in
  let afterCRLF (t : string) : option string :=
    match t with
    | String c r =>
        if Ascii.eqb c CR then afterLF r else afterLF t
    | EmptyString => None
    end in
  match afterCRLF s with
  | Some t => afterCRLF t
  | None => None
  end.

(** The text after the first blank line: group 1 of the leftmost
    match of the pattern that [processEmails] uses to find the body. *)
Fixpoint afterBlankLine (s : string) : option string :=
  match blankLineAt s with
  | Some body => Some body
  | None =>
      match s with
      | EmptyString => None
      | String _ r => afterBlankLine r
      end
  end.

Definition bodyTextOf (emailSource : string) : string :=
  match afterBlankLine emailSource with
  | Some body => body
  | None => emailSource
  end.

(** The counters of [processEmails] and the world. *)
Record LoopState := mkLoopState {
  world : World;
  processedCount : nat;
  parsedCount : nat;
  confirmedCount : nat;
  rejectedCount : nat;
  highestProcessedUid : Z
}.

Definition errorLog (uid : option string) (r : string) (subj preview : option string)
    (d : LogDecision) (full : option string) : LogEntry :=
  mkLog uid None None None None None None d (Some r) subj preview full.

(** [messageFlagsAdd(uid, ["\\Seen"])] *)
Definition flagSeen (m : Message) (w : World) : World :=
  if flagOk m
  then mkWorld (w_db w) ({[ uidNum m ]} ∪ w_seen w) (parseCalls w) (confirmCalls w)
  else w.

(** [try { await client.messageFlagsAdd(..); markProcessed(..) } catch {}]:
    the marker is inserted only when the flag could be set. *)
Definition flagAndMark (mailboxName uid : string) (m : Message) (w : World) : World :=
  if flagOk m
  then setDb (flagSeen m w) (markProcessed (w_db w) mailboxName uid).2
  else w.

(** The end of an iteration of the loop, which the [continue]
    statements skip: the marker and the highest processed UID. *)
Definition bookkeeping (mailboxName uid : string) (m : Message) (st : LoopState) : LoopState :=
  mkLoopState
    (setDb (world st) (markProcessed (w_db (world st)) mailboxName uid).2)
    (processedCount st) (parsedCount st) (confirmedCount st) (rejectedCount st)
    (if (highestProcessedUid st <? uidNum m)%Z then uidNum m else highestProcessedUid st).

(** One iteration of the loop over the UIDs the search returned. *)
Definition processMessage (mailboxName : string) (startUid : Z) (m : Message) (st : LoopState)
    : LoopState :=
  if (uidNum m <? startUid)%Z then st
  else
    let uid := JS.showZ (uidNum m) in
    let w := world st in
    if markerExists (w_db w) mailboxName uid
    then
      mkLoopState w (processedCount st) (parsedCount st) (confirmedCount st) (rejectedCount st)
        (if (highestProcessedUid st <? uidNum m)%Z then uidNum m else highestProcessedUid st)
    else
      match fetch m with
      | FetchThrows e =>
          (* caught by the handler of the iteration; savedAny = true *)
          let db1 := Logger.logPayment
            (errorLog (Some uid) ("Email processing error: " ++ e) (Some "Unknown") None ERROR (Some e))
            (w_db w) in
          bookkeeping mailboxName uid m
            (mkLoopState (setDb w db1) (processedCount st) (parsedCount st)
               (confirmedCount st) (rejectedCount st) (highestProcessedUid st))
      | FetchNoSource envSubject =>
          let db1 := Logger.logPayment
            (errorLog (Some uid) "Could not fetch email source"
               (Some (JS.orElse (withDefault (firstChar envSubject)) "Unknown")) None IGNORED None)
            (w_db w) in
          (* savedAny = true; continue *)
          mkLoopState (flagSeen m (setDb w db1)) (processedCount st) (parsedCount st)
            (confirmedCount st) (rejectedCount st) (highestProcessedUid st)
      | Fetched emailSource envSubject envDate =>
          let emailSubject := JS.orElse (withDefault (firstChar envSubject)) "" in
          let bodyText := bodyTextOf emailSource in
          let w1 := mkWorld (w_db w) (w_seen w) (uidNum m :: parseCalls w) (confirmCalls w) in
          match parse m with
          | inl e =>
              let db1 := Logger.logPayment
                (errorLog (Some uid) ("Python parser error: " ++ e) (Some emailSubject)
                   (Some (JS.substring0 200 bodyText)) ERROR (Some e))
                (w_db w1) in
              (* rejectedCount++; savedAny = true; continue *)
              mkLoopState (flagSeen m (setDb w1 db1)) (processedCount st) (parsedCount st)
                (confirmedCount st) (S (rejectedCount st)) (highestProcessedUid st)
          | inr parserData =>
              let '(validation, logs) := validatePayment parserData bodyText emailSubject (Some uid) in
              let w2 := setDb w1 (Logger.logAll logs (w_db w1)) in
              if negb (valid validation)
              then
                (* rejectedCount++; savedAny = true; flag and mark; continue *)
                mkLoopState (flagAndMark mailboxName uid m w2) (processedCount st)
                  (S (parsedCount st)) (confirmedCount st) (S (rejectedCount st))
                  (highestProcessedUid st)
              else
                let '(confirmation, _, db3) :=
                  confirmTopupFromEmail
                    (mkParams (codeCandidate validation) (code_source validation)
                       (amount parserData) uid emailSubject (JS.substring0 200 bodyText) envDate)
                    (clock m) (w_db w2) in
                let w3 := mkWorld db3 (w_seen w2) (parseCalls w2) (uidNum m :: confirmCalls w2) in
                let w4 := flagAndMark mailboxName uid m w3 in
                bookkeeping mailboxName uid m
                  (if success confirmation
                   then mkLoopState w4 (S (processedCount st)) (S (parsedCount st))
                          (S (confirmedCount st)) (rejectedCount st) (highestProcessedUid st)
                   else mkLoopState w4 (processedCount st) (S (parsedCount st))
                          (confirmedCount st) (S (rejectedCount st)) (highestProcessedUid st))
          end
      end.

(** The iteration for this message ends in the bookkeeping of the loop
    when no marker stops it: the fetch throws (the handler of the
    iteration catches it), or the message is fetched, the extractor
    answers and the validator accepts, so that the confirmer is called.
    The other paths leave the iteration with [continue]. *)
Definition endsInBookkeeping (m : Message) : bool :=
  match fetch m with
  | FetchThrows _ => true
  | FetchNoSource _ => false
  | Fetched emailSource envSubject _ =>
      match parse m with
      | inl _ => false
      | inr parserData =>
          valid (validatePayment parserData (bodyTextOf emailSource)
                   (JS.orElse (withDefault (firstChar envSubject)) "")
                   (Some (JS.showZ (uidNum m)))).1
      end
  end.

(** [getSetting(db, "gmail_debug_mode", "0") === "1"] *)
Definition debugModeOf (db : DB) : bool :=
  bool_decide (getSetting db "gmail_debug_mode" (Some "0") = Some "1").

(** The message counts for the watermark of the pass that started on
    [db0]: its marker was there, or its iteration ends in the
    bookkeeping. *)
Definition counted (db0 : DB) (mailboxName : string) (m : Message) : Prop :=
  markerExists db0 mailboxName (JS.showZ (uidNum m)) = true \/ endsInBookkeeping m = true.

(** The messages of a search result that the loop visits: those at or
    above the start UID. *)
Definition visitedOf (startUid : Z) (uids : list Message) : list Message :=
  filter (fun m : Message => (startUid <= uidNum m)%Z) uids.

Record PassResult := mkPassResult {
  r_processed : nat;
  r_found : nat;
  r_parsed : nat;
  r_confirmed : nat;
  r_rejected : nat;
  r_mailbox : string;
  r_startUid : option Z;
  r_highestProcessedUid : option Z
}.

Definition emptyResult (mailboxName : string) : PassResult :=
  mkPassResult 0 0 0 0 0 mailboxName None None.

Definition touchLastChecked (env : PassEnv) (db : DB) : DB :=
  setSetting db "gmail_last_checked_at" (JSDate.toISOString (t_end env)).

(** The handler around the whole pass: the error is logged and thrown
    again. *)
Definition batchError (e : string) (w : World) : (string + PassResult) * World :=
  (inl e,
   setDb w (Logger.logPayment
              (errorLog None ("Batch processing error: " ++ e) None None ERROR (Some e))
              (w_db w))).

(** [processEmails]: the message of the error it throws or its result,
    and the world it leaves. *)
Definition processEmails (env : PassEnv) (w : World) : (string + PassResult) * World :=
  match openMailboxWithFallback (mailboxOpen env) (w_db w) with
  | None => batchError "Could not open any mailbox" w
  | Some (mailboxName, db1) =>
      let w1 := setDb w db1 in
      match minArmed db1 with
      | None => (inr (emptyResult mailboxName), setDb w1 (touchLastChecked env db1))
      | Some startUid =>
          let debugMode := debugModeOf db1 in
          match searchError env with
          | Some e => batchError e w1
          | None =>
            let uids := search debugMode startUid (w_seen w1) (inbox env) in
            if Nat.eqb (length uids) 0
            then (inr (emptyResult mailboxName), setDb w1 (touchLastChecked env db1))
            else
              let st := fold_left (fun st m => processMessage mailboxName startUid m st) uids
                          (mkLoopState w1 0 0 0 0 (startUid - 1)%Z) in
              let db2 := w_db (world st) in
              let db3 :=
                if (startUid <=? highestProcessedUid st)%Z
                then setStartUid db2 (highestProcessedUid st + 1)%Z
                else db2 in
              (inr (mkPassResult (processedCount st) (length uids) (parsedCount st)
                      (confirmedCount st) (rejectedCount st) mailboxName
                      (Some startUid) (Some (highestProcessedUid st))),
               setDb (world st) (touchLastChecked env db3))
          end
      end
  end.

(** *** The poll loop *)

(** The module variables [backoffMs] and [isPolling]. *)
Record Globals := mkGlobals {
  backoffMs : Z;
  isPolling : bool
}.

(** What one poll cycle meets: the error of [client.connect] if it
    throws, and the scan pass. *)
Record CycleEnv := mkCycleEnv {
  connectError : option string;
  pass : PassEnv
}.

(** How a call ends: it returns, or it throws. *)
Inductive Completion :=
| Returns
| Throws (message : string).

(** [pollGmail]: the [try] catches every error of the connection and
    of the scan, and the [finally] clears [isPolling]. *)
Definition pollGmail (env : CycleEnv) (g : Globals) (w : World) : Completion * Globals * World :=
  if isPolling g then (Returns, g, w)
  else
    match connectError env with
    | Some _ => (Returns, mkGlobals (Z.min (backoffMs g * 2) 60000) false, w)
    | None =>
        match processEmails (pass env) w with
        | (inr _, w') => (Returns, mkGlobals 2000 false, w')
        | (inl _, w') => (Returns, mkGlobals (Z.min (backoffMs g * 2) 60000) false, w')
        end
    end.

Definition POLL_INTERVAL : Z := 20000.

(** One iteration of the [while] of [pollLoop]: the delay it sleeps
    before the next iteration, and the state it leaves. *)
Definition pollLoopIter (env : CycleEnv) (g : Globals) (w : World) : Z * Globals * World :=
  match pollGmail env g w with
  | (Returns, g', w') =>
      (* success: reset the backoff and wait the normal interval *)
      (POLL_INTERVAL, mkGlobals 2000 (isPolling g'), w')
  | (Throws _, g', w') =>
      (* error: wait with backoff *)
      (backoffMs g', mkGlobals (Z.min (backoffMs g' * 2) 60000) (isPolling g'), w')
  end.

(** [pollLoop] over the cycles that happen before the stop flag is
    set: the delays it sleeps, the first one before the first poll. *)
Fixpoint pollLoopFrom (cycles : list CycleEnv) (g : Globals) (w : World)
    : list Z * Globals * World :=
  match cycles with
  | [] => ([], g, w)
  | env :: rest =>
      let '(delay, g1, w1) := pollLoopIter env g w in
      let '(delays, g2, w2) := pollLoopFrom rest g1 w1 in
      (delay :: delays, g2, w2)
  end.

Definition pollLoop (cycles : list CycleEnv) (g : Globals) (w : World)
    : list Z * Globals * World :=
  let '(delays, g', w') := pollLoopFrom cycles g w in
  (2000%Z :: delays, g', w').

End Poller.

(** ** The specification's wording, where it is compared with the code *)

Module Spec.

Import Validator.

(** The fourth safe zone as the specification words it: the subject the
    extractor supplied, and the subject header of the email only when
    the extractor supplied none. *)
Definition subjectZone (parserData : ParserData) (emailSubject : string) : string :=
  JS.orElse (withDefault (subject parserData)) emailSubject.

(** The passphrase the specification's priority order selects. *)
Definition extractPassphrase (parserData : ParserData) (emailBody emailSubject : string)
    : option string * option string :=
  match extractTopupLine emailBody with
  | Some (String c r) => (Some (String c r), Some "topup_line")
  | _ =>
      firstNonEmpty
        [ (withDefault (note_part parserData), "note_part");
          (withDefault (receipt_memo parserData), "receipt_memo");
          (subjectZone parserData emailSubject, "subject") ]
  end.

(** The rules 1 to 4 of the validator as the specification words
    them: [true] when the rule passes. *)
Definition rule1 (d : ParserData) : bool :=
  bool_decide (pay_type d = Some "sent").

Definition rule2 (d : ParserData) : bool :=
  match amount d with
  | Some a => negb (bool_decide (JS.trim a = "")) && JS.gtZero (JS.parseFloat a)
  | None => false
  end.

Definition rule3 (d : ParserData) : bool :=
  bool_decide (withDefault (request_status d) = "")
  || bool_decide (withDefault (request_status d) = "active").

Definition rule4 (d : ParserData) : bool :=
  negb (bool_decide (is_expired d = Some true)).

(** An amount string that is missing, not numeric, or whose floor is not
    positive. *)
Definition amountRejected (amountString : option string) : Prop :=
  match amountString with
  | None => True
  | Some a =>
      a = "" \/ JS.parseFloat a = JS.NaN \/ JS.leZero (JS.floor (JS.parseFloat a)) = true
  end.

(** The active topups whose normalized stored phrase equals the
    normalized candidate. *)
Definition colliding (now : Z) (db : DB) (candidate : string) : list (Z * TopupRow) :=
  filter (fun p : Z * TopupRow =>
            Confirmer.isActive now p.2 = true
            /\ normalizePhrase (code p.2) = normalizePhrase candidate)
         (map_to_list (topups db)).


(** The second call starts when the first one has ended: its first
    clock reading is not before any reading of the first call. *)
Definition later (clk1 clk2 : Confirmer.Clock) : Prop :=
  (Confirmer.t_list clk1 <= Confirmer.t_list clk2
   /\ Confirmer.t_check clk1 <= Confirmer.t_list clk2
   /\ Confirmer.t_reread clk1 <= Confirmer.t_list clk2
   /\ Confirmer.t_update clk1 <= Confirmer.t_list clk2)%Z.

End Spec.

(** ** Concrete states and inputs used in the examples *)

Module Fixture.

Import Confirmer.

(** The request of the specification's scenario: the code vine oak stone
    reef of user 7, armed at UID 1000, expiring at 2 000 000 ms. *)
Definition reef : TopupRow :=
  mkTopup 7 "vine oak stone reef" PENDING 2000000 1000 None (Some 1000%Z).

Definition dbReef : DB :=
  mkDB {[ 1%Z := reef ]} {[ 7%Z := JS.Dec 0 0 ]} [] ∅ ∅.

(** The same request when the row of its user is gone. *)
Definition dbNoUser : DB :=
  mkDB {[ 1%Z := reef ]} ∅ [] ∅ ∅.

Definition payReef (amount : string) : Params :=
  mkParams (Some "vine oak stone reef") (Some "topup_line") (Some amount) "1005" "s" "b" None.

(** A clock that reads [t] throughout a call. *)
Definition at_ (t : Z) : Clock := mkClock t t t t.

(** Two PENDING requests whose phrases are equal after normalization, the
    first expiring at 2 000 000 ms and the second at 3 000 000 ms. *)
Definition alpha1 : TopupRow :=
  mkTopup 7 "alpha bravo" PENDING 2000000 1000 None (Some 1000%Z).
Definition alpha2 : TopupRow :=
  mkTopup 8 "ALPHA  Bravo" PENDING 3000000 1001 None (Some 1000%Z).

Definition dbTwins : DB :=
  mkDB {[ 1%Z := alpha1; 2%Z := alpha2 ]} {[ 7%Z := JS.Dec 0 0; 8%Z := JS.Dec 0 0 ]} [] ∅ ∅.

Definition payAlpha : Params :=
  mkParams (Some "alpha bravo") (Some "note_part") (Some "40") "1005" "s" "b" None.

(** *** Scan passes *)

Import Poller.

Definition newline : string := String LF EmptyString.

(** A raw email whose body carries the given TOPUP line. *)
Definition emailWith (phrase : string) : string :=
  "Subject: Payment" ++ newline ++ "From: bank" ++ newline ++ newline
  ++ "You sent a payment." ++ newline ++ "TOPUP: " ++ phrase ++ newline.

(** What the extractor returns for a sent payment of the given amount. *)
Definition sent (amount : string) : ParserData :=
  mkParserData (Some amount) (Some "sent") (Some "") None None None None.

(** Only INBOX opens, with UIDNEXT 2000. *)
Definition inboxOnly (mailbox : string) : option (option Z) :=
  if bool_decide (mailbox = "INBOX") then Some (Some 2000%Z) else None.

(** A fetched message with the given TOPUP line and amount. *)
Definition paying (uid : Z) (phrase amount : string) (flag : bool) : Message :=
  mkMessage uid (Fetched (emailWith phrase) (Some "Payment") (Some 1400000%Z))
    (inr (sent amount)) flag (at_ 1500000).

(** A fetched message on which the extractor times out. *)
Definition unparsable (uid : Z) : Message :=
  mkMessage uid (Fetched (emailWith "vine oak stone reef") (Some "Payment") (Some 1400000%Z))
    (inl "Python parser timeout after 15 seconds") true (at_ 1500000).

Definition passOver (msgs : list Message) : PassEnv :=
  mkPassEnv inboxOnly None msgs 1600000.

Definition worldOf (db : DB) : World := mkWorld db ∅ [] [].

(** The scenario database in debug mode: the search returns seen
    messages too. *)
Definition dbReefDebug : DB :=
  mkDB {[ 1%Z := reef ]} {[ 7%Z := JS.Dec 0 0 ]} [] ∅ {[ "gmail_debug_mode" := "1" ]}.

(** A poll cycle whose connection fails. *)
Definition refused : CycleEnv :=
  mkCycleEnv (Some "connect ECONNREFUSED") (passOver []).

(** A poll cycle whose scan fails: no mailbox opens. *)
Definition noMailbox : CycleEnv :=
  mkCycleEnv None (mkPassEnv (fun _ => None) None [] 1600000).

End Fixture.

(** ** Vocabulary of the further properties *)

Module Text.

(** Every character of the text satisfies the test. *)
Fixpoint allChars (test : ascii -> bool) (s : string) : bool :=
  match s with
  | EmptyString => true
  | String c r => test c && allChars test r
  end.

(** A run of whitespace: one character or more, all of them
    whitespace. *)
Definition blank (w : string) : Prop :=
  w <> "" /\ allChars JS.isWhiteSpace w = true.

(** The text has the character. *)
Fixpoint hasChar (c : ascii) (s : string) : bool :=
  match s with
  | EmptyString => false
  | String d r => Ascii.eqb c d || hasChar c r
  end.

(** Whitespace of a tidy text is single spaces, one at a time: [prev]
    tells that the character before was whitespace. *)
Fixpoint tidy (prev : bool) (s : string) : bool :=
  match s with
  | EmptyString => true
  | String c r =>
      if JS.isWhiteSpace c
      then negb prev && Ascii.eqb c " " && tidy true r
      else tidy false r
  end.

(** What [JS.collapse_go] remembers once it has read [a]: whether the
    last character was whitespace. *)
Fixpoint flagAfter (f : bool) (a : string) : bool :=
  match a with
  | EmptyString => f
  | String c r => flagAfter (JS.isWhiteSpace c) r
  end.

(** A character that [normalizePhrase] keeps as it is inside a word:
    it is not whitespace and lower-casing leaves it alone. *)
Definition plain (c : ascii) : bool :=
  negb (JS.isWhiteSpace c) && Ascii.eqb (JS.toLowerChar c) c.

(** The texts that are not empty, that lower-casing, collapsing and
    trimming leave as they are. *)
Definition settled (s : string) : Prop :=
  s <> "" /\ JS.toLowerCase s = s /\ tidy false s = true
  /\ JS.trimStart s = s /\ JS.trimEnd s = s.

End Text.

(** ** utils/paymentValidator.js: the check of a matched topup *)

Module StatusCheck.

(** [{ valid, reason }]; a valid result has no reason. *)
Record StatusValidation := mkStatusValidation {
  s_valid : bool;
  s_reason : option string
}.

(** [validateTopupStatus]: the result and the entries it hands to
    [logPayment].  The topup comes with its id, [None] is a topup that
    was not found; [now] is what the clock reads at [new Date()]. *)
Definition validateTopupStatus
    (now : Z) (topup : option (Z * TopupRow)) (code emailUid : option string)
    : StatusValidation * list LogEntry :=
  let logData (matched : option Z) (r : string) :=
    mkLog emailUid None None None None code matched REJECTED (Some r) None None None in
  match topup with
  | None =>
      (* Rule 6 *)
      let r := "TopUp code not found in database" in
      (mkStatusValidation false (Some r), [logData None r])
  | Some (id, t) =>
      (* Rule 7 *)
      if negb (bool_decide (status t = PENDING))
      then
        let r := "TopUp already " ++ statusName (status t) in
        (mkStatusValidation false (Some r), [logData (Some id) r])
      else
      (* Rule 8 *)
      if (expiresAt t <? now)%Z
      then
        let r := "Payment arrived after TopUp expiry" in
        (mkStatusValidation false (Some r), [logData (Some id) r])
      else (mkStatusValidation true None, [])
  end.

End StatusCheck.

(** ** db.js: the phrase of a new topup *)

Module Codes.

Definition consonants : string := "bcdfghjklmnpqrstvwxyz".
Definition vowels : string := "aeiou".

(** A value of [Math.random()]: the fraction [num / den]. *)
Record Random := mkRandom {
  num : Z;
  den : Z
}.

(** The range of [Math.random()]: from 0, inclusive, up to 1,
    exclusive. *)
Definition inRange (r : Random) : Prop := (0 <= num r < den r)%Z.

(** [Math.floor(r * n)] *)
Definition floorTimes (r : Random) (n : Z) : Z := (num r * n / den r)%Z.

(** [s[i]]; [None] is undefined. *)
Definition charAt (s : string) (i : Z) : option ascii :=
  if (i <? 0)%Z then None else String.get (Z.to_nat i) s.

(** [word += c], where undefined is appended as its name. *)
Definition addChar (word : string) (c : option ascii) : string :=
  word ++ match c with Some c => String c EmptyString | None => "undefined" end.

(** The [for] loop of [generateWord] at position [i] with [steps]
    iterations to go; each iteration takes one value of
    [Math.random()].  [None]: the values ran out. *)
Fixpoint wordLoop (steps i : nat) (word : string) (draws : list Random)
    : option (string * list Random) :=
  match steps with
  | O => Some (word, draws)
  | S k =>
      match draws with
      | [] => None
      | r :: rest =>
          let c :=
            if Nat.even i
            then charAt consonants (floorTimes r (Z.of_nat (String.length consonants)))
            else charAt vowels (floorTimes r (Z.of_nat (String.length vowels))) in
          wordLoop k (S i) (addChar word c) rest
      end
  end.

(** [generateWord]: the word and the values of [Math.random()] that
    are left. *)
Definition generateWord (draws : list Random) : option (string * list Random) :=
  match draws with
  | [] => None
  | r :: rest =>
      let len := (4 + floorTimes r 3)%Z in
      wordLoop (Z.to_nat len) 0 "" rest
  end.

(** The [while] loop that collects four different words.  Every
    iteration takes a value of [Math.random()] or more, so that a fuel
    of the number of values is never what ends it. *)
Fixpoint wordsLoop (fuel : nat) (words : list string) (draws : list Random)
    : option (list string) :=
  if (length words <? 4)%nat
  then
    match fuel with
    | O => None
    | S k =>
        match generateWord draws with
        | None => None
        | Some (word, rest) =>
            wordsLoop k (if bool_decide (word ∈ words) then words else (words ++ [word])%list)
              rest
        end
    end
  else Some words.

(** [generateTopUpCode] on the values that [Math.random()] returns, in
    the order of the calls.  [None]: the values ran out before four
    different words were found. *)
Definition generateTopUpCode (draws : list Random) : option string :=
  match wordsLoop (length draws) [] draws with
  | Some words => Some (JS.join " " words)
  | None => None
  end.

(** The letters of a word alternate from position [i] on: a consonant
    at an even position, a vowel at an odd one. *)
Fixpoint alternates (i : nat) (w : string) : bool :=
  match w with
  | EmptyString => true
  | String c r =>
      Text.hasChar c (if Nat.even i then consonants else vowels) && alternates (S i) r
  end.

(** A word as [generateWord] makes them. *)
Definition wordOk (w : string) : Prop :=
  alternates 0 w = true /\ (4 <= String.length w <= 6)%nat.

(** Twenty values that give the words bace, difo, gugu and huzu. *)
Definition sampleDraws : list Random :=
  [ mkRandom 0 3; mkRandom 0 21; mkRandom 0 5; mkRandom 1 21; mkRandom 1 5;
    mkRandom 0 3; mkRandom 2 21; mkRandom 2 5; mkRandom 3 21; mkRandom 3 5;
    mkRandom 0 3; mkRandom 4 21; mkRandom 4 5; mkRandom 4 21; mkRandom 4 5;
    mkRandom 0 3; mkRandom 5 21; mkRandom 99 100; mkRandom 20 21; mkRandom 4 5 ]%Z.

End Codes.

(** ** What the engine may do to the database *)

Module Invariant.

(** A row of [topups] and what a later state holds for it: the same
    row, or the row confirmed, which it can be only from PENDING, with
    its user, code, dates and armed UIDNEXT kept. *)
Definition rowStep (t t' : TopupRow) : Prop :=
  t' = t
  \/ (status t = PENDING /\ status t' = CONFIRMED
      /\ userId t' = userId t /\ code t' = code t
      /\ expiresAt t' = expiresAt t /\ createdAt t' = createdAt t
      /\ armed_uidnext t' = armed_uidnext t).

(** The later state [db'] of a database [db]: no topup and no user is
    created or deleted, every topup takes a [rowStep], log rows are only
    added at the end, the UIDs of the log rows stay pairwise different
    if they were, and no marker is removed. *)
Definition evolves (db db' : DB) : Prop :=
  (forall id, topups db' !! id = None <-> topups db !! id = None)
  /\ (forall id t t', topups db !! id = Some t -> topups db' !! id = Some t' -> rowStep t t')
  /\ (forall u, users db' !! u = None <-> users db !! u = None)
  /\ (exists rows, payment_logs db' = (payment_logs db ++ rows)%list)
  /\ (NoDup (omap email_uid (payment_logs db)) -> NoDup (omap email_uid (payment_logs db')))
  /\ mail_markers db ⊆ mail_markers db'.

End Invariant.

(** ** Raw emails *)

Module Mail.

(** The header lines of a raw email, each one followed by the line
    end. *)
Fixpoint headerBlock (eol : string) (lines : list string) : string :=
  match lines with
  | [] => ""
  | l :: rest => l ++ eol ++ headerBlock eol rest
  end.

(** A header line: not empty and without a line end inside. *)
Definition headerLine (l : string) : Prop :=
  l <> "" /\ Text.allChars (fun c => negb (JS.isLineTerminator c)) l = true.

End Mail.
(** * Properties *)

(** ** The primitives on examples *)

Example parseFloat_25_9 : JS.parseFloat "25.9" = JS.Dec 259 (-1).
Proof. reflexivity. Qed.
Example floor_25_9 : JS.floor (JS.parseFloat "25.9") = JS.Dec 25 0.
Proof. reflexivity. Qed.
Example parseFloat_e : JS.parseFloat "  -1.5e3xyz" = JS.Dec (-15) 2.
Proof. reflexivity. Qed.
Example parseFloat_abc : JS.parseFloat "abc" = JS.NaN.
Proof. reflexivity. Qed.
Example parseFloat_Infinity : JS.parseFloat "Infinity" = JS.Inf false.
Proof. reflexivity. Qed.
Example parseFloat_1e400 : JS.parseFloat "1e400" = JS.Inf false.
Proof. vm_compute. reflexivity. Qed.
Example parseFloat_largest :
  JS.parseFloat "1.7976931348623158e308" = JS.Dec 17976931348623158 292.
Proof. vm_compute. reflexivity. Qed.
Example parseFloat_past_largest : JS.parseFloat "1.7976931348623159e308" = JS.Inf false.
Proof. vm_compute. reflexivity. Qed.
Example showZ_1005 : JS.showZ 1005 = "1005".
Proof. reflexivity. Qed.
Example trim_ex : JS.trim (JS.collapseWhitespace (JS.toLowerCase "  ALPHA   Bravo ")) = "alpha bravo".
Proof. reflexivity. Qed.
Example toISOString_epoch : JSDate.toISOString 0 = "1970-01-01T00:00:00.000Z".
Proof. reflexivity. Qed.
Example toISOString_2023 : JSDate.toISOString 1700000000123 = "2023-11-14T22:13:20.123Z".
Proof. reflexivity. Qed.
Example toISOString_leap : JSDate.toISOString 1709164800000 = "2024-02-29T00:00:00.000Z".
Proof. reflexivity. Qed.

(** ** The passphrase extractor *)

Section Extractor.

Import Validator.

Lemma orElse_empty (s : string) : JS.orElse s "" = s.
Proof. by destruct s. Qed.

Lemma truthy_nonempty (s : string) : JS.truthy s = true <-> s <> "".
Proof. destruct s; simpl; split; congruence. Qed.

Lemma firstNonEmpty_truthy cs c src :
  firstNonEmpty cs = (Some c, src) -> JS.truthy c = true.
Proof.
  induction cs as [|[text source] cs IH]; simpl; [congruence|].
  destruct (JS.truthy (normalizePhrase text)) eqn:Ht; simpl.
  - destruct (Nat.eqb _ 0); simpl; [exact IH|]. intros [= <- _]. exact Ht.
  - exact IH.
Qed.

(** A candidate is selected when its normalized text is not empty. *)
Lemma firstNonEmpty_cons text source cs :
  firstNonEmpty ((text, source) :: cs) =
    if JS.truthy (normalizePhrase text)
    then (Some (normalizePhrase text), Some source)
    else firstNonEmpty cs.
Proof.
  simpl. destruct (normalizePhrase text) as [|a r]; reflexivity.
Qed.

Lemma extract_truthy d body subj c src :
  extractPassphraseFromSafeZones d body subj = (Some c, src) -> JS.truthy c = true.
Proof.
  unfold extractPassphraseFromSafeZones.
  destruct (extractTopupLine _) as [t|].
  - destruct (JS.truthy t) eqn:Ht.
    + intros [= <- _]. exact Ht.
    + apply firstNonEmpty_truthy.
  - apply firstNonEmpty_truthy.
Qed.

End Extractor.

(** The TOPUP line on examples: found on a line of its own whatever the
    case, normalized; a blank after the colon gives the empty phrase;
    the whitespace after the colon may run over line ends; no match
    when the line starts with something else. *)
Example topupLine_found :
  Validator.extractTopupLine
    ("Hello" ++ Fixture.newline ++ "  topup :   Vine  Oak stone REEF  " ++ Fixture.newline ++ "bye")
  = Some "vine oak stone reef".
Proof. reflexivity. Qed.
Example topupLine_blank : Validator.extractTopupLine "TOPUP:   " = Some "".
Proof. reflexivity. Qed.
Example topupLine_next_line :
  Validator.extractTopupLine ("TOPUP:" ++ Fixture.newline ++ Fixture.newline ++ "Dear customer")
  = Some "dear customer".
Proof. reflexivity. Qed.
Example topupLine_not_at_line_start :
  Validator.extractTopupLine "re: TOPUP: vine oak" = None.
Proof. reflexivity. Qed.

(** C6, as stated, fails.  The extractor supplied the subject alpha and
    the email's own subject header is beta: the claim's priority order
    selects alpha, the code selects beta, because the header comes first
    and the extractor's subject is only its fallback. *)
Lemma C6_counterexample :
  Validator.extractPassphraseFromSafeZones
    (mkParserData None None None None None None (Some "alpha")) "" "beta"
    = (Some "beta", Some "subject")
  /\ Spec.extractPassphrase
    (mkParserData None None None None None None (Some "alpha")) "" "beta"
    = (Some "alpha", Some "subject").
Proof. split; reflexivity. Qed.

(** C6, amended: [extractPassphraseFromSafeZones] returns the first
    candidate that is not empty after normalization, in the order:
    (1) the TOPUP line of the raw email body, (2) [note_part],
    (3) [receipt_memo], (4) the subject header of the email, and the
    subject of the extractor only when that header is the empty string;
    it returns null for the code and its source when every candidate is
    empty. *)
Theorem C6_extract_priority (d : ParserData) (emailBody emailSubject : string) :
  let topup := Validator.extractTopupLine emailBody in
  let note := Validator.normalizePhrase (Validator.withDefault (note_part d)) in
  let memo := Validator.normalizePhrase (Validator.withDefault (receipt_memo d)) in
  let subj := Validator.normalizePhrase
                (if JS.truthy emailSubject then emailSubject
                 else Validator.withDefault (subject d)) in
  let result := Validator.extractPassphraseFromSafeZones d emailBody emailSubject in
  let noTopup := topup = None \/ topup = Some "" in
  (forall t, topup = Some t -> t <> "" -> result = (Some t, Some "topup_line"))
  /\ (noTopup -> note <> "" -> result = (Some note, Some "note_part"))
  /\ (noTopup -> note = "" -> memo <> "" -> result = (Some memo, Some "receipt_memo"))
  /\ (noTopup -> note = "" -> memo = "" -> subj <> "" -> result = (Some subj, Some "subject"))
  /\ (noTopup -> note = "" -> memo = "" -> subj = "" -> result = (None, None)).
Proof.
  cbv zeta. unfold Validator.extractPassphraseFromSafeZones.
  rewrite orElse_empty. unfold JS.orElse.
  rewrite !firstNonEmpty_cons. simpl Validator.firstNonEmpty.
  assert (Hno : forall X : option string * option string,
            Validator.extractTopupLine emailBody = None
            \/ Validator.extractTopupLine emailBody = Some "" ->
            match Validator.extractTopupLine emailBody with
            | Some topupLine =>
                if JS.truthy topupLine then (Some topupLine, Some "topup_line") else X
            | None => X
            end = X).
  { intros X [-> | ->]; reflexivity. }
  repeat split.
  - intros t -> Ht. apply truthy_nonempty in Ht. by rewrite Ht.
  - intros H Hn. rewrite Hno by exact H. apply truthy_nonempty in Hn. by rewrite Hn.
  - intros H Hn Hm. rewrite Hno by exact H. rewrite Hn. simpl.
    apply truthy_nonempty in Hm. by rewrite Hm.
  - intros H Hn Hm Hs. rewrite Hno by exact H. rewrite Hn, Hm. simpl.
    apply truthy_nonempty in Hs. by rewrite Hs.
  - intros H Hn Hm Hs. rewrite Hno by exact H. rewrite Hn, Hm, Hs. reflexivity.
Qed.

(** ** The validator *)

(** C7, as stated, fails: a call that returns [valid = true] hands no
    entry to [logPayment]; the decision is left to the confirmer. *)
Lemma C7_counterexample :
  let r := Validator.validatePayment
             (mkParserData (Some "40") (Some "sent") None None None None None)
             "TOPUP: vine oak stone reef" "s" (Some "1005") in
  Validator.valid r.1 = true /\ r.2 = [] /\ length r.2 <> 1%nat.
Proof. cbv zeta. vm_compute. repeat split; congruence. Qed.

(** C7, amended: a call of [validatePayment] that returns [valid =
    false] emits exactly one PaymentLogEntry for the message, and a call
    that returns [valid = true] emits none.  The first failing rule among
    rules 1 to 4 logs REJECTED with the reason of that rule, and when
    rules 1 to 4 pass and no passphrase is found the entry has the
    decision IGNORED. *)
Theorem C7_validatePayment_logs
    (d : ParserData) (emailBody emailSubject : string) (emailUid : option string) :
  let r := Validator.validatePayment d emailBody emailSubject emailUid in
  let code := (Validator.extractPassphraseFromSafeZones d emailBody emailSubject).1 in
  let logged (dec : LogDecision) (why : string) :=
    Validator.valid r.1 = false /\ Validator.v_reason r.1 = why
    /\ exists e, r.2 = [e] /\ email_uid e = emailUid /\ decision e = dec
                 /\ reason e = Some why in
  (Validator.valid r.1 = true -> r.2 = [])
  /\ (Validator.valid r.1 = false -> length r.2 = 1%nat)
  /\ (Spec.rule1 d = false ->
      logged REJECTED ("Invalid pay_type: " ++ Validator.showField (pay_type d)
                       ++ " (only " ++ JS.quote "sent" ++ " payments accepted)"))
  /\ (Spec.rule1 d = true -> Spec.rule2 d = false ->
      logged REJECTED "Amount missing or empty"
      \/ logged REJECTED ("Invalid amount: " ++ Validator.withDefault (amount d)
                          ++ " (must be > 0)"))
  /\ (Spec.rule1 d = true -> Spec.rule2 d = true -> Spec.rule3 d = false ->
      logged REJECTED ("Invalid request_status: " ++ Validator.withDefault (request_status d)))
  /\ (Spec.rule1 d = true -> Spec.rule2 d = true -> Spec.rule3 d = true ->
      Spec.rule4 d = false ->
      logged REJECTED "Payment marked as expired by parser")
  /\ (Spec.rule1 d = true -> Spec.rule2 d = true -> Spec.rule3 d = true ->
      Spec.rule4 d = true -> code = None ->
      logged IGNORED
        "No passphrase found in safe zones (receipt_memo, note_part, subject, TOPUP line)")
  /\ (Spec.rule1 d = true -> Spec.rule2 d = true -> Spec.rule3 d = true ->
      Spec.rule4 d = true -> code <> None ->
      Validator.valid r.1 = true /\ Validator.codeCandidate r.1 = code).
Proof.
  cbv zeta. unfold Validator.validatePayment, Spec.rule1, Spec.rule2, Spec.rule3, Spec.rule4.
  rewrite !orElse_empty.
  destruct (Validator.extractPassphraseFromSafeZones d emailBody emailSubject)
    as [code src] eqn:Hex.
  simpl fst.
  destruct (bool_decide (pay_type d = Some "sent")) eqn:H1; simpl negb; cbv iota.
  2:{ simpl. repeat split; try congruence; try discriminate. eauto 10. }
  destruct (amount d) as [a|] eqn:Ha.
  2:{ simpl. repeat split; try congruence; try discriminate.
      intros _ _. left. repeat split. eauto 10. }
  destruct (JS.truthy a) eqn:Hta; simpl negb; simpl orb.
  2:{ destruct a; [|discriminate]. simpl.
      repeat split; try congruence; try discriminate.
      intros _ _. left. repeat split. eauto 10. }
  destruct (bool_decide (JS.trim a = "")) eqn:Htr.
  { simpl. repeat split; try congruence; try discriminate.
    intros _ _. left. repeat split. eauto 10. }
  assert (Hpos : JS.isNaN (JS.parseFloat a) || JS.leZero (JS.parseFloat a)
                 = negb (JS.gtZero (JS.parseFloat a))).
  { destruct (JS.parseFloat a) as [|[]|m e]; simpl; try reflexivity.
    destruct (Z.leb_spec m 0), (Z.ltb_spec 0 m); simpl; try reflexivity; lia. }
  rewrite Hpos. simpl negb at 1. simpl andb.
  destruct (JS.gtZero (JS.parseFloat a)) eqn:Hgt; simpl negb; cbv iota.
  2:{ simpl. repeat split; try congruence; try discriminate.
      intros _ _. right. repeat split. eauto 10. }
  set (rs := Validator.withDefault (request_status d)).
  destruct (bool_decide (rs = "")) eqn:Hr1.
  { apply bool_decide_eq_true in Hr1. rewrite Hr1. simpl.
    destruct (bool_decide (is_expired d = Some true)) eqn:H4.
    { simpl. repeat split; try congruence; try discriminate. eauto 10. }
    destruct code as [c|].
    - pose proof (extract_truthy _ _ _ _ _ Hex) as Hc. rewrite Hc. simpl.
      repeat split; try congruence; try discriminate.
    - simpl. repeat split; try congruence; try discriminate. eauto 10. }
  assert (Hrs : JS.truthy rs = true).
  { apply truthy_nonempty. by apply bool_decide_eq_false in Hr1. }
  rewrite Hrs. simpl.
  destruct (bool_decide (rs = "active")) eqn:Hr2; simpl.
  2:{ repeat split; try congruence; try discriminate. eauto 10. }
  destruct (bool_decide (is_expired d = Some true)) eqn:H4.
  { simpl. repeat split; try congruence; try discriminate. eauto 10. }
  destruct code as [c|].
  - pose proof (extract_truthy _ _ _ _ _ Hex) as Hc. rewrite Hc. simpl.
    repeat split; try congruence; try discriminate.
  - simpl. repeat split; try congruence; try discriminate. eauto 10.
Qed.

(** ** The confirmer: the active topups and the phrase match *)

Section ConfirmerFacts.

Import Validator Confirmer.

Lemma logPayment_topups e db : topups (Logger.logPayment e db) = topups db.
Proof.
  unfold Logger.logPayment.
  destruct (email_uid e); [destruct (Logger.uidLogged _ _)|]; reflexivity.
Qed.

Lemma logPayment_users e db : users (Logger.logPayment e db) = users db.
Proof.
  unfold Logger.logPayment.
  destruct (email_uid e); [destruct (Logger.uidLogged _ _)|]; reflexivity.
Qed.

Lemma logAll_topups es db : topups (Logger.logAll es db) = topups db.
Proof.
  revert db. induction es as [|e es IH]; intros db; simpl; [reflexivity|].
  unfold Logger.logAll in IH. rewrite IH. apply logPayment_topups.
Qed.

Lemma logAll_users es db : users (Logger.logAll es db) = users db.
Proof.
  revert db. induction es as [|e es IH]; intros db; simpl; [reflexivity|].
  unfold Logger.logAll in IH. rewrite IH. apply logPayment_users.
Qed.

Lemma getActiveTopups_perm now db :
  getActiveTopups now db
  ≡ₚ filter (fun p : Z * TopupRow => isActive now p.2) (map_to_list (topups db)).
Proof. apply merge_sort_Permutation. Qed.

Lemma elem_of_getActiveTopups now db id t :
  (id, t) ∈ getActiveTopups now db <-> topups db !! id = Some t /\ isActive now t = true.
Proof.
  rewrite getActiveTopups_perm, list_elem_of_filter, elem_of_map_to_list. simpl.
  rewrite Is_true_true. tauto.
Qed.

Lemma NoDup_getActiveTopups now db : NoDup (getActiveTopups now db).
Proof.
  rewrite getActiveTopups_perm. apply NoDup_filter, NoDup_map_to_list.
Qed.

Lemma elem_of_matchesOf now db nc id t :
  (id, t) ∈ matchesOf now db nc
  <-> topups db !! id = Some t /\ isActive now t = true /\ nc = normalizePhrase (code t).
Proof.
  unfold matchesOf. rewrite list_elem_of_filter, elem_of_getActiveTopups. simpl. tauto.
Qed.

Lemma NoDup_matchesOf now db nc : NoDup (matchesOf now db nc).
Proof. apply NoDup_filter, NoDup_getActiveTopups. Qed.

Lemma normalizePhrase_empty : normalizePhrase "" = "".
Proof. reflexivity. Qed.

Lemma usable_guards cand :
  normalizePhrase cand <> "" ->
  JS.truthy cand = true
  /\ negb (JS.truthy (normalizePhrase cand))
     || Nat.eqb (String.length (normalizePhrase cand)) 0 = false.
Proof.
  intros Hn. split.
  - destruct cand; [by rewrite normalizePhrase_empty in Hn | reflexivity].
  - destruct (normalizePhrase cand); [congruence | reflexivity].
Qed.

Lemma unusable_guard cand :
  JS.truthy cand = true -> normalizePhrase cand = "" ->
  negb (JS.truthy (normalizePhrase cand))
  || Nat.eqb (String.length (normalizePhrase cand)) 0 = true.
Proof. intros _ ->. reflexivity. Qed.

(** The matcher after its guards: by the number of matches. *)
Lemma findMatching_usable now db cand :
  normalizePhrase cand <> "" ->
  findMatchingTopupByPhrase now db (Some cand) =
    if Nat.eqb (length (getActiveTopups now db)) 0
    then mkMatch None "No active PENDING topups found in database" None
    else
      match matchesOf now db (normalizePhrase cand) with
      | [] =>
          mkMatch None
            ("No active topup phrase matches candidate " ++ JS.quote (normalizePhrase cand)
             ++ " (checked " ++ showNat (length (getActiveTopups now db)) ++ " active topup(s))")
            None
      | [m] =>
          mkMatch (Some m) ("Exact phrase match found: " ++ JS.quote (code m.2)) (Some (code m.2))
      | ms =>
          mkMatch None
            ("Multiple active topup phrases match candidate: "
             ++ JS.join ", " (map (fun m : Z * TopupRow => JS.quote (code m.2)) ms)
             ++ " (" ++ showNat (length ms) ++ " matches)")
            None
      end.
Proof.
  intros Hn. destruct (usable_guards cand Hn) as [Ht Hg].
  unfold findMatchingTopupByPhrase. rewrite Ht. simpl negb. cbv iota.
  rewrite Hg. cbv zeta. unfold matchesOf. clear Hg.
  destruct (Nat.eqb (length (getActiveTopups now db)) 0); [reflexivity|].
  destruct (filter _ _) as [|m [|m' ms]]; reflexivity.
Qed.

Lemma findMatching_Some now db c id t :
  m_topup (findMatchingTopupByPhrase now db c) = Some (id, t) ->
  exists cand,
    c = Some cand /\ normalizePhrase cand <> ""
    /\ matchesOf now db (normalizePhrase cand) = [(id, t)]
    /\ matchedPhrase (findMatchingTopupByPhrase now db c) = Some (code t).
Proof.
  destruct c as [cand|]; [|discriminate].
  destruct (decide (normalizePhrase cand = "")) as [He|Hn].
  - unfold findMatchingTopupByPhrase.
    destruct (JS.truthy cand) eqn:Ht; [|discriminate]. simpl negb. cbv iota.
    rewrite (unusable_guard cand Ht He). discriminate.
  - rewrite (findMatching_usable now db cand Hn).
    destruct (Nat.eqb _ 0); [discriminate|].
    destruct (matchesOf now db (normalizePhrase cand)) as [|m [|m' ms]] eqn:Hm;
      try discriminate.
    simpl. intros [= ->]. exists cand. simpl. auto.
Qed.

(** Every topup the matcher returns is a row of the table that is
    PENDING and not expired at the time of the query. *)
Lemma findMatching_active now db c id t :
  m_topup (findMatchingTopupByPhrase now db c) = Some (id, t) ->
  topups db !! id = Some t /\ isActive now t = true.
Proof.
  intros H. apply findMatching_Some in H as (cand & _ & _ & Hm & _).
  assert (Hin : (id, t) ∈ matchesOf now db (normalizePhrase cand)) by (rewrite Hm; left).
  apply elem_of_matchesOf in Hin. tauto.
Qed.

Lemma isActive_pending now t : isActive now t = true -> status t = PENDING.
Proof.
  unfold isActive. intros H. apply andb_true_iff in H as [H _].
  by apply bool_decide_eq_true in H.
Qed.

End ConfirmerFacts.

(** ** The confirmer: the checks before the transaction *)

Section ConfirmerChecks.

Import Validator Confirmer.

(** What holds when the call reaches the transaction. *)
Lemma confirmChecks_inr p clk db m :
  confirmChecks p clk db = inr m ->
  acceptedLogged (p_email_uid p) db = false
  /\ mt_coins m = coinsOf (amountString p)
  /\ JS.isNaN (mt_coins m) = false /\ JS.leZero (mt_coins m) = false
  /\ m_topup (findMatchingTopupByPhrase (t_list clk) db (p_codeCandidate p))
     = Some (mt_id m, mt_row m)
  /\ mt_phrase m = Some (code (mt_row m))
  /\ (expiresAt (mt_row m) <? t_check clk)%Z = false
  /\ (forall d, emailDate p = Some d ->
        (expiresAt (mt_row m) + 5 * 60 * 1000 <? d)%Z = false).
Proof.
  unfold confirmChecks.
  destruct (acceptedLogged _ _) eqn:Hacc; [discriminate|].
  destruct (JS.isNaN _ || JS.leZero _) eqn:Hamt; [discriminate|].
  apply orb_false_iff in Hamt as [Hnan Hle].
  destruct (m_topup _) as [[id t]|] eqn:Hm; [|discriminate].
  destruct (negb (bool_decide (status t = PENDING))); [discriminate|].
  destruct (expiresAt t <? t_check clk)%Z eqn:Hexp; [discriminate|].
  pose proof (findMatching_Some _ _ _ _ _ Hm) as (cand & _ & _ & _ & Hph).
  destruct (emailDate p) as [d|] eqn:Hd.
  - destruct (expiresAt t + 5 * 60 * 1000 <? d)%Z eqn:Hfut; [discriminate|].
    intros [= <-]. simpl. repeat split; try assumption; try reflexivity.
    intros d' [= <-]. exact Hfut.
  - intros [= <-]. simpl. repeat split; try assumption; try reflexivity.
    intros d' [=].
Qed.

(** What holds when the call ends before the transaction. *)
Lemma confirmChecks_inl p clk db r logs :
  confirmChecks p clk db = inl (r, logs) ->
  success r = false
  /\ (logs = []
      \/ exists e, logs = [e] /\ (decision e = REJECTED \/ decision e = IGNORED)
                   /\ email_uid e = Some (p_email_uid p)
                   /\ reason e = Some (withSource p (c_reason r))).
Proof.
  unfold confirmChecks.
  destruct (acceptedLogged _ _); [intros [= <- <-]; auto|].
  destruct (JS.isNaN _ || JS.leZero _).
  { intros [= <- <-]. split; [reflexivity|]. right. eexists. repeat split. by left. }
  destruct (m_topup _) as [[id t]|].
  2:{ intros [= <- <-]. split; [reflexivity|]. right. eexists. repeat split.
      simpl. destruct (JS.includes _ _); auto. }
  destruct (negb (bool_decide (status t = PENDING))).
  { intros [= <- <-]. split; [reflexivity|]. right. eexists. repeat split. by left. }
  destruct (expiresAt t <? t_check clk)%Z.
  { intros [= <- <-]. split; [reflexivity|]. right. eexists. repeat split. by left. }
  destruct (emailDate p) as [d|]; [|discriminate].
  destruct (expiresAt t + 5 * 60 * 1000 <? d)%Z; [|discriminate].
  intros [= <- <-]. split; [reflexivity|]. right. eexists. repeat split. by left.
Qed.

(** A call that ends before the transaction writes nothing but its log
    entry. *)
Lemma confirm_early p clk db r logs :
  confirmChecks p clk db = inl (r, logs) ->
  confirmTopupFromEmail p clk db = (r, logs, Logger.logAll logs db).
Proof. unfold confirmTopupFromEmail. intros ->. reflexivity. Qed.

End ConfirmerChecks.

(** C10: the branch of [confirmTopupFromEmail] that rejects a matched
    topup whose status is not PENDING is unreachable.  Every topup that
    [findMatchingTopupByPhrase] returns comes from [getActiveTopups],
    whose query selects rows with status PENDING only, so the status of
    the matched topup is PENDING at that check, and neither the result
    nor a log entry of a call ever carries the reason of that branch. *)
Theorem C10_status_rejection_unreachable
    (p : Confirmer.Params) (clk : Confirmer.Clock) (db : DB) :
  (forall id topup,
     Confirmer.m_topup
       (Confirmer.findMatchingTopupByPhrase (Confirmer.t_list clk) db (Confirmer.p_codeCandidate p))
     = Some (id, topup) ->
     (id, topup) ∈ Confirmer.getActiveTopups (Confirmer.t_list clk) db
     /\ status topup = PENDING)
  /\ (forall st : TopupStatus,
        let why := "TopUp status is " ++ statusName st ++ ", expected PENDING" in
        Confirmer.c_reason (Confirmer.confirmTopupFromEmail p clk db).1.1 <> why
        /\ forall e, e ∈ (Confirmer.confirmTopupFromEmail p clk db).1.2 ->
                     reason e <> Some (Confirmer.withSource p why)).
Proof.
  assert (Hpend : forall id topup,
     Confirmer.m_topup
       (Confirmer.findMatchingTopupByPhrase (Confirmer.t_list clk) db (Confirmer.p_codeCandidate p))
     = Some (id, topup) ->
     (id, topup) ∈ Confirmer.getActiveTopups (Confirmer.t_list clk) db
     /\ status topup = PENDING).
  { intros id t H. apply findMatching_active in H as [Hl Ha]. split.
    - apply elem_of_getActiveTopups. auto.
    - eapply isActive_pending, Ha. }
  split; [exact Hpend|].
  intros st. cbv zeta.
  unfold Confirmer.confirmTopupFromEmail, Confirmer.confirmChecks.
  destruct (Confirmer.acceptedLogged _ _).
  { simpl. split; [discriminate|]. intros e He. inversion He. }
  destruct (JS.isNaN _ || JS.leZero _).
  { simpl. split; [discriminate|]. intros e He.
    apply list_elem_of_singleton in He as ->. simpl. discriminate. }
  destruct (Confirmer.m_topup _) as [[id t]|] eqn:Hm.
  2:{ simpl. assert (Hr : forall tl, Confirmer.m_reason
         (Confirmer.findMatchingTopupByPhrase (Confirmer.t_list clk) db (Confirmer.p_codeCandidate p))
         <> String "T" tl).
      { intros tl. unfold Confirmer.findMatchingTopupByPhrase.
        destruct (Confirmer.p_codeCandidate p) as [cand|]; [|discriminate].
        destruct (negb (JS.truthy cand)); [discriminate|].
        destruct (_ || _); [discriminate|].
        destruct (Nat.eqb _ 0); [discriminate|].
        cbv zeta.
        match goal with |- context [match ?l with _ => _ end] => destruct l as [|m [|m' ms]] end;
          discriminate. }
      split; [apply Hr|]. intros e He. apply list_elem_of_singleton in He as ->. simpl.
      unfold Confirmer.withSource. simpl.
      destruct (Confirmer.m_reason _) as [|c tl] eqn:Hmr; [discriminate|].
      simpl. intros [= -> _]. by apply (Hr tl). }
  destruct (Hpend _ _ eq_refl) as [_ Hst]. rewrite Hst. simpl negb. cbv iota.
  destruct (expiresAt t <? Confirmer.t_check clk)%Z.
  { simpl. split; [discriminate|]. intros e He.
    apply list_elem_of_singleton in He as ->. simpl. discriminate. }
  assert (Hfin : forall m : Confirmer.Matched,
    let out :=
      match Confirmer.transaction (Confirmer.creditBody clk m) db with
      | (None, db') =>
          let e := Confirmer.logOf p (Confirmer.mt_phrase m) (Some (Confirmer.mt_id m)) ACCEPTED
            ("Payment confirmed: " ++ Confirmer.showNumber (Confirmer.mt_coins m)
             ++ " coins credited to user " ++ JS.showZ (userId (Confirmer.mt_row m))
             ++ " (source: " ++ Confirmer.sourceOf p ++ ", coins from email)") None in
          (Confirmer.mkConfirmation true
             ("Payment confirmed: " ++ Confirmer.showNumber (Confirmer.mt_coins m)
              ++ " coins credited")
             (Some (Confirmer.mt_id m)) (Some (userId (Confirmer.mt_row m)))
             (Some (Confirmer.mt_coins m)) (Confirmer.mt_phrase m),
           [e], Logger.logPayment e db')
      | (Some msg, db') =>
          let reason := "Database transaction failed: " ++ msg in
          let e := Confirmer.logOf p (Confirmer.mt_phrase m) (Some (Confirmer.mt_id m)) ERROR
                     (Confirmer.withSource p reason) (Some msg) in
          (Confirmer.failure reason, [e], Logger.logPayment e db')
      end in
    Confirmer.c_reason out.1.1 <> "TopUp status is " ++ statusName st ++ ", expected PENDING"
    /\ forall e, e ∈ out.1.2 ->
         reason e <> Some (Confirmer.withSource p
                      ("TopUp status is " ++ statusName st ++ ", expected PENDING"))).
  { intros m. cbv zeta.
    destruct (Confirmer.transaction _ _) as [[msg|] db']; simpl;
      (split; [discriminate|]); intros e He;
      apply list_elem_of_singleton in He as ->; simpl; discriminate. }
  destruct (Confirmer.emailDate p) as [d|].
  - destruct (expiresAt t + 5 * 60 * 1000 <? d)%Z.
    + simpl. split; [discriminate|]. intros e He.
      apply list_elem_of_singleton in He as ->. simpl. discriminate.
    + apply Hfin.
  - apply Hfin.
Qed.

(** ** The confirmer: the transaction *)

Section Transaction.

Import Validator Confirmer.

(** The body of the transaction, by cases, for a matched topup that is
    a row of the table. *)
Lemma creditBody_cases clk m db :
  topups db !! mt_id m = Some (mt_row m) ->
  match creditBody clk m db with
  | inr db' =>
      isActive (t_reread clk) (mt_row m) = true
      /\ isActive (t_update clk) (mt_row m) = true
      /\ exists balance,
           users db !! userId (mt_row m) = Some balance
           /\ db' = setUsers
                      (setTopups db (<[mt_id m := confirmedRow (mt_row m) (mt_coins m)]> (topups db)))
                      (<[userId (mt_row m) := sqlAdd balance (mt_coins m)]> (users db))
  | inl _ =>
      isActive (t_reread clk) (mt_row m) = false
      \/ isActive (t_update clk) (mt_row m) = false
      \/ users db !! userId (mt_row m) = None
  end.
Proof.
  intros Hrow. unfold creditBody, updateConfirmed, updateBalance, selectPending.
  rewrite Hrow.
  destruct (isActive (t_reread clk) (mt_row m)) eqn:H1; [|auto].
  destruct (isActive (t_update clk) (mt_row m)) eqn:H2.
  - simpl. destruct (users db !! userId (mt_row m)) as [balance|] eqn:Hu; simpl.
    + repeat split. exists balance. auto.
    + auto.
  - simpl. rewrite Hrow. destruct (bool_decide _); auto.
Qed.

(** The transaction on any state of the database, such as one that
    another process left between the checks and the transaction: when
    the topup is no longer PENDING and unexpired at the re-read, the
    transaction throws and the database is as it was.  A topup that a
    concurrent actor confirmed is not credited a second time. *)
Lemma transaction_race_guard clk m db :
  selectPending (t_reread clk) (mt_id m) db = None ->
  transaction (creditBody clk m) db
  = (Some "TopUp not found, expired, or already processed", db).
Proof. intros H. unfold transaction, creditBody. rewrite H. reflexivity. Qed.

(** Whatever the transaction meets, it either leaves the database as it
    was or confirms the row and credits its owner, both or neither. *)
Lemma transaction_atomic clk m db :
  match transaction (creditBody clk m) db with
  | (Some _, db') => db' = db
  | (None, db') =>
      exists row balance,
        topups db !! mt_id m = Some row
        /\ users db !! userId (mt_row m) = Some balance
        /\ db' = setUsers
                   (setTopups db (<[mt_id m := confirmedRow row (mt_coins m)]> (topups db)))
                   (<[userId (mt_row m) := sqlAdd balance (mt_coins m)]> (users db))
  end.
Proof.
  unfold transaction, creditBody, updateConfirmed, updateBalance, selectPending.
  destruct (topups db !! mt_id m) as [row|] eqn:Hrow; [|reflexivity].
  destruct (isActive (t_reread clk) row); [|reflexivity].
  destruct (isActive (t_update clk) row).
  - simpl. destruct (users db !! userId (mt_row m)) as [balance|] eqn:Hu; simpl.
    + exists row, balance. auto.
    + reflexivity.
  - simpl. rewrite Hrow. destruct (bool_decide _); reflexivity.
Qed.

Lemma confirm_reaches p clk db m :
  confirmChecks p clk db = inr m ->
  confirmTopupFromEmail p clk db =
    match transaction (creditBody clk m) db with
    | (None, db') =>
        let e := logOf p (mt_phrase m) (Some (mt_id m)) ACCEPTED
          ("Payment confirmed: " ++ showNumber (mt_coins m) ++ " coins credited to user "
           ++ JS.showZ (userId (mt_row m)) ++ " (source: " ++ sourceOf p
           ++ ", coins from email)") None in
        (mkConfirmation true
           ("Payment confirmed: " ++ showNumber (mt_coins m) ++ " coins credited")
           (Some (mt_id m)) (Some (userId (mt_row m))) (Some (mt_coins m)) (mt_phrase m),
         [e], Logger.logPayment e db')
    | (Some msg, db') =>
        let reason := "Database transaction failed: " ++ msg in
        let e := logOf p (mt_phrase m) (Some (mt_id m)) ERROR (withSource p reason) (Some msg) in
        (failure reason, [e], Logger.logPayment e db')
    end.
Proof. unfold confirmTopupFromEmail. intros ->. reflexivity. Qed.

Lemma floor_integer x m e : JS.floor x = JS.Dec m e -> e = 0%Z.
Proof.
  destruct x as [| |m' e']; simpl; try discriminate.
  destruct (0 <=? e')%Z; intros [= _ <-]; reflexivity.
Qed.





End Transaction.



(** The commit, on the specification's scenario: 40 coins. *)
Example confirm_reef_40 :
  let out := Confirmer.confirmTopupFromEmail (Fixture.payReef "40") (Fixture.at_ 1500000)
               Fixture.dbReef in
  Confirmer.success out.1.1 = true
  /\ topups out.2 !! 1%Z = Some (Confirmer.confirmedRow Fixture.reef (JS.Dec 40 0))
  /\ users out.2 !! 7%Z = Some (JS.Dec 40 0).
Proof. vm_compute. auto. Qed.

(** ** The confirmer: the credited amount *)

Section Amount.

Import Validator Confirmer.

(** An amount the specification calls missing, not numeric or not
    positive fails the guard of the confirmer. *)
Lemma amountRejected_guard a :
  Spec.amountRejected a ->
  JS.isNaN (coinsOf a) || JS.leZero (coinsOf a) = true.
Proof.
  unfold Spec.amountRejected, coinsOf.
  destruct a as [a|]; [|reflexivity]. simpl withDefault.
  destruct a as [|c r]; [reflexivity|].
  unfold JS.orElse. simpl JS.truthy. cbv iota.
  intros [H|[H|H]]; [discriminate| |].
  - rewrite H. reflexivity.
  - rewrite H. apply orb_true_r.
Qed.

(** A successful call went through the transaction, which committed. *)
Lemma confirm_success p clk db :
  success (confirmTopupFromEmail p clk db).1.1 = true ->
  exists m db',
    confirmChecks p clk db = inr m /\ creditBody clk m db = inr db'.
Proof.
  unfold confirmTopupFromEmail.
  destruct (confirmChecks p clk db) as [[r logs]|m] eqn:Hc.
  - apply confirmChecks_inl in Hc as [Hs _]. simpl. congruence.
  - unfold transaction. destruct (creditBody clk m db) as [msg|db'] eqn:Hb.
    + simpl. discriminate.
    + intros _. eauto.
Qed.

End Amount.

(** C4 fails on the code.  The confirmer floors the number read from
    the amount string and refuses it when it is not a number or is not
    above zero, but the floor of Infinity is Infinity, which is neither:
    a payment whose amount reads Infinity, or 1e400, which is beyond the
    range of the numbers and is read as Infinity, passes the validator
    and the guard of the confirmer, and the call succeeds.  The amount
    returned, the [amount_coins] stored in the topup and the balance of
    user 7 are Infinity, not an integer.  The scan pass over such a
    message does the same. *)
Theorem C4_infinite_amount_credited :
  let credited (amount : string) :=
    let out := Confirmer.confirmTopupFromEmail (Fixture.payReef amount) (Fixture.at_ 1500000)
                 Fixture.dbReef in
    Validator.valid
      (Validator.validatePayment (Fixture.sent amount)
         ("TOPUP: vine oak stone reef") "Payment" (Some "1005")).1 = true
    /\ Confirmer.coinsOf (Some amount) = JS.Inf false
    /\ Confirmer.success out.1.1 = true
    /\ Confirmer.coins out.1.1 = Some (JS.Inf false)
    /\ Confirmer.c_reason out.1.1 = "Payment confirmed: Infinity coins credited"
    /\ (status <$> topups out.2 !! 1%Z) = Some CONFIRMED
    /\ (amount_coins <$> topups out.2 !! 1%Z) = Some (Some (JS.Inf false))
    /\ users out.2 !! 7%Z = Some (JS.Inf false) in
  credited "Infinity"
  /\ credited "1e400"
  /\ (let pass := Poller.processEmails
                    (Fixture.passOver [Fixture.paying 1005 "vine oak stone reef" "Infinity" true])
                    (Fixture.worldOf Fixture.dbReef) in
      Poller.confirmCalls pass.2 = [1005%Z]
      /\ users (Poller.w_db pass.2) !! 7%Z = Some (JS.Inf false)).
Proof. vm_compute. auto 20. Qed.

(** The specification's example: 25.9 credits 25 coins. *)
Example confirm_reef_25_9 :
  let out := Confirmer.confirmTopupFromEmail (Fixture.payReef "25.9") (Fixture.at_ 1500000)
               Fixture.dbReef in
  Confirmer.success out.1.1 = true
  /\ Confirmer.coins out.1.1 = Some (JS.Dec 25 0)
  /\ amount_coins <$> (topups out.2 !! 1%Z) = Some (Some (JS.Dec 25 0))
  /\ users out.2 !! 7%Z = Some (JS.Dec 25 0).
Proof. vm_compute. auto. Qed.

(** ** The confirmer: ambiguous matches *)

Section Ambiguous.

Import Validator Confirmer.

Lemma matchesOf_colliding now db cand :
  matchesOf now db (normalizePhrase cand) ≡ₚ Spec.colliding now db cand.
Proof.
  apply NoDup_Permutation.
  - apply NoDup_matchesOf.
  - apply NoDup_filter, NoDup_map_to_list.
  - intros [id t]. rewrite elem_of_matchesOf. unfold Spec.colliding.
    rewrite list_elem_of_filter, elem_of_map_to_list. simpl. intuition congruence.
Qed.










End Ambiguous.



(** ** The confirmer: replays *)

Section Replay.

Import Validator Confirmer.

Lemma datetime_mono t1 t2 : (t1 <= t2)%Z -> (JSDate.datetime t1 <= JSDate.datetime t2)%Z.
Proof. intros H. unfold JSDate.datetime. apply Z.div_le_mono; lia. Qed.

(** A topup that is active at some time was active before. *)
Lemma isActive_earlier t1 t2 row :
  (t1 <= t2)%Z -> isActive t2 row = true -> isActive t1 row = true.
Proof.
  unfold isActive. intros Hle H. apply andb_true_iff in H as [Hs Hd].
  rewrite Hs. simpl. apply Z.ltb_lt in Hd. apply Z.ltb_lt.
  pose proof (datetime_mono _ _ Hle). lia.
Qed.

(** A PENDING topup found expired stays expired. *)
Lemma isActive_expired t1 t2 row :
  (t1 <= t2)%Z -> status row = PENDING -> isActive t1 row = false -> isActive t2 row = false.
Proof.
  intros Hle Hs H. destruct (isActive t2 row) eqn:H2; [|reflexivity].
  rewrite (isActive_earlier _ _ _ Hle H2) in H. discriminate.
Qed.

(** A topup whose expiry the clock has passed is not active later. *)
Lemma isActive_after_expiry t1 t2 row :
  (t1 <= t2)%Z -> (expiresAt row <? t1)%Z = true -> isActive t2 row = false.
Proof.
  intros Hle H. apply Z.ltb_lt in H. unfold isActive.
  apply andb_false_iff. right. apply Z.ltb_ge.
  apply datetime_mono. lia.
Qed.

(** A failed call changes no topup and no balance. *)
Lemma confirm_failure_unchanged p clk db :
  success (confirmTopupFromEmail p clk db).1.1 = false ->
  topups (confirmTopupFromEmail p clk db).2 = topups db
  /\ users (confirmTopupFromEmail p clk db).2 = users db.
Proof.
  unfold confirmTopupFromEmail.
  destruct (confirmChecks p clk db) as [[r logs]|m] eqn:Hc.
  - simpl. intros _. by rewrite logAll_topups, logAll_users.
  - unfold transaction. destruct (creditBody clk m db) as [msg|db'].
    + simpl. intros _. by rewrite logPayment_topups, logPayment_users.
    + simpl. discriminate.
Qed.

(** What a successful call found. *)
Lemma confirm_success_facts p clk db :
  success (confirmTopupFromEmail p clk db).1.1 = true ->
  exists cand id row,
    acceptedLogged (p_email_uid p) db = false
    /\ JS.isNaN (coinsOf (amountString p)) || JS.leZero (coinsOf (amountString p)) = false
    /\ p_codeCandidate p = Some cand
    /\ normalizePhrase cand <> ""
    /\ matchesOf (t_list clk) db (normalizePhrase cand) = [(id, row)]
    /\ (expiresAt row <? t_check clk)%Z = false
    /\ (forall d, emailDate p = Some d -> (expiresAt row + 5 * 60 * 1000 <? d)%Z = false)
    /\ isActive (t_reread clk) row = true
    /\ isActive (t_update clk) row = true
    /\ is_Some (users db !! userId row)
    /\ topups (confirmTopupFromEmail p clk db).2
       = <[id := confirmedRow row (coinsOf (amountString p))]> (topups db).
Proof.
  intros Hs. pose proof Hs as Hs'.
  apply confirm_success in Hs as (m & db' & Hc & Hb).
  pose proof (confirmChecks_inr _ _ _ _ Hc) as (Hacc & Hamt & Hnan & Hle & Hm & _ & Hexp & Hfut).
  pose proof (findMatching_Some _ _ _ _ _ Hm) as (cand & Hcand & Hn & Hone & _).
  pose proof (findMatching_active _ _ _ _ _ Hm) as [Hrow _].
  pose proof (creditBody_cases clk m db Hrow) as Hcase. rewrite Hb in Hcase.
  destruct Hcase as (Hr & Hu & balance & Hbal & ->).
  exists cand, (mt_id m), (mt_row m).
  rewrite <- Hamt, Hnan, Hle. repeat split; try assumption.
  - by exists balance.
  - rewrite (confirm_reaches _ _ _ _ Hc). unfold transaction. rewrite Hb.
    simpl. by rewrite logPayment_topups.
Qed.

End Replay.

Section ReplayFails.

Import Validator Confirmer.

(** The second of two identical calls fails, when the first one
    succeeded or when its candidate did not collide with more than one
    active topup. *)
Lemma replay_fails p clk1 clk2 db :
  Spec.later clk1 clk2 ->
  (success (confirmTopupFromEmail p clk1 db).1.1 = true
   \/ forall cand, p_codeCandidate p = Some cand ->
        (length (Spec.colliding (t_list clk1) db cand) <= 1)%nat) ->
  success (confirmTopupFromEmail p clk2 (confirmTopupFromEmail p clk1 db).2).1.1 = false.
Proof.
  intros (Hl1 & Hl2 & Hl3 & Hl4) Hfirst.
  destruct (success (confirmTopupFromEmail p clk2 (confirmTopupFromEmail p clk1 db).2).1.1)
    eqn:Hs2; [exfalso|reflexivity].
  apply confirm_success_facts in Hs2
    as (cand & id2 & row2 & Hacc2 & Hamt & Hcand & Hn & Hone2 & Hexp2 & Hfut2
        & Hre2 & Hup2 & Hu2 & _).
  assert (Hin2 : (id2, row2) ∈ matchesOf (t_list clk2) (confirmTopupFromEmail p clk1 db).2
                                (normalizePhrase cand)) by (rewrite Hone2; left).
  apply elem_of_matchesOf in Hin2 as (Hrow2 & Hact2 & Hnc2).
  destruct (success (confirmTopupFromEmail p clk1 db).1.1) eqn:Hs1.
  - (* the first call credited the topup *)
    apply confirm_success_facts in Hs1
      as (cand1 & id1 & row1 & _ & _ & Hcand1 & _ & Hone1 & _ & _ & _ & _ & _ & Htop1).
    rewrite Hcand in Hcand1. injection Hcand1 as <-.
    rewrite Htop1 in Hrow2.
    destruct (decide (id1 = id2)) as [->|Hne].
    + rewrite lookup_insert_eq in Hrow2. injection Hrow2 as <-.
      apply isActive_pending in Hact2. discriminate.
    + rewrite lookup_insert_ne in Hrow2 by done.
      assert (Hin1 : (id2, row2) ∈ matchesOf (t_list clk1) db (normalizePhrase cand)).
      { apply elem_of_matchesOf. repeat split; try assumption.
        eapply isActive_earlier; eassumption. }
      rewrite Hone1 in Hin1. apply list_elem_of_singleton in Hin1. congruence.
  - (* the first call failed: the tables are as they were *)
    destruct (confirm_failure_unchanged _ _ _ Hs1) as [Ht Hu].
    rewrite Ht in Hrow2. rewrite Hu in Hu2.
    assert (Hin1 : (id2, row2) ∈ matchesOf (t_list clk1) db (normalizePhrase cand)).
    { apply elem_of_matchesOf. repeat split; try assumption.
      eapply isActive_earlier; eassumption. }
    destruct Hfirst as [Hf|Hinv]; [congruence|]. specialize (Hinv cand Hcand).
    rewrite <- matchesOf_colliding in Hinv.
    destruct (confirmChecks p clk1 db) as [[r1 logs1]|m1] eqn:Hc1.
    + rewrite (confirm_early _ _ _ _ _ Hc1) in Hacc2. simpl in Hacc2.
      unfold confirmChecks in Hc1.
      destruct (acceptedLogged (p_email_uid p) db) eqn:Hacc1.
      { injection Hc1 as <- <-. simpl in Hacc2. congruence. }
      rewrite Hamt, Hcand, (findMatching_usable _ _ _ Hn) in Hc1.
      destruct (Nat.eqb (length (getActiveTopups (t_list clk1) db)) 0) eqn:Hlen.
      { apply Nat.eqb_eq, nil_length_inv in Hlen. unfold matchesOf in Hin1.
        rewrite Hlen in Hin1. inversion Hin1. }
      destruct (matchesOf (t_list clk1) db (normalizePhrase cand)) as [|x [|y ms]] eqn:Hms.
      * inversion Hin1.
      * apply list_elem_of_singleton in Hin1 as <-.
        cbn [m_topup m_reason matchedPhrase] in Hc1.
        rewrite (isActive_pending _ _ Hact2) in Hc1. simpl negb in Hc1. cbv iota in Hc1.
        destruct (expiresAt row2 <? t_check clk1)%Z eqn:Hexp1.
        { rewrite (isActive_after_expiry _ _ _ Hl2 Hexp1) in Hact2. discriminate. }
        destruct (emailDate p) as [d|] eqn:Hd; [|discriminate].
        rewrite (Hfut2 d eq_refl) in Hc1. discriminate.
      * simpl in Hinv. lia.
    + pose proof (confirmChecks_inr _ _ _ _ Hc1) as (_ & _ & _ & _ & Hm1 & _).
      pose proof (findMatching_Some _ _ _ _ _ Hm1) as (cand1 & Hcand1 & _ & Hone1 & _).
      rewrite Hcand in Hcand1. injection Hcand1 as <-.
      rewrite Hone1 in Hin1. apply list_elem_of_singleton in Hin1.
      injection Hin1 as Hid Hrow.
      pose proof (findMatching_active _ _ _ _ _ Hm1) as [Hr1 Hact1].
      pose proof (creditBody_cases clk1 m1 db Hr1) as Hcase.
      rewrite (confirm_reaches _ _ _ _ Hc1) in Hs1. unfold transaction in Hs1.
      destruct (creditBody clk1 m1 db) as [msg|db'] eqn:Hb; [|simpl in Hs1; discriminate].
      rewrite <- Hrow in Hcase.
      destruct Hcase as [H|[H|H]].
      * rewrite (isActive_expired _ _ _ Hl3 (isActive_pending _ _ Hact2) H) in Hact2.
        discriminate.
      * rewrite (isActive_expired _ _ _ Hl4 (isActive_pending _ _ Hact2) H) in Hact2.
        discriminate.
      * rewrite H in Hu2. by destruct Hu2.
Qed.

(** A call that finds an ACCEPTED row for its [email_uid] returns at
    once: its result does not depend on the other tables and the
    database is left as it is. *)
Lemma confirm_gate p clk db :
  acceptedLogged (p_email_uid p) db = true ->
  confirmTopupFromEmail p clk db
  = (failure ("Email UID " ++ p_email_uid p ++ " already processed (idempotency check)"),
     [], db).
Proof.
  intros H. unfold confirmTopupFromEmail, confirmChecks. rewrite H. reflexivity.
Qed.

End ReplayFails.

(** C2, as stated, fails.  Two PENDING requests collide on the phrase
    alpha bravo; the first expires at 2 000 000 ms, the second at
    3 000 000 ms.  The first call, at 1 500 000 ms, is rejected as
    ambiguous.  The second call, with the same arguments at 2 500 000 ms,
    finds one active match, returns [success = true] and credits 40 coins
    to user 8. *)
Lemma C2_counterexample :
  let out1 := Confirmer.confirmTopupFromEmail Fixture.payAlpha (Fixture.at_ 1500000)
                Fixture.dbTwins in
  let out2 := Confirmer.confirmTopupFromEmail Fixture.payAlpha (Fixture.at_ 2500000) out1.2 in
  Spec.later (Fixture.at_ 1500000) (Fixture.at_ 2500000)
  /\ Confirmer.success out1.1.1 = false
  /\ decision <$> out1.1.2 = [REJECTED]
  /\ Confirmer.success out2.1.1 = true
  /\ users out1.2 !! 8%Z = Some (JS.Dec 0 0)
  /\ users out2.2 !! 8%Z = Some (JS.Dec 40 0).
Proof.
  cbv zeta. split; [unfold Spec.later; simpl; lia|].
  vm_compute. auto 6.
Qed.

(** C2, amended: calling [confirmTopupFromEmail] twice with the same
    [email_uid] and otherwise identical arguments credits the balance at
    most once.  Whenever a row of [payment_logs] has this [email_uid]
    and the decision ACCEPTED, the call returns [success = false] with
    the reason already processed, without reading or writing the topups
    or the users.  The second of two identical calls returns
    [success = false] whenever the first call succeeded, and whenever
    the candidate of the first call did not collide with more than one
    active topup. *)
Theorem C2_replay_credits_once
    (p : Confirmer.Params) (clk1 clk2 : Confirmer.Clock) (db : DB)
    (Hlater : Spec.later clk1 clk2) :
  let out1 := Confirmer.confirmTopupFromEmail p clk1 db in
  let out2 := Confirmer.confirmTopupFromEmail p clk2 out1.2 in
  (forall clk d row,
     row ∈ payment_logs d ->
     email_uid row = Some (Confirmer.p_email_uid p) -> decision row = ACCEPTED ->
     Confirmer.confirmTopupFromEmail p clk d
     = (Confirmer.failure
          ("Email UID " ++ Confirmer.p_email_uid p ++ " already processed (idempotency check)"),
        [], d))
  /\ (Confirmer.success out1.1.1 = false ->
      topups out1.2 = topups db /\ users out1.2 = users db)
  /\ (Confirmer.success out1.1.1 = true ->
      Confirmer.success out2.1.1 = false
      /\ topups out2.2 = topups out1.2 /\ users out2.2 = users out1.2)
  /\ ((forall cand, Confirmer.p_codeCandidate p = Some cand ->
         (length (Spec.colliding (Confirmer.t_list clk1) db cand) <= 1)%nat) ->
      Confirmer.success out2.1.1 = false).
Proof.
  cbv zeta. split; [|split; [|split]].
  - intros clk d row Hin Hu Hd. apply confirm_gate.
    unfold Confirmer.acceptedLogged. apply existsb_exists. exists row.
    split; [by apply list_elem_of_In|].
    by rewrite (bool_decide_eq_true_2 _ Hu), (bool_decide_eq_true_2 _ Hd).
  - apply confirm_failure_unchanged.
  - intros Hs. assert (H2 : Confirmer.success
        (Confirmer.confirmTopupFromEmail p clk2
           (Confirmer.confirmTopupFromEmail p clk1 db).2).1.1 = false)
      by (apply replay_fails; auto).
    split; [exact H2|]. by apply confirm_failure_unchanged.
  - intros Hinv. apply replay_fails; auto.
Qed.

(** C2 on the replay of the specification's scenario: the first call
    credits 40 coins and logs ACCEPTED, the second one finds that row. *)
Lemma C2_witness :
  Spec.later (Fixture.at_ 1500000) (Fixture.at_ 1600000)
  /\ (let out1 := Confirmer.confirmTopupFromEmail (Fixture.payReef "40") (Fixture.at_ 1500000)
                    Fixture.dbReef in
      let out2 := Confirmer.confirmTopupFromEmail (Fixture.payReef "40") (Fixture.at_ 1600000)
                    out1.2 in
      Confirmer.success out1.1.1 = true
      /\ Confirmer.success out2.1.1 = false
      /\ users out2.2 = users out1.2
      /\ users out2.2 !! 7%Z = Some (JS.Dec 40 0)).
Proof.
  assert (H : Spec.later (Fixture.at_ 1500000) (Fixture.at_ 1600000))
    by (unfold Spec.later; simpl; lia).
  split; [exact H|].
  pose proof (C2_replay_credits_once (Fixture.payReef "40") _ _ Fixture.dbReef H) as T.
  cbv zeta in T. destruct T as (_ & _ & Honce & _).
  assert (Hs : Confirmer.success
            (Confirmer.confirmTopupFromEmail (Fixture.payReef "40") (Fixture.at_ 1500000)
               Fixture.dbReef).1.1 = true) by (vm_compute; reflexivity).
  destruct (Honce Hs) as (H2 & _ & Hu).
  cbv zeta. split; [exact Hs|]. split; [exact H2|]. split; [exact Hu|].
  rewrite Hu. vm_compute. reflexivity.
Defined.

(** ** The poll loop *)

Section PollLoop.

Import Poller.

(** [pollGmail] returns whatever happens in the cycle: its [try]
    catches the errors of the connection and of the scan. *)
Lemma pollGmail_returns env g w : (pollGmail env g w).1.1 = Returns.
Proof.
  unfold pollGmail. destruct (isPolling g); [reflexivity|].
  destruct (connectError env); [reflexivity|].
  destruct (processEmails (pass env) w) as [[e|r] w']; reflexivity.
Qed.

(** After a failed cycle [pollGmail] has doubled [backoffMs]. *)
Lemma pollGmail_failure_doubles env g w :
  isPolling g = false ->
  (is_Some (connectError env)
   \/ exists e, (processEmails (pass env) w).1 = inl e) ->
  backoffMs (pollGmail env g w).1.2 = Z.min (backoffMs g * 2) 60000.
Proof.
  intros Hp H. unfold pollGmail. rewrite Hp.
  destruct (connectError env) as [c|]; [reflexivity|].
  destruct H as [[c Hc]|[e He]]; [discriminate|].
  destruct (processEmails (pass env) w) as [[e'|r] w']; [reflexivity|discriminate].
Qed.

End PollLoop.

(** C9 fails on the code.  Whatever happens in a poll cycle, a
    connection error and a scan error included, the iteration of
    [pollLoop] sleeps the fixed interval of 20 seconds and leaves
    [backoffMs] at 2 seconds: the delay before the next attempt is never
    doubled.  [pollGmail] catches the error and doubles [backoffMs]
    itself, so the handler of [pollLoop] that would wait [backoffMs] never
    runs, and the success path of [pollLoop] resets the value. *)
Theorem C9_every_cycle_waits_poll_interval
    (env : Poller.CycleEnv) (g : Poller.Globals) (w : Poller.World) :
  (Poller.pollLoopIter env g w).1.1 = 20000%Z
  /\ Poller.backoffMs (Poller.pollLoopIter env g w).1.2 = 2000%Z.
Proof.
  unfold Poller.pollLoopIter.
  pose proof (pollGmail_returns env g w) as H.
  destruct (Poller.pollGmail env g w) as [[c g'] w']. simpl in H. subst c.
  split; reflexivity.
Qed.

(** Three failed cycles in a row, two refused connections and a scan
    that finds no mailbox: the loop waits 20 seconds after each. *)
Example pollLoop_three_failures :
  (Poller.pollLoop [Fixture.refused; Fixture.noMailbox; Fixture.refused]
     (Poller.mkGlobals 2000 false) (Fixture.worldOf Fixture.dbReef)).1.1
  = [2000; 20000; 20000; 20000]%Z.
Proof. vm_compute. reflexivity. Qed.

(** ** The scan pass: markers *)

(** C5 fails on the code.  The extractor times out on message 1005:
    the pass logs the decision ERROR and sets [savedAny], but the
    [continue] that follows skips the end of the iteration, where the
    marker is inserted.  No marker exists after the pass, and in debug
    mode, where the search returns seen messages too, the next pass
    hands the message to the extractor again. *)
Theorem C5_extractor_error_leaves_no_marker :
  let pass1 := Poller.processEmails (Fixture.passOver [Fixture.unparsable 1005])
                 (Fixture.worldOf Fixture.dbReefDebug) in
  let pass2 := Poller.processEmails (Fixture.passOver [Fixture.unparsable 1005]) pass1.2 in
  decision <$> payment_logs (Poller.w_db pass1.2) = [ERROR]
  /\ Poller.markerExists (Poller.w_db pass1.2) "INBOX" "1005" = false
  /\ Poller.parseCalls pass1.2 = [1005%Z]
  /\ Poller.parseCalls pass2.2 = [1005%Z; 1005%Z].
Proof. vm_compute. auto. Qed.

(** The same for a message whose source cannot be fetched (decision
    IGNORED), and for a message the validator rejects when the flag
    cannot be set: the marker shares the [try] of the flag. *)
Example no_source_leaves_no_marker :
  let pass1 := Poller.processEmails
                 (Fixture.passOver
                    [Poller.mkMessage 1005 (Poller.FetchNoSource None) (inl "") true
                       (Fixture.at_ 1500000)])
                 (Fixture.worldOf Fixture.dbReef) in
  decision <$> payment_logs (Poller.w_db pass1.2) = [IGNORED]
  /\ Poller.markerExists (Poller.w_db pass1.2) "INBOX" "1005" = false.
Proof. vm_compute. auto. Qed.

Example rejected_unflagged_leaves_no_marker :
  let pass1 := Poller.processEmails
                 (Fixture.passOver
                    [Poller.mkMessage 1005
                       (Poller.Fetched (Fixture.emailWith "vine oak stone reef") None None)
                       (inr (mkParserData (Some "40") (Some "request") None None None None None))
                       false (Fixture.at_ 1500000)])
                 (Fixture.worldOf Fixture.dbReef) in
  decision <$> payment_logs (Poller.w_db pass1.2) = [REJECTED]
  /\ Poller.markerExists (Poller.w_db pass1.2) "INBOX" "1005" = false.
Proof. vm_compute. auto. Qed.

(** The specification's scenario: the request armed at 1000, an email
    with UID 1005 and amount 40 whose body has the TOPUP line: the pass
    confirms it, credits 40 coins, inserts the marker and stores the
    watermark 1006. *)
Example scenario_pass :
  let out := Poller.processEmails
               (Fixture.passOver [Fixture.paying 1005 "vine oak stone reef" "40" true])
               (Fixture.worldOf Fixture.dbReef) in
  decision <$> payment_logs (Poller.w_db out.2) = [ACCEPTED]
  /\ users (Poller.w_db out.2) !! 7%Z = Some (JS.Dec 40 0)
  /\ status <$> topups (Poller.w_db out.2) !! 1%Z = Some CONFIRMED
  /\ Poller.markerExists (Poller.w_db out.2) "INBOX" "1005" = true
  /\ Poller.getStartUid (Poller.w_db out.2) = Some (Some 1006%Z).
Proof. vm_compute. auto. Qed.

(** ** The scan pass: the watermark *)

Section Watermark.

Import Validator Confirmer Poller.

Lemma advance_max h u : (if (h <? u)%Z then u else h) = Z.max h u.
Proof. destruct (Z.ltb_spec h u); lia. Qed.

Lemma logPayment_markers e db : mail_markers (Logger.logPayment e db) = mail_markers db.
Proof.
  unfold Logger.logPayment.
  destruct (email_uid e); [destruct (Logger.uidLogged _ _)|]; reflexivity.
Qed.

Lemma logAll_markers es db : mail_markers (Logger.logAll es db) = mail_markers db.
Proof.
  revert db. induction es as [|e es IH]; intros db; simpl; [reflexivity|].
  unfold Logger.logAll in IH. rewrite IH. apply logPayment_markers.
Qed.

Lemma confirm_markers p clk db :
  mail_markers (confirmTopupFromEmail p clk db).2 = mail_markers db.
Proof.
  unfold confirmTopupFromEmail.
  destruct (confirmChecks p clk db) as [[r logs]|m].
  - simpl. apply logAll_markers.
  - pose proof (transaction_atomic clk m db) as H.
    destruct (transaction (creditBody clk m) db) as [[msg|] db']; simpl;
      rewrite logPayment_markers.
    + by rewrite H.
    + destruct H as (row & balance & _ & _ & ->). reflexivity.
Qed.

Lemma markProcessed_markers db mailboxName uid :
  mail_markers (markProcessed db mailboxName uid).2
  = {[ markerKey mailboxName uid ]} ∪ mail_markers db.
Proof.
  unfold markProcessed. case_bool_decide as Hk; simpl; [|reflexivity].
  symmetry. apply subseteq_union_1_L. by apply singleton_subseteq_l.
Qed.

Lemma flagAndMark_markers mailboxName uid m w :
  mail_markers (w_db w) ⊆ mail_markers (w_db (flagAndMark mailboxName uid m w)).
Proof.
  unfold flagAndMark, flagSeen. destruct (flagOk m); simpl; [|done].
  rewrite markProcessed_markers. set_solver.
Qed.

(** The end of an iteration inserts the marker. *)
Lemma bookkeeping_marks mailboxName uid m st :
  mail_markers (w_db (world (bookkeeping mailboxName uid m st)))
  = {[ markerKey mailboxName uid ]} ∪ mail_markers (w_db (world st)).
Proof. unfold bookkeeping. simpl. apply markProcessed_markers. Qed.

(** Markers are never removed. *)
Lemma processMessage_markers mailboxName startUid m st :
  mail_markers (w_db (world st))
  ⊆ mail_markers (w_db (world (processMessage mailboxName startUid m st))).
Proof.
  unfold processMessage.
  destruct (uidNum m <? startUid)%Z; [done|].
  destruct (markerExists _ _ _); [done|].
  destruct (fetch m) as [e|subj|src subj date].
  - rewrite bookkeeping_marks. simpl. rewrite logPayment_markers. set_solver.
  - unfold flagSeen. destruct (flagOk m); simpl; by rewrite logPayment_markers.
  - destruct (parse m) as [e|d].
    + unfold flagSeen. destruct (flagOk m); simpl; by rewrite logPayment_markers.
    + destruct (validatePayment d _ _ _) as [v logs].
      destruct (negb (valid v)).
      * simpl. etransitivity; [|apply flagAndMark_markers]. simpl.
        by rewrite logAll_markers.
      * match goal with |- context [confirmTopupFromEmail ?p ?c ?d] =>
          pose proof (confirm_markers p c d) as Hc;
          destruct (confirmTopupFromEmail p c d) as [[c' l] db3]
        end.
        simpl in Hc. rewrite logAll_markers in Hc. simpl in Hc.
        destruct (success c'); rewrite bookkeeping_marks; simpl;
          (etransitivity; [|apply union_subseteq_r]);
          (etransitivity; [|apply flagAndMark_markers]); simpl; by rewrite Hc.
Qed.

(** An iteration that a marker stops, or that ends in the bookkeeping,
    advances the highest processed UID to the UID of its message and
    leaves the marker of the message in place. *)
Lemma processMessage_counted db0 mailboxName startUid m st :
  (startUid <= uidNum m)%Z ->
  mail_markers db0 ⊆ mail_markers (w_db (world st)) ->
  counted db0 mailboxName m ->
  highestProcessedUid (processMessage mailboxName startUid m st)
  = Z.max (highestProcessedUid st) (uidNum m)
  /\ markerExists (w_db (world (processMessage mailboxName startUid m st)))
       mailboxName (JS.showZ (uidNum m)) = true.
Proof.
  intros Hle Hsub Hcount. unfold processMessage.
  destruct (Z.ltb_spec (uidNum m) startUid) as [Hlt|_]; [lia|].
  destruct (markerExists (w_db (world st)) mailboxName (JS.showZ (uidNum m))) eqn:Hmark.
  { split; [apply advance_max|exact Hmark]. }
  destruct Hcount as [Hpre|Hend].
  { unfold markerExists in *. apply bool_decide_eq_true in Hpre.
    apply bool_decide_eq_false in Hmark. exfalso. apply Hmark, Hsub, Hpre. }
  assert (Hbk : forall st', markerExists (w_db (world (bookkeeping mailboxName
                               (JS.showZ (uidNum m)) m st')))
                  mailboxName (JS.showZ (uidNum m)) = true).
  { intros st'. unfold markerExists. apply bool_decide_eq_true.
    rewrite bookkeeping_marks. set_solver. }
  unfold endsInBookkeeping in Hend.
  destruct (fetch m) as [e|subj|src subj date]; [|discriminate|].
  { split; [apply advance_max|apply Hbk]. }
  destruct (parse m) as [e|d]; [discriminate|].
  destruct (validatePayment d _ _ _) as [v logs]. simpl in Hend. rewrite Hend.
  simpl negb. cbv iota.
  destruct (confirmTopupFromEmail _ _ _) as [[c l] db3].
  destruct (success c); (split; [apply advance_max|apply Hbk]).
Qed.

Lemma processMessage_below mailboxName startUid m st :
  (uidNum m < startUid)%Z -> processMessage mailboxName startUid m st = st.
Proof.
  intros H. unfold processMessage.
  destruct (Z.ltb_spec (uidNum m) startUid); [reflexivity|lia].
Qed.

(** The loop, when every visited message counts: the highest processed
    UID is the highest UID visited, or the initial value when none is
    above it. *)
Lemma loop_highest db0 mailboxName startUid uids st :
  mail_markers db0 ⊆ mail_markers (w_db (world st)) ->
  Forall (counted db0 mailboxName) (visitedOf startUid uids) ->
  let h := highestProcessedUid
             (fold_left (fun st m => processMessage mailboxName startUid m st) uids st) in
  (highestProcessedUid st <= h)%Z
  /\ (forall m, m ∈ visitedOf startUid uids -> (uidNum m <= h)%Z)
  /\ (h = highestProcessedUid st \/ h ∈ uidNum <$> visitedOf startUid uids).
Proof.
  revert st. induction uids as [|m uids IH]; intros st Hsub Hall; cbv zeta.
  - simpl. split; [lia|]. split; [|by left]. intros m Hm. inversion Hm.
  - simpl fold_left. unfold visitedOf in *. rewrite filter_cons in *.
    assert (Hsub' : mail_markers db0
              ⊆ mail_markers (w_db (world (processMessage mailboxName startUid m st)))).
    { etransitivity; [exact Hsub|apply processMessage_markers]. }
    destruct (decide (startUid <= uidNum m)%Z) as [Hle|Hlt].
    + apply Forall_cons in Hall as [Hm Hall].
      specialize (IH (processMessage mailboxName startUid m st) Hsub' Hall).
      cbv zeta in IH.
      destruct (processMessage_counted _ _ _ _ _ Hle Hsub Hm) as [Hh _].
      rewrite Hh in IH.
      destruct IH as (H1 & H2 & H3). split; [lia|]. split.
      * intros m' Hm'. apply elem_of_cons in Hm' as [->|Hm']; [lia|by apply H2].
      * destruct H3 as [H3|H3].
        -- destruct (Z.max_spec (highestProcessedUid st) (uidNum m)) as [[_ Hx]|[_ Hx]].
           ++ right. rewrite H3, Hx. rewrite fmap_cons. left.
           ++ left. lia.
        -- right. rewrite fmap_cons. by right.
    + assert (Hb : (uidNum m < startUid)%Z) by lia.
      rewrite (processMessage_below mailboxName _ _ st Hb). by apply IH.
Qed.

End Watermark.

(** C8, as stated, fails.  Two messages, 1005 and 1010, reach the
    confirmer in the first pass; the flag of 1005 cannot be set, so it
    stays unseen.  The first pass stores the watermark 1011.  The second
    pass finds 1005 again, its marker stops it, and the pass stores 1006:
    the watermark moved backward. *)
Lemma C8_counterexample :
  let inbox := [Fixture.paying 1005 "no such phrase" "40" false;
                Fixture.paying 1010 "no such phrase" "40" true] in
  let pass1 := Poller.processEmails (Fixture.passOver inbox) (Fixture.worldOf Fixture.dbReef) in
  let pass2 := Poller.processEmails (Fixture.passOver inbox) pass1.2 in
  Poller.getStartUid (Poller.w_db pass1.2) = Some (Some 1011%Z)
  /\ Poller.getStartUid (Poller.w_db pass2.2) = Some (Some 1006%Z)
  /\ (1006 < 1011)%Z.
Proof. vm_compute. auto. Qed.

(** C8, amended: after a scan pass in which at least one message was
    visited, and in which every visited message had its marker already
    or ended in the bookkeeping of the loop (the confirmer was called
    for it, or the handler of the iteration caught its error), the
    stored watermark [gmail_start_uid] is one past the highest UID
    visited in that pass.  The value is written without regard to the
    one stored before. *)
Theorem C8_watermark_after_pass
    (env : Poller.PassEnv) (w : Poller.World)
    (mailboxName : string) (db1 : DB) (startUid : Z)
    (Hopen : Poller.openMailboxWithFallback (Poller.mailboxOpen env) (Poller.w_db w)
             = Some (mailboxName, db1))
    (Harmed : Poller.minArmed db1 = Some startUid)
    (Hsearch : Poller.searchError env = None) :
  let uids := Poller.search (Poller.debugModeOf db1) startUid (Poller.w_seen w)
                (Poller.inbox env) in
  let visited := filter (fun m : Poller.Message => (startUid <= Poller.uidNum m)%Z) uids in
  visited <> [] ->
  Forall (fun m =>
            Poller.markerExists db1 mailboxName (JS.showZ (Poller.uidNum m)) = true
            \/ Poller.endsInBookkeeping m = true) visited ->
  exists highest,
    highest ∈ Poller.uidNum <$> visited
    /\ (forall m, m ∈ visited -> (Poller.uidNum m <= highest)%Z)
    /\ app_settings (Poller.w_db (Poller.processEmails env w).2) !! "gmail_start_uid"
       = Some (JS.showZ (highest + 1)).
Proof.
  cbv zeta. intros Hne Hall.
  unfold Poller.processEmails. rewrite Hopen, Harmed, Hsearch. cbv zeta.
  change (Poller.w_seen (Poller.setDb w db1)) with (Poller.w_seen w).
  set (uids := Poller.search (Poller.debugModeOf db1) startUid (Poller.w_seen w)
                 (Poller.inbox env)) in *.
  fold (Poller.visitedOf startUid uids) in Hne, Hall |- *.
  destruct (Nat.eqb (length uids) 0) eqn:Hlen.
  { apply Nat.eqb_eq, nil_length_inv in Hlen. rewrite Hlen in Hne. by destruct Hne. }
  pose proof (loop_highest db1 mailboxName startUid uids
                (Poller.mkLoopState (Poller.setDb w db1) 0 0 0 0 (startUid - 1))
                ltac:(done) Hall) as Hloop.
  cbv zeta in Hloop.
  set (st := fold_left (fun st m => Poller.processMessage mailboxName startUid m st) uids
               (Poller.mkLoopState (Poller.setDb w db1) 0 0 0 0 (startUid - 1))) in *.
  destruct Hloop as (Hge & Hmax & Hin). simpl in Hge, Hin.
  assert (Hvis : exists m, m ∈ Poller.visitedOf startUid uids).
  { destruct (Poller.visitedOf startUid uids) as [|m l]; [by destruct Hne|]. exists m. left. }
  destruct Hvis as [m0 Hm0].
  assert (Hm0' : (startUid <= Poller.uidNum m0)%Z).
  { unfold Poller.visitedOf in Hm0. apply list_elem_of_filter in Hm0. tauto. }
  pose proof (Hmax m0 Hm0) as Hm0''.
  destruct Hin as [Hin|Hin]; [lia|].
  exists (Poller.highestProcessedUid st). split; [exact Hin|]. split; [exact Hmax|].
  destruct (Z.leb_spec startUid (Poller.highestProcessedUid st)) as [_|Hlt]; [|lia].
  unfold Poller.touchLastChecked, Poller.setStartUid, Poller.setSetting. simpl.
  rewrite lookup_insert_ne by discriminate. apply lookup_insert_eq.
Qed.

(** C8 on the first pass of the example above: 1005 and 1010 are
    visited and both reach the confirmer; the watermark is 1011. *)
Lemma C8_witness :
  let env := Fixture.passOver [Fixture.paying 1005 "no such phrase" "40" false;
                               Fixture.paying 1010 "no such phrase" "40" true] in
  let w := Fixture.worldOf Fixture.dbReef in
  app_settings (Poller.w_db (Poller.processEmails env w).2) !! "gmail_start_uid"
  = Some "1011".
Proof.
  cbv zeta.
  pose proof (C8_watermark_after_pass
    (Fixture.passOver [Fixture.paying 1005 "no such phrase" "40" false;
                       Fixture.paying 1010 "no such phrase" "40" true])
    (Fixture.worldOf Fixture.dbReef) "INBOX"
    (Poller.setStartUid Fixture.dbReef 2000) 1000
    ltac:(vm_compute; reflexivity) ltac:(vm_compute; reflexivity) ltac:(reflexivity)) as T.
  cbv zeta in T.
  destruct T as (highest & Hin & Hmax & Hset).
  - match goal with |- ?l <> [] =>
      replace l with [Fixture.paying 1005 "no such phrase" "40" false;
                      Fixture.paying 1010 "no such phrase" "40" true]
        by (vm_compute; reflexivity)
    end. discriminate.
  - match goal with |- Forall _ ?l =>
      replace l with [Fixture.paying 1005 "no such phrase" "40" false;
                      Fixture.paying 1010 "no such phrase" "40" true]
        by (vm_compute; reflexivity)
    end.
    repeat constructor; right; vm_compute; reflexivity.
  - rewrite Hset. f_equal.
    assert (Hh : highest = 1010%Z).
    { assert (H10 : (1010 <= highest)%Z).
      { apply (Hmax (Fixture.paying 1010 "no such phrase" "40" true)).
        apply list_elem_of_In. vm_compute. auto. }
      apply list_elem_of_In in Hin. vm_compute in Hin.
      destruct Hin as [<-|[<-|[]]]; [lia|reflexivity]. }
    rewrite Hh. vm_compute. reflexivity.
Defined.

(** * Further properties of the code *)

(** ** [normalizePhrase] *)

Section Normalize.

Import Validator Text.

Lemma toLowerChar_idem c : JS.toLowerChar (JS.toLowerChar c) = JS.toLowerChar c.
Proof. destruct c as [[] [] [] [] [] [] [] []]; reflexivity. Qed.

Lemma isWhiteSpace_lower c : JS.isWhiteSpace (JS.toLowerChar c) = JS.isWhiteSpace c.
Proof. destruct c as [[] [] [] [] [] [] [] []]; reflexivity. Qed.

Lemma toLowerCase_idem s : JS.toLowerCase (JS.toLowerCase s) = JS.toLowerCase s.
Proof. induction s as [|c r IH]; simpl; [reflexivity|]. by rewrite toLowerChar_idem, IH. Qed.

Lemma toLowerCase_app a b : JS.toLowerCase (a ++ b) = JS.toLowerCase a ++ JS.toLowerCase b.
Proof. induction a as [|c r IH]; simpl; [reflexivity|]. by rewrite IH. Qed.

Lemma toLowerCase_collapse_go f s :
  JS.toLowerCase (JS.collapse_go f s) = JS.collapse_go f (JS.toLowerCase s).
Proof.
  revert f. induction s as [|c r IH]; intros f; simpl; [reflexivity|].
  rewrite isWhiteSpace_lower. destruct (JS.isWhiteSpace c) eqn:Hc.
  - destruct f; simpl; by rewrite IH.
  - simpl. by rewrite IH.
Qed.

Lemma toLowerCase_trimStart s :
  JS.toLowerCase (JS.trimStart s) = JS.trimStart (JS.toLowerCase s).
Proof.
  induction s as [|c r IH]; simpl; [reflexivity|].
  rewrite isWhiteSpace_lower. destruct (JS.isWhiteSpace c); [exact IH|reflexivity].
Qed.

Lemma toLowerCase_trimEnd s :
  JS.toLowerCase (JS.trimEnd s) = JS.trimEnd (JS.toLowerCase s).
Proof.
  induction s as [|c r IH]; simpl; [reflexivity|].
  rewrite <- IH, isWhiteSpace_lower.
  destruct (JS.trimEnd r); simpl; [|reflexivity].
  destruct (JS.isWhiteSpace c); reflexivity.
Qed.

Lemma toLowerCase_trim s : JS.toLowerCase (JS.trim s) = JS.trim (JS.toLowerCase s).
Proof. unfold JS.trim. by rewrite toLowerCase_trimStart, toLowerCase_trimEnd. Qed.

Lemma collapse_go_tidy f s : tidy f (JS.collapse_go f s) = true.
Proof.
  revert f. induction s as [|c r IH]; intros f; simpl; [reflexivity|].
  destruct (JS.isWhiteSpace c) eqn:Hc.
  - destruct f; [apply IH|]. simpl. apply IH.
  - simpl. rewrite Hc. apply IH.
Qed.

Lemma tidy_fixed f s : tidy f s = true -> JS.collapse_go f s = s.
Proof.
  revert f. induction s as [|c r IH]; intros f; simpl; [reflexivity|].
  destruct (JS.isWhiteSpace c).
  - intros H. apply andb_true_iff in H as [H Hr]. apply andb_true_iff in H as [Hf Hc].
    apply negb_true_iff in Hf. subst f. apply Ascii.eqb_eq in Hc. subst c.
    by rewrite (IH _ Hr).
  - intros H. by rewrite (IH _ H).
Qed.

Lemma tidy_weaken f s : tidy f s = true -> tidy false s = true.
Proof.
  destruct s as [|c r]; simpl; [reflexivity|].
  destruct (JS.isWhiteSpace c); [|done].
  intros H. apply andb_true_iff in H as [H Hr]. apply andb_true_iff in H as [_ Hc].
  by rewrite Hc, Hr.
Qed.

Lemma tidy_trimStart f s : tidy f s = true -> tidy false (JS.trimStart s) = true.
Proof.
  revert f. induction s as [|c r IH]; intros f; simpl; [reflexivity|].
  destruct (JS.isWhiteSpace c) eqn:Hc.
  - intros H. apply andb_true_iff in H as [_ Hr]. by apply (IH true).
  - intros H. simpl. by rewrite Hc.
Qed.

Lemma tidy_trimEnd f s : tidy f s = true -> tidy f (JS.trimEnd s) = true.
Proof.
  revert f. induction s as [|c r IH]; intros f; simpl; [reflexivity|].
  destruct (JS.isWhiteSpace c) eqn:Hc.
  - intros H. apply andb_true_iff in H as [H Hr]. specialize (IH _ Hr).
    destruct (JS.trimEnd r) as [|d r'] eqn:Hr'; [reflexivity|].
    simpl. rewrite Hc, H. exact IH.
  - intros H. specialize (IH _ H).
    destruct (JS.trimEnd r) as [|d r'] eqn:Hr'; simpl; rewrite Hc; [reflexivity|exact IH].
Qed.

Lemma trimStart_idem s : JS.trimStart (JS.trimStart s) = JS.trimStart s.
Proof.
  induction s as [|c r IH]; simpl; [reflexivity|].
  destruct (JS.isWhiteSpace c) eqn:Hc; [exact IH|]. simpl. by rewrite Hc.
Qed.

Lemma trimEnd_idem s : JS.trimEnd (JS.trimEnd s) = JS.trimEnd s.
Proof.
  induction s as [|c r IH]; simpl; [reflexivity|].
  destruct (JS.trimEnd r) as [|d r'] eqn:Hr.
  - destruct (JS.isWhiteSpace c) eqn:Hc; simpl; [reflexivity|]. by rewrite Hc.
  - simpl. simpl in IH. by rewrite IH.
Qed.

(** Trimming the start keeps an end that is trimmed. *)
Lemma trimEnd_trimStart y : JS.trimEnd y = y -> JS.trimEnd (JS.trimStart y) = JS.trimStart y.
Proof.
  induction y as [|c r IH]; simpl; [reflexivity|].
  destruct (JS.isWhiteSpace c) eqn:Hc.
  - destruct (JS.trimEnd r) as [|d r'] eqn:Hr; [discriminate|].
    intros [= H]. apply IH. exact H.
  - intros H. simpl. rewrite Hc. exact H.
Qed.

Lemma trim_idem s : JS.trim (JS.trim s) = JS.trim s.
Proof.
  unfold JS.trim.
  rewrite (trimEnd_trimStart (JS.trimEnd s)) by apply trimEnd_idem.
  apply trimStart_idem.
Qed.

Lemma trim_trimEnd s : JS.trimEnd (JS.trim s) = JS.trim s.
Proof. unfold JS.trim. apply trimEnd_trimStart, trimEnd_idem. Qed.

Lemma trim_trimStart s : JS.trimStart (JS.trim s) = JS.trim s.
Proof. unfold JS.trim. apply trimStart_idem. Qed.

Lemma normalizePhrase_unfold s :
  normalizePhrase s = JS.trim (JS.collapseWhitespace (JS.toLowerCase s)).
Proof. destruct s; reflexivity. Qed.

(** A text in the form [normalizePhrase] produces is left as it is. *)
Lemma normalizePhrase_fixed s :
  JS.toLowerCase s = s -> tidy false s = true -> JS.trim s = s ->
  normalizePhrase s = s.
Proof.
  intros Hl Ht Hr. rewrite normalizePhrase_unfold, Hl.
  unfold JS.collapseWhitespace. by rewrite (tidy_fixed _ _ Ht).
Qed.

Lemma normalizePhrase_form s :
  JS.toLowerCase (normalizePhrase s) = normalizePhrase s
  /\ tidy false (normalizePhrase s) = true
  /\ JS.trim (normalizePhrase s) = normalizePhrase s.
Proof.
  rewrite normalizePhrase_unfold. split; [|split].
  - rewrite toLowerCase_trim. unfold JS.collapseWhitespace.
    by rewrite toLowerCase_collapse_go, toLowerCase_idem.
  - unfold JS.trim. eapply tidy_trimStart, tidy_trimEnd, collapse_go_tidy.
  - apply trim_idem.
Qed.

Lemma normalizePhrase_idem s : normalizePhrase (normalizePhrase s) = normalizePhrase s.
Proof.
  destruct (normalizePhrase_form s) as (Hl & Ht & Hr). by apply normalizePhrase_fixed.
Qed.

End Normalize.

(** X1: [normalizePhrase] is idempotent, and its result is in canonical
    form: lower-casing it, collapsing its whitespace and trimming it
    each leave it as it is. *)
Theorem X1_normalizePhrase_idempotent (text : string) :
  Validator.normalizePhrase (Validator.normalizePhrase text) = Validator.normalizePhrase text
  /\ JS.toLowerCase (Validator.normalizePhrase text) = Validator.normalizePhrase text
  /\ JS.collapseWhitespace (Validator.normalizePhrase text) = Validator.normalizePhrase text
  /\ JS.trim (Validator.normalizePhrase text) = Validator.normalizePhrase text.
Proof.
  destruct (normalizePhrase_form text) as (Hl & Ht & Hr).
  split; [by apply normalizePhrase_fixed|]. split; [exact Hl|]. split; [|exact Hr].
  by apply tidy_fixed.
Qed.

Section Runs.

Import Validator Text.

Lemma allChars_app test a b :
  allChars test (a ++ b) = allChars test a && allChars test b.
Proof. induction a as [|c r IH]; simpl; [reflexivity|]. by rewrite IH, andb_assoc. Qed.

Lemma blank_lower w : blank w -> blank (JS.toLowerCase w).
Proof.
  intros [Hne Hall]. split.
  - destruct w; [done|discriminate].
  - clear Hne. induction w as [|c r IH]; simpl in *; [reflexivity|].
    apply andb_true_iff in Hall as [Hc Hr]. by rewrite isWhiteSpace_lower, Hc, IH.
Qed.

Lemma collapse_go_app f a b :
  JS.collapse_go f (a ++ b) = JS.collapse_go f a ++ JS.collapse_go (flagAfter f a) b.
Proof.
  revert f. induction a as [|c r IH]; intros f; simpl; [reflexivity|].
  destruct (JS.isWhiteSpace c).
  - destruct f; simpl; by rewrite IH.
  - simpl. by rewrite IH.
Qed.

Lemma collapse_go_all w b :
  allChars JS.isWhiteSpace w = true ->
  JS.collapse_go true (w ++ b) = JS.collapse_go true b.
Proof.
  induction w as [|c r IH]; simpl; [reflexivity|].
  intros H. apply andb_true_iff in H as [Hc Hr]. rewrite Hc. by apply IH.
Qed.

(** A run of whitespace leaves one space, or none after whitespace. *)
Lemma collapse_go_blank f w b :
  blank w ->
  JS.collapse_go f (w ++ b) = (if f then "" else " ") ++ JS.collapse_go true b.
Proof.
  intros [Hne Hall]. destruct w as [|c r]; [done|]. simpl in *.
  apply andb_true_iff in Hall as [Hc Hr]. rewrite Hc.
  rewrite (collapse_go_all r b Hr). by destruct f.
Qed.

Lemma collapse_run a w b :
  blank w ->
  JS.collapseWhitespace (a ++ w ++ b)
  = JS.collapse_go false a ++ (if flagAfter false a then "" else " ") ++ JS.collapse_go true b.
Proof.
  intros Hw. unfold JS.collapseWhitespace.
  by rewrite collapse_go_app, collapse_go_blank.
Qed.

(** Whitespace at the start is collapsed to a space that [trim] takes
    away. *)
Lemma collapse_go_false_true s :
  JS.collapse_go false s
  = match s with
    | String c _ => if JS.isWhiteSpace c then " " else ""
    | EmptyString => ""
    end ++ JS.collapse_go true s.
Proof. destruct s as [|c r]; simpl; [reflexivity|]. by destruct (JS.isWhiteSpace c). Qed.

Lemma trim_space s : JS.trim (String " " s) = JS.trim s.
Proof.
  unfold JS.trim. simpl. destruct (JS.trimEnd s); reflexivity.
Qed.

Lemma trim_collapse_flag f s :
  JS.trim (JS.collapse_go f s) = JS.trim (JS.collapse_go true s).
Proof.
  destruct f; [reflexivity|]. rewrite collapse_go_false_true.
  destruct s as [|c r]; [reflexivity|].
  destruct (JS.isWhiteSpace c); [apply trim_space|reflexivity].
Qed.

Lemma trimEnd_all w : allChars JS.isWhiteSpace w = true -> JS.trimEnd w = "".
Proof.
  induction w as [|c r IH]; simpl; [reflexivity|].
  intros H. apply andb_true_iff in H as [Hc Hr]. by rewrite (IH Hr), Hc.
Qed.

Lemma trimEnd_app_all s w :
  allChars JS.isWhiteSpace w = true -> JS.trimEnd (s ++ w) = JS.trimEnd s.
Proof.
  intros Hw. induction s as [|c r IH]; simpl; [by apply trimEnd_all|]. by rewrite IH.
Qed.

Lemma trim_app_all s w :
  allChars JS.isWhiteSpace w = true -> JS.trim (s ++ w) = JS.trim s.
Proof. intros Hw. unfold JS.trim. by rewrite trimEnd_app_all. Qed.

Lemma collapse_go_all_end f w :
  allChars JS.isWhiteSpace w = true ->
  allChars JS.isWhiteSpace (JS.collapse_go f w) = true.
Proof.
  revert f. induction w as [|c r IH]; intros f; simpl; [reflexivity|].
  intros H. apply andb_true_iff in H as [Hc Hr]. rewrite Hc.
  destruct f; [by apply IH|]. simpl. by apply IH.
Qed.

End Runs.

(** X2: [normalizePhrase] does not tell apart texts that differ in
    their case, in the length or kind of a run of whitespace, or in
    whitespace at their start or end. *)
Theorem X2_normalizePhrase_insensitive (a a' b b' w w' : string) :
  JS.toLowerCase a = JS.toLowerCase a' ->
  JS.toLowerCase b = JS.toLowerCase b' ->
  Text.blank w -> Text.blank w' ->
  Validator.normalizePhrase (a ++ w ++ b) = Validator.normalizePhrase (a' ++ w' ++ b')
  /\ Validator.normalizePhrase (w ++ a) = Validator.normalizePhrase a'
  /\ Validator.normalizePhrase (a ++ w) = Validator.normalizePhrase a'.
Proof.
  intros Ha Hb Hw Hw'.
  pose proof (blank_lower _ Hw) as Hlw. pose proof (blank_lower _ Hw') as Hlw'.
  rewrite !normalizePhrase_unfold, !toLowerCase_app, <- Ha, <- Hb.
  split; [|split].
  - by rewrite !collapse_run.
  - unfold JS.collapseWhitespace. rewrite collapse_go_blank by done.
    change (JS.trim (String " " (JS.collapse_go true (JS.toLowerCase a))) = JS.trim (JS.collapse_go false (JS.toLowerCase a))).
    rewrite trim_space. symmetry. apply trim_collapse_flag.
  - unfold JS.collapseWhitespace. rewrite collapse_go_app.
    apply trim_app_all, collapse_go_all_end, Hlw.
Qed.

(** X2 on the phrase blue reef. *)
Lemma X2_witness :
  Validator.normalizePhrase ("Blue" ++ "  " ++ "REEF") = Validator.normalizePhrase ("blue" ++ " " ++ "reef")
  /\ Validator.normalizePhrase ("  " ++ "Blue") = Validator.normalizePhrase "blue"
  /\ Validator.normalizePhrase ("Blue" ++ "  ") = Validator.normalizePhrase "blue".
Proof.
  apply (X2_normalizePhrase_insensitive "Blue" "blue" "REEF" "reef" "  " " ");
    try reflexivity; split; (discriminate || reflexivity).
Defined.

(** ** The validator and the matcher *)

Section Candidate.

Import Validator Confirmer.

Lemma firstNonEmpty_form cs c src :
  firstNonEmpty cs = (Some c, src) ->
  normalizePhrase c = c /\ exists s, src = Some s /\ s ∈ cs.*2.
Proof.
  induction cs as [|[text source] cs IH]; [discriminate|].
  rewrite firstNonEmpty_cons. destruct (JS.truthy (normalizePhrase text)).
  - intros [= <- <-]. split; [apply normalizePhrase_idem|].
    exists source. split; [done|]. rewrite fmap_cons. left.
  - intros H. destruct (IH H) as (Hn & s & Hs & Hin). split; [done|].
    exists s. split; [done|]. rewrite fmap_cons. by right.
Qed.

Lemma extractTopupLine_form body t :
  extractTopupLine body = Some t -> normalizePhrase t = t.
Proof.
  unfold extractTopupLine. destruct (JS.truthy body); [|discriminate].
  destruct (searchTopup true body) as [g|]; [|discriminate].
  destruct (JS.truthy g); [|discriminate].
  intros [= <-]. apply normalizePhrase_idem.
Qed.

(** What the extractor of the passphrase returns is in the form of
    [normalizePhrase], not empty, and tagged with one of the four
    zones. *)
Lemma extract_form d body subj c src :
  extractPassphraseFromSafeZones d body subj = (Some c, src) ->
  normalizePhrase c = c /\ c <> ""
  /\ exists s, src = Some s /\ s ∈ ["topup_line"; "note_part"; "receipt_memo"; "subject"].
Proof.
  intros H. pose proof (extract_truthy _ _ _ _ _ H) as Ht.
  apply truthy_nonempty in Ht. revert H. unfold extractPassphraseFromSafeZones.
  assert (Hf : forall cs, cs.*2 = ["note_part"; "receipt_memo"; "subject"] ->
            firstNonEmpty cs = (Some c, src) ->
            normalizePhrase c = c /\ c <> ""
            /\ exists s, src = Some s
                 /\ s ∈ ["topup_line"; "note_part"; "receipt_memo"; "subject"]).
  { intros cs Hcs H. apply firstNonEmpty_form in H as (Hn & s & -> & Hin).
    rewrite Hcs in Hin. split; [done|]. split; [done|]. exists s. split; [done|].
    by right. }
  destruct (extractTopupLine _) as [t|] eqn:Et.
  - destruct (JS.truthy t).
    + intros [= <- <-]. split; [by apply extractTopupLine_form in Et|]. split; [done|].
      exists "topup_line". split; [done|]. left.
    + by apply Hf.
  - by apply Hf.
Qed.

(** A candidate that is not empty after normalization passes the two
    guards of the matcher. *)
Lemma findMatching_guards_pass now db c :
  normalizePhrase c <> "" ->
  m_reason (findMatchingTopupByPhrase now db (Some c)) <> "No code candidate provided"
  /\ m_reason (findMatchingTopupByPhrase now db (Some c))
     <> "Code candidate is empty after normalization".
Proof.
  intros Hn. rewrite (findMatching_usable now db c Hn).
  destruct (Nat.eqb _ 0); [split; discriminate|].
  destruct (matchesOf _ _ _) as [|m [|m' ms]]; split; simpl; discriminate.
Qed.

Lemma NoDup_singleton_eq {A} (l : list A) (a : A) :
  NoDup l -> (forall x, x ∈ l <-> x = a) -> l = [a].
Proof.
  intros Hnd H. destruct l as [|x l].
  - exfalso. assert (Ha : a ∈ @nil A) by (by apply H). by apply elem_of_nil in Ha.
  - assert (x = a) as -> by (apply H; left).
    f_equal. destruct l as [|y l]; [done|].
    assert (y = a) as -> by (apply H; right; left).
    apply NoDup_cons in Hnd as [Hnin _]. exfalso. apply Hnin. left.
Qed.

(** The matcher returns a topup exactly when the candidate is usable
    and one active topup, and no other, carries its phrase. *)
Lemma findMatching_iff now db c id t :
  m_topup (findMatchingTopupByPhrase now db c) = Some (id, t)
  <-> exists cand,
        c = Some cand /\ normalizePhrase cand <> ""
        /\ topups db !! id = Some t /\ isActive now t = true
        /\ normalizePhrase (code t) = normalizePhrase cand
        /\ forall id' t', topups db !! id' = Some t' -> isActive now t' = true ->
             normalizePhrase (code t') = normalizePhrase cand -> id' = id.
Proof.
  split.
  - intros H. destruct (findMatching_Some _ _ _ _ _ H) as (cand & -> & Hn & Hm & _).
    exists cand. split; [done|]. split; [done|].
    assert (Hin : (id, t) ∈ matchesOf now db (normalizePhrase cand)) by (rewrite Hm; left).
    apply elem_of_matchesOf in Hin as (Hrow & Hact & Hph).
    split; [done|]. split; [done|]. split; [done|].
    intros id' t' Hrow' Hact' Hph'.
    assert (Hin' : (id', t') ∈ matchesOf now db (normalizePhrase cand)).
    { apply elem_of_matchesOf. auto. }
    rewrite Hm in Hin'. apply list_elem_of_singleton in Hin'. congruence.
  - intros (cand & -> & Hn & Hrow & Hact & Hph & Huniq).
    rewrite (findMatching_usable now db cand Hn).
    assert (Hin : (id, t) ∈ getActiveTopups now db) by (apply elem_of_getActiveTopups; auto).
    destruct (Nat.eqb (length (getActiveTopups now db)) 0) eqn:Hlen.
    { apply Nat.eqb_eq, nil_length_inv in Hlen. rewrite Hlen in Hin. inversion Hin. }
    assert (Hone : matchesOf now db (normalizePhrase cand) = [(id, t)]).
    { apply NoDup_singleton_eq; [apply NoDup_matchesOf|].
      intros [id' t']. rewrite elem_of_matchesOf. split.
      - intros (Hrow' & Hact' & Hph').
        assert (id' = id) as -> by (by apply (Huniq id' t')). congruence.
      - intros [= -> ->]. auto. }
    rewrite Hone. reflexivity.
Qed.

End Candidate.

(** X3: a payment that [validatePayment] accepts is a sent payment with
    an amount above zero, and its candidate is not empty, is left as it
    is by [normalizePhrase], and comes from one of the four zones; the
    matcher never answers such a candidate with one of the reasons of its
    two guards, whatever the database holds. *)
Theorem X3_valid_payment_candidate
    (d : ParserData) (emailBody emailSubject : string) (emailUid : option string) :
  let r := (Validator.validatePayment d emailBody emailSubject emailUid).1 in
  Validator.valid r = true ->
  exists a c src,
    pay_type d = Some "sent" /\ amount d = Some a
    /\ Validator.v_amount r = Some (JS.parseFloat a)
    /\ JS.isNaN (JS.parseFloat a) = false /\ JS.leZero (JS.parseFloat a) = false
    /\ Validator.codeCandidate r = Some c /\ Validator.code_source r = Some src
    /\ c <> "" /\ Validator.normalizePhrase c = c
    /\ src ∈ ["topup_line"; "note_part"; "receipt_memo"; "subject"]
    /\ forall now db,
         Confirmer.m_reason (Confirmer.findMatchingTopupByPhrase now db (Some c))
         <> "No code candidate provided"
         /\ Confirmer.m_reason (Confirmer.findMatchingTopupByPhrase now db (Some c))
            <> "Code candidate is empty after normalization".
Proof.
  cbv zeta. unfold Validator.validatePayment.
  destruct (Validator.extractPassphraseFromSafeZones _ _ _) as [code src] eqn:He.
  destruct (negb (bool_decide (pay_type d = Some "sent"))) eqn:Hp; [discriminate|].
  apply negb_false_iff, bool_decide_eq_true in Hp.
  destruct (amount d) as [a|]; [|discriminate].
  destruct (negb (JS.truthy a) || _); [discriminate|].
  destruct (JS.isNaN (JS.parseFloat a) || JS.leZero (JS.parseFloat a)) eqn:Hamt;
    [discriminate|].
  apply orb_false_iff in Hamt as [Hnan Hle].
  destruct (JS.truthy _ && _ && _); [discriminate|].
  destruct (bool_decide (is_expired d = Some true)); [discriminate|].
  destruct code as [c|]; [|discriminate].
  destruct (negb (JS.truthy c)); [discriminate|]. intros _. simpl.
  apply extract_form in He as (Hn & Hne & s & -> & Hin).
  exists a, c, s. repeat split; try assumption.
  all: apply findMatching_guards_pass; by rewrite Hn.
Qed.

(** X3 on a sent payment of 40 whose body carries a TOPUP line. *)
Lemma X3_witness :
  exists a c src,
    pay_type (Fixture.sent "40") = Some "sent" /\ amount (Fixture.sent "40") = Some a
    /\ Validator.v_amount
         (Validator.validatePayment (Fixture.sent "40") "TOPUP: Vine  Oak" "" None).1
       = Some (JS.parseFloat a)
    /\ JS.isNaN (JS.parseFloat a) = false /\ JS.leZero (JS.parseFloat a) = false
    /\ Validator.codeCandidate
         (Validator.validatePayment (Fixture.sent "40") "TOPUP: Vine  Oak" "" None).1 = Some c
    /\ Validator.code_source
         (Validator.validatePayment (Fixture.sent "40") "TOPUP: Vine  Oak" "" None).1 = Some src
    /\ c <> "" /\ Validator.normalizePhrase c = c
    /\ src ∈ ["topup_line"; "note_part"; "receipt_memo"; "subject"]
    /\ forall now db,
         Confirmer.m_reason (Confirmer.findMatchingTopupByPhrase now db (Some c))
         <> "No code candidate provided"
         /\ Confirmer.m_reason (Confirmer.findMatchingTopupByPhrase now db (Some c))
            <> "Code candidate is empty after normalization".
Proof.
  apply (X3_valid_payment_candidate (Fixture.sent "40") "TOPUP: Vine  Oak" "" None).
  reflexivity.
Defined.

(** X4: [findMatchingTopupByPhrase] returns a topup exactly when the
    candidate is not empty after normalization and exactly one topup of
    the table that is PENDING and unexpired at the time of the query has
    a phrase equal to the candidate after normalization; the topup
    returned is that row, and the matched phrase is its stored code. *)
Theorem X4_matcher_exact (now : Z) (db : DB) (c : option string) (id : Z) (t : TopupRow) :
  (Confirmer.m_topup (Confirmer.findMatchingTopupByPhrase now db c) = Some (id, t)
   <-> exists cand,
         c = Some cand /\ Validator.normalizePhrase cand <> ""
         /\ topups db !! id = Some t
         /\ status t = PENDING
         /\ (JSDate.datetime now < JSDate.datetime (expiresAt t))%Z
         /\ Validator.normalizePhrase (code t) = Validator.normalizePhrase cand
         /\ forall id' t',
              topups db !! id' = Some t' -> status t' = PENDING ->
              (JSDate.datetime now < JSDate.datetime (expiresAt t'))%Z ->
              Validator.normalizePhrase (code t') = Validator.normalizePhrase cand ->
              id' = id)
  /\ (Confirmer.m_topup (Confirmer.findMatchingTopupByPhrase now db c) = Some (id, t) ->
      Confirmer.matchedPhrase (Confirmer.findMatchingTopupByPhrase now db c) = Some (code t)).
Proof.
  assert (Hact : forall t', Confirmer.isActive now t' = true
            <-> status t' = PENDING /\ (JSDate.datetime now < JSDate.datetime (expiresAt t'))%Z).
  { intros t'. unfold Confirmer.isActive.
    rewrite andb_true_iff, bool_decide_eq_true, Z.ltb_lt. tauto. }
  split.
  - rewrite findMatching_iff. split.
    + intros (cand & Hc & Hn & Hrow & Ha & Hph & Hu). apply Hact in Ha as [Hs He].
      exists cand. repeat (split; [assumption|]).
      intros id' t' Hrow' Hs' He' Hph'. apply (Hu id' t'); [done| |done].
      apply Hact. auto.
    + intros (cand & Hc & Hn & Hrow & Hs & He & Hph & Hu).
      exists cand. repeat (split; [assumption|]). split; [by apply Hact|].
      split; [assumption|].
      intros id' t' Hrow' Ha' Hph'. apply Hact in Ha' as [Hs' He'].
      by apply (Hu id' t').
  - intros H. by destruct (findMatching_Some _ _ _ _ _ H) as (cand & _ & _ & _ & Hph).
Qed.

(** ** The confirmer as a whole *)

Section ConfirmerWhole.

Import Validator Confirmer.

(** The checks before the transaction pass when the gate, the amount,
    the matcher and the two checks of the expiry allow it. *)
Lemma confirmChecks_complete p clk db id row :
  acceptedLogged (p_email_uid p) db = false ->
  JS.isNaN (coinsOf (amountString p)) || JS.leZero (coinsOf (amountString p)) = false ->
  m_topup (findMatchingTopupByPhrase (t_list clk) db (p_codeCandidate p)) = Some (id, row) ->
  (expiresAt row <? t_check clk)%Z = false ->
  (forall d, emailDate p = Some d -> (expiresAt row + 5 * 60 * 1000 <? d)%Z = false) ->
  confirmChecks p clk db
  = inr (mkMatched id row (Some (code row)) (coinsOf (amountString p))).
Proof.
  intros Hacc Hamt Hm Hexp Hfut.
  pose proof (findMatching_active _ _ _ _ _ Hm) as [_ Hact].
  pose proof (findMatching_Some _ _ _ _ _ Hm) as (cand & _ & _ & _ & Hph).
  unfold confirmChecks. rewrite Hacc. cbv zeta. rewrite Hamt, Hm, Hph.
  rewrite (bool_decide_eq_true_2 _ (isActive_pending _ _ Hact)). simpl negb. cbv iota.
  rewrite Hexp.
  destruct (emailDate p) as [d|]; [rewrite (Hfut d eq_refl)|]; reflexivity.
Qed.

Lemma logPayment_settings e db : app_settings (Logger.logPayment e db) = app_settings db.
Proof.
  unfold Logger.logPayment.
  destruct (email_uid e); [destruct (Logger.uidLogged _ _)|]; reflexivity.
Qed.

Lemma logAll_settings es db : app_settings (Logger.logAll es db) = app_settings db.
Proof.
  revert db. induction es as [|e es IH]; intros db; simpl; [reflexivity|].
  unfold Logger.logAll in IH. rewrite IH. apply logPayment_settings.
Qed.

(** The two ways a call ends: it fails and only logs, or it succeeds,
    confirms one PENDING row, credits its owner and logs. *)
Lemma confirm_outcome p clk db :
  let out := confirmTopupFromEmail p clk db in
  (success out.1.1 = false /\ out.2 = Logger.logAll out.1.2 db
   /\ (forall e, e ∈ out.1.2 -> decision e <> ACCEPTED))
  \/ (success out.1.1 = true
      /\ exists id row balance e,
           topups db !! id = Some row /\ status row = PENDING
           /\ users db !! userId row = Some balance
           /\ topupId out.1.1 = Some id /\ c_userId out.1.1 = Some (userId row)
           /\ coins out.1.1 = Some (coinsOf (amountString p))
           /\ out.1.2 = [e] /\ decision e = ACCEPTED
           /\ out.2 = Logger.logPayment e
                        (setUsers
                           (setTopups db
                              (<[id := confirmedRow row (coinsOf (amountString p))]> (topups db)))
                           (<[userId row := sqlAdd balance (coinsOf (amountString p))]>
                              (users db)))).
Proof.
  cbv zeta. destruct (confirmChecks p clk db) as [[r logs]|m] eqn:Hc.
  - left. rewrite (confirm_early _ _ _ _ _ Hc). simpl.
    apply confirmChecks_inl in Hc as [Hs Hl]. split; [done|]. split; [done|].
    intros e He. destruct Hl as [->|(e' & -> & Hd & _)]; [inversion He|].
    apply list_elem_of_singleton in He as ->. destruct Hd as [-> | ->]; discriminate.
  - rewrite (confirm_reaches _ _ _ _ Hc).
    pose proof (confirmChecks_inr _ _ _ _ Hc) as (_ & Hamt & _ & _ & Hm & _).
    pose proof (findMatching_active _ _ _ _ _ Hm) as [Hrow Hact].
    pose proof (creditBody_cases clk m db Hrow) as Hcase.
    unfold transaction. destruct (creditBody clk m db) as [msg|db'].
    + left. simpl. split; [done|]. split; [done|].
      intros e He. apply list_elem_of_singleton in He as ->. discriminate.
    + right. destruct Hcase as (_ & _ & balance & Hbal & ->). simpl.
      split; [done|]. rewrite <- Hamt.
      eexists (mt_id m), (mt_row m), balance, _.
      split; [done|]. split; [by apply isActive_pending in Hact|].
      repeat (split; [reflexivity || assumption|]). reflexivity.
Qed.

End ConfirmerWhole.

(** X5: [confirmTopupFromEmail] succeeds exactly when no ACCEPTED log
    row carries the UID of the email, the floor of the amount of the
    email is above zero, the candidate is not empty after normalization,
    exactly one topup that is active at the query has its phrase, that
    topup has not expired at the check, the date of the email, when
    known, is at most five minutes after the expiry, the topup is still
    active at the two statements of the transaction, and its user has a
    row.  The expiry is compared to the millisecond at the check and to
    the second elsewhere. *)
Theorem X5_confirm_succeeds_iff (p : Confirmer.Params) (clk : Confirmer.Clock) (db : DB) :
  Confirmer.success (Confirmer.confirmTopupFromEmail p clk db).1.1 = true
  <-> exists cand id row balance,
        Confirmer.acceptedLogged (Confirmer.p_email_uid p) db = false
        /\ JS.gtZero (Confirmer.coinsOf (Confirmer.amountString p)) = true
        /\ Confirmer.p_codeCandidate p = Some cand
        /\ Validator.normalizePhrase cand <> ""
        /\ topups db !! id = Some row
        /\ Confirmer.isActive (Confirmer.t_list clk) row = true
        /\ Validator.normalizePhrase (code row) = Validator.normalizePhrase cand
        /\ (forall id' row',
              topups db !! id' = Some row' ->
              Confirmer.isActive (Confirmer.t_list clk) row' = true ->
              Validator.normalizePhrase (code row') = Validator.normalizePhrase cand ->
              id' = id)
        /\ (Confirmer.t_check clk <= expiresAt row)%Z
        /\ (forall d, Confirmer.emailDate p = Some d -> (d <= expiresAt row + 300000)%Z)
        /\ Confirmer.isActive (Confirmer.t_reread clk) row = true
        /\ Confirmer.isActive (Confirmer.t_update clk) row = true
        /\ users db !! userId row = Some balance.
Proof.
  assert (Hgt : forall x, JS.gtZero x = true <-> JS.isNaN x || JS.leZero x = false).
  { intros [|[]|m e]; simpl; try (split; congruence).
    rewrite Z.ltb_lt, Z.leb_gt. tauto. }
  split.
  - intros Hs. apply confirm_success in Hs as (m & db' & Hc & Hb).
    pose proof (confirmChecks_inr _ _ _ _ Hc) as (Hacc & Hamt & Hnan & Hle & Hm & _ & Hexp & Hfut).
    pose proof (proj1 (findMatching_iff _ _ _ _ _) Hm) as (cand & Hcand & Hn & Hrow & Hact & Hph & Hu).
    pose proof (creditBody_cases clk m db Hrow) as Hcase. rewrite Hb in Hcase.
    destruct Hcase as (Hr & Hup & balance & Hbal & _).
    exists cand, (Confirmer.mt_id m), (Confirmer.mt_row m), balance.
    split; [done|]. split; [apply Hgt; by rewrite <- Hamt, Hnan, Hle|].
    repeat (split; [assumption|]).
    split; [by apply Z.ltb_ge in Hexp|]. split; [|done].
    intros d Hd. specialize (Hfut d Hd). apply Z.ltb_ge in Hfut. lia.
  - intros (cand & id & row & balance & Hacc & Hamt & Hcand & Hn & Hrow & Hact & Hph & Hu
            & Hexp & Hfut & Hr & Hup & Hbal).
    apply Hgt in Hamt.
    assert (Hm : Confirmer.m_topup
              (Confirmer.findMatchingTopupByPhrase (Confirmer.t_list clk) db
                 (Confirmer.p_codeCandidate p)) = Some (id, row)).
    { apply findMatching_iff. exists cand. auto 10. }
    assert (Hc := confirmChecks_complete p clk db id row Hacc Hamt Hm).
    rewrite (confirm_reaches _ _ _ _ (Hc ltac:(by apply Z.ltb_ge)
               ltac:(intros d Hd; specialize (Hfut d Hd); apply Z.ltb_ge; lia))).
    pose proof (creditBody_cases clk
      (Confirmer.mkMatched id row (Some (code row)) (Confirmer.coinsOf (Confirmer.amountString p)))
      db Hrow) as Hcase.
    unfold Confirmer.transaction.
    destruct (Confirmer.creditBody clk _ db) as [msg|db']; [|reflexivity].
    simpl in Hcase. destruct Hcase as [H|[H|H]]; congruence.
Qed.

(** X6: what [confirmTopupFromEmail] does to the tables.  It creates
    and deletes no topup and no user; a row of [topups] is left as it was
    unless the call succeeds on it, and then it was PENDING and becomes
    CONFIRMED with the credited amount, its user, code and dates kept;
    one balance is changed, that of the owner of the confirmed topup, and
    only in a successful call; settings and markers are untouched. *)
Theorem X6_confirm_table_changes (p : Confirmer.Params) (clk : Confirmer.Clock) (db : DB) :
  let out := Confirmer.confirmTopupFromEmail p clk db in
  let amt := Confirmer.coinsOf (Confirmer.amountString p) in
  (forall id, topups out.2 !! id = None <-> topups db !! id = None)
  /\ (forall id row row',
        topups db !! id = Some row -> topups out.2 !! id = Some row' ->
        row' = row
        \/ (Confirmer.success out.1.1 = true /\ Confirmer.topupId out.1.1 = Some id
            /\ status row = PENDING /\ row' = Confirmer.confirmedRow row amt))
  /\ (forall u, users out.2 !! u = None <-> users db !! u = None)
  /\ (forall u b b',
        users db !! u = Some b -> users out.2 !! u = Some b' ->
        b' = b
        \/ (Confirmer.success out.1.1 = true /\ Confirmer.c_userId out.1.1 = Some u
            /\ b' = sqlAdd b amt))
  /\ app_settings out.2 = app_settings db
  /\ mail_markers out.2 = mail_markers db.
Proof.
  cbv zeta. destruct (confirm_outcome p clk db) as [(Hs & Hdb & _)|(Hs & H)].
  - rewrite Hdb, logAll_topups, logAll_users, logAll_settings, logAll_markers.
    repeat split; try tauto; intros; left; congruence.
  - destruct H as (id & row & balance & e & Hrow & Hst & Hbal & Hid & Hu & _ & _ & _ & Hdb).
    rewrite Hdb, logPayment_topups, logPayment_users, logPayment_settings, logPayment_markers.
    simpl. split; [|split; [|split; [|split; [|done]]]].
    + intros id'. destruct (decide (id' = id)) as [->|Hne].
      * rewrite lookup_insert_eq, Hrow. split; discriminate.
      * by rewrite lookup_insert_ne.
    + intros id' r r' Hr Hr'. destruct (decide (id' = id)) as [->|Hne].
      * rewrite lookup_insert_eq in Hr'. right. split; [done|]. split; [done|].
        assert (r = row) as -> by congruence. split; [done|]. congruence.
      * rewrite lookup_insert_ne in Hr' by done. left. congruence.
    + intros u. destruct (decide (u = userId row)) as [->|Hne].
      * rewrite lookup_insert_eq, Hbal. split; discriminate.
      * by rewrite lookup_insert_ne.
    + intros u b b' Hb Hb'. destruct (decide (u = userId row)) as [->|Hne].
      * rewrite lookup_insert_eq in Hb'. right. split; [done|]. split; [done|]. congruence.
      * rewrite lookup_insert_ne in Hb' by done. left. congruence.
Qed.

(** ** The payment log *)

Section PaymentLog.

Import Validator Confirmer.

Lemma uidLogged_spec u rows :
  Logger.uidLogged u rows = true <-> u ∈ omap email_uid rows.
Proof.
  unfold Logger.uidLogged. induction rows as [|r rows IH]; simpl.
  - split; [discriminate|]. intros H. inversion H.
  - rewrite orb_true_iff, IH, bool_decide_eq_true.
    destruct (email_uid r) as [v|]; simpl.
    + rewrite elem_of_cons. split; intros [H|H]; auto; left; congruence.
    + split; [intros [H|H]; [discriminate|done]|auto].
Qed.

Lemma rowOf_uid e : email_uid (Logger.rowOf e) = email_uid e.
Proof. reflexivity. Qed.

Lemma rowOf_decision e : decision (Logger.rowOf e) = decision e.
Proof. reflexivity. Qed.

(** [logPayment] by cases: the row is dropped when a row carries its
    UID, and appended otherwise. *)
Lemma logPayment_cases e db :
  (exists u, email_uid e = Some u /\ Logger.uidLogged u (payment_logs db) = true
             /\ Logger.logPayment e db = db)
  \/ ((forall u, email_uid e = Some u -> Logger.uidLogged u (payment_logs db) = false)
      /\ Logger.logPayment e db
         = setPaymentLogs db (payment_logs db ++ [Logger.rowOf e])%list).
Proof.
  unfold Logger.logPayment. destruct (email_uid e) as [u|] eqn:Hu.
  - destruct (Logger.uidLogged u (payment_logs db)) eqn:Hl.
    + left. eauto.
    + right. split; [|done]. intros u' [= <-]. done.
  - right. split; [|done]. intros u' [=].
Qed.

Lemma acceptedLogged_app u db rows :
  acceptedLogged u (setPaymentLogs db (payment_logs db ++ rows)%list)
  = acceptedLogged u db
    || existsb (fun r => bool_decide (email_uid r = Some u) && bool_decide (decision r = ACCEPTED))
         rows.
Proof. unfold acceptedLogged. simpl. apply existsb_app. Qed.

(** Once a row carries a UID, no later entry changes what the log says
    of that UID. *)
Lemma logPayment_frozen u e db :
  Logger.uidLogged u (payment_logs db) = true ->
  acceptedLogged u (Logger.logPayment e db) = acceptedLogged u db
  /\ Logger.uidLogged u (payment_logs (Logger.logPayment e db)) = true.
Proof.
  intros Hu. destruct (logPayment_cases e db) as [(u' & _ & _ & ->)|[Hfresh ->]]; [done|].
  split.
  - rewrite acceptedLogged_app. simpl. rewrite orb_false_r.
    case_bool_decide as He; [|by rewrite orb_false_r].
    rewrite (Hfresh u He) in Hu. discriminate.
  - simpl. unfold Logger.uidLogged in *. rewrite existsb_app, Hu. reflexivity.
Qed.

Lemma logAll_frozen u es db :
  Logger.uidLogged u (payment_logs db) = true ->
  acceptedLogged u (Logger.logAll es db) = acceptedLogged u db
  /\ Logger.uidLogged u (payment_logs (Logger.logAll es db)) = true.
Proof.
  revert db. induction es as [|e es IH]; intros db Hu; [done|].
  destruct (logPayment_frozen u e db Hu) as [Ha Hl].
  change (Logger.logAll (e :: es) db) with (Logger.logAll es (Logger.logPayment e db)).
  destruct (IH _ Hl) as [Ha' Hl']. split; [congruence|done].
Qed.

(** The entries a call hands to [logPayment] before the transaction. *)
Lemma confirmChecks_logs p clk db r logs :
  confirmChecks p clk db = inl (r, logs) ->
  (acceptedLogged (p_email_uid p) db = true /\ logs = [])
  \/ (acceptedLogged (p_email_uid p) db = false
      /\ exists e, logs = [e] /\ email_uid e = Some (p_email_uid p)
                   /\ decision e <> ACCEPTED).
Proof.
  unfold confirmChecks.
  destruct (acceptedLogged _ _); [intros [= <- <-]; auto|].
  intros H. right. split; [done|]. revert H.
  destruct (JS.isNaN _ || JS.leZero _).
  { intros [= <- <-]. eexists. repeat split. discriminate. }
  destruct (m_topup _) as [[id t]|].
  2:{ intros [= <- <-]. eexists. repeat split.
      simpl. destruct (JS.includes _ _); discriminate. }
  destruct (negb (bool_decide (status t = PENDING))).
  { intros [= <- <-]. eexists. repeat split. discriminate. }
  destruct (expiresAt t <? t_check clk)%Z.
  { intros [= <- <-]. eexists. repeat split. discriminate. }
  destruct (emailDate p) as [d|]; [|discriminate].
  destruct (expiresAt t + 5 * 60 * 1000 <? d)%Z; [|discriminate].
  intros [= <- <-]. eexists. repeat split. discriminate.
Qed.

Lemma confirm_logs p clk db :
  let out := confirmTopupFromEmail p clk db in
  (acceptedLogged (p_email_uid p) db = true /\ out.1.2 = [] /\ out.2 = db)
  \/ (acceptedLogged (p_email_uid p) db = false
      /\ exists e db', out.1.2 = [e] /\ email_uid e = Some (p_email_uid p)
           /\ (decision e = ACCEPTED <-> success out.1.1 = true)
           /\ payment_logs db' = payment_logs db
           /\ out.2 = Logger.logPayment e db').
Proof.
  cbv zeta. destruct (confirmChecks p clk db) as [[r logs]|m] eqn:Hc.
  - rewrite (confirm_early _ _ _ _ _ Hc). simpl.
    pose proof (confirmChecks_inl _ _ _ _ _ Hc) as [Hs _].
    apply confirmChecks_logs in Hc as [[Ha ->]|(Ha & e & -> & Hu & Hd)]; [left; auto|].
    right. split; [done|]. exists e, db. repeat split; try done.
    rewrite Hs. discriminate.
  - rewrite (confirm_reaches _ _ _ _ Hc).
    pose proof (confirmChecks_inr _ _ _ _ Hc) as (Ha & _).
    pose proof (transaction_atomic clk m db) as Ht.
    right. split; [done|].
    destruct (transaction (creditBody clk m) db) as [[msg|] db'].
    + subst db'. eexists _, db. simpl.
      split; [reflexivity|]. split; [reflexivity|]. split; [split; discriminate|].
      split; reflexivity.
    + destruct Ht as (row & balance & _ & _ & ->). eexists _, _. simpl.
      split; [reflexivity|]. split; [reflexivity|]. split; [split; reflexivity|].
      split; [|reflexivity]. reflexivity.
Qed.

End PaymentLog.

(** X7: [logPayment] only ever appends.  The row is dropped when the
    entry has a UID that a stored row carries, the unique index refusing
    it and the error being swallowed; otherwise the row of the entry is
    added at the end.  Nothing else of the database changes, the stored
    UIDs stay pairwise different, and an entry with a UID logged twice is
    stored once. *)
Theorem X7_logPayment_append_only (e : LogEntry) (db : DB) :
  let db' := Logger.logPayment e db in
  ((exists u, email_uid e = Some u /\ u ∈ omap email_uid (payment_logs db))
   -> payment_logs db' = payment_logs db)
  /\ (~ (exists u, email_uid e = Some u /\ u ∈ omap email_uid (payment_logs db))
      -> payment_logs db' = (payment_logs db ++ [Logger.rowOf e])%list)
  /\ topups db' = topups db /\ users db' = users db
  /\ mail_markers db' = mail_markers db /\ app_settings db' = app_settings db
  /\ (NoDup (omap email_uid (payment_logs db)) ->
      NoDup (omap email_uid (payment_logs db')))
  /\ (email_uid e <> None -> Logger.logPayment e db' = db').
Proof.
  cbv zeta. rewrite logPayment_topups, logPayment_users, logPayment_markers,
    logPayment_settings.
  destruct (logPayment_cases e db) as [(u & Hu & Hl & ->)|[Hfresh ->]].
  - split; [done|]. split.
    { intros H. exfalso. apply H. exists u. split; [done|]. by apply uidLogged_spec. }
    repeat split; try done. intros _.
    unfold Logger.logPayment. by rewrite Hu, Hl.
  - split.
    { intros (u & Hu & Hin). apply uidLogged_spec in Hin.
      rewrite (Hfresh u Hu) in Hin. discriminate. }
    repeat split; try done.
    + assert (Ho : omap email_uid [Logger.rowOf e]
                   = match email_uid e with Some u => [u] | None => [] end).
      { cbn. by destruct (email_uid e). }
      cbn [payment_logs setPaymentLogs]. rewrite omap_app, Ho.
      destruct (email_uid e) as [u|] eqn:Hu; [|by rewrite app_nil_r].
      intros Hnd. apply NoDup_app. split; [done|]. split; [|apply NoDup_singleton].
      intros x Hx Hx'. apply list_elem_of_singleton in Hx' as ->.
      apply uidLogged_spec in Hx. rewrite (Hfresh u eq_refl) in Hx. discriminate.
    + intros Hne. destruct (email_uid e) as [u|] eqn:Hu; [|done].
      unfold Logger.logPayment. rewrite Hu. simpl.
      assert (Hl : Logger.uidLogged u (payment_logs db ++ [Logger.rowOf e])%list = true).
      { apply uidLogged_spec. rewrite omap_app. apply elem_of_app. right.
        cbn. rewrite Hu. left. }
      by rewrite Hl.
Qed.

(** X8: the first row stored for a UID decides what the idempotency
    check of the confirmer will ever find for it.  Once a row carries the
    UID, neither [logPayment] nor [confirmTopupFromEmail], whatever they
    are called with, changes whether an ACCEPTED row with that UID
    exists: the ACCEPTED entry of a credit whose UID was logged before
    with another decision is dropped. *)
Theorem X8_first_log_row_decides (u : string) (db : DB)
    (Hlogged : Logger.uidLogged u (payment_logs db) = true) :
  (forall e, Confirmer.acceptedLogged u (Logger.logPayment e db) = Confirmer.acceptedLogged u db)
  /\ (forall p clk,
        Confirmer.acceptedLogged u (Confirmer.confirmTopupFromEmail p clk db).2
        = Confirmer.acceptedLogged u db).
Proof.
  split.
  - intros e. by apply logPayment_frozen.
  - intros p clk. destruct (confirm_logs p clk db) as [(_ & _ & ->)|(_ & e & db' & _ & _ & _ & Hl & ->)];
      [done|].
    assert (Hl' : Logger.uidLogged u (payment_logs db') = true) by (by rewrite Hl).
    rewrite (proj1 (logPayment_frozen u e db' Hl')).
    unfold Confirmer.acceptedLogged. by rewrite Hl.
Qed.

(** X8 on the reef request: the first call for the message 1005
    carries the amount 0, is refused and stores a REJECTED row; the
    second call, with the amount 40, credits 40 coins, and the log still
    has no ACCEPTED row for 1005. *)
Lemma X8_witness :
  let db1 := (Confirmer.confirmTopupFromEmail (Fixture.payReef "0") (Fixture.at_ 1500000)
                Fixture.dbReef).2 in
  let out2 := Confirmer.confirmTopupFromEmail (Fixture.payReef "40") (Fixture.at_ 1500000) db1 in
  Confirmer.success out2.1.1 = true
  /\ Confirmer.acceptedLogged "1005" out2.2 = false.
Proof.
  cbv zeta. split; [vm_compute; reflexivity|].
  rewrite (proj2 (X8_first_log_row_decides "1005"
    (Confirmer.confirmTopupFromEmail (Fixture.payReef "0") (Fixture.at_ 1500000)
       Fixture.dbReef).2 ltac:(vm_compute; reflexivity))).
  vm_compute. reflexivity.
Defined.

(** X9: every call of [confirmTopupFromEmail] hands one entry to
    [logPayment], with the UID of the email, except the call that the
    idempotency check ends, which hands none and leaves the database as
    it is.  The entry has the decision ACCEPTED exactly when the call
    succeeds.  The log table grows by that row at most, at its end. *)
Theorem X9_confirm_log_entries (p : Confirmer.Params) (clk : Confirmer.Clock) (db : DB) :
  let out := Confirmer.confirmTopupFromEmail p clk db in
  (Confirmer.acceptedLogged (Confirmer.p_email_uid p) db = true
   -> out.1.2 = [] /\ out.2 = db /\ Confirmer.success out.1.1 = false)
  /\ (Confirmer.acceptedLogged (Confirmer.p_email_uid p) db = false
      -> exists e, out.1.2 = [e]
           /\ email_uid e = Some (Confirmer.p_email_uid p)
           /\ (decision e = ACCEPTED <-> Confirmer.success out.1.1 = true)
           /\ (payment_logs out.2 = payment_logs db
               \/ payment_logs out.2 = (payment_logs db ++ [Logger.rowOf e])%list)).
Proof.
  cbv zeta. split.
  - intros Ha. rewrite (confirm_gate _ _ _ Ha). auto.
  - intros Ha. destruct (confirm_logs p clk db) as [(Ha' & _)|(_ & e & db' & Hl & Hu & Hd & Hp & Hdb)];
      [congruence|].
    exists e. repeat (split; [assumption|]). rewrite Hdb.
    destruct (logPayment_cases e db') as [(u & _ & _ & ->)|[_ ->]]; [by left|].
    right. simpl. by rewrite Hp.
Qed.

(** ** Settings and markers *)

Section Numerals.

Import Text.

Lemma pretty_N_char_digit y :
  (y < 10)%N ->
  JS.isDigit (pretty_N_char y) = true /\ JS.digitVal (pretty_N_char y) = Z.of_N y
  /\ Ascii.eqb ":" (pretty_N_char y) = false.
Proof.
  intros Hy.
  assert (y = 0 \/ y = 1 \/ y = 2 \/ y = 3 \/ y = 4 \/ y = 5 \/ y = 6 \/ y = 7
          \/ y = 8 \/ y = 9)%N as H by lia.
  destruct H as [->|[->|[->|[->|[->|[->|[->|[->|[->| ->]]]]]]]]]; repeat split.
Qed.

Lemma readDigits_digit acc c s :
  JS.isDigit c = true ->
  JS.readDigits acc (String c s)
  = (let '(v, n, r) := JS.readDigits (10 * acc + JS.digitVal c) s in (v, S n, r)).
Proof. intros H. simpl. by rewrite H. Qed.

(** Reading back the digits that [pretty] wrote. *)
Lemma readDigits_pretty_go x :
  exists k : nat,
    ((0 < x)%N -> (0 < k)%nat)
    /\ forall s acc,
         JS.readDigits acc (pretty_N_go x s)
         = (let '(v, n, r) := JS.readDigits (acc * 10 ^ Z.of_nat k + Z.of_N x) s in
            (v, (n + k)%nat, r)).
Proof.
  induction (N.lt_wf_0 x) as [x _ IH].
  assert (x = 0 \/ 0 < x)%N as [->|Hpos] by lia.
  - exists 0%nat. split; [lia|]. intros s acc. rewrite pretty_N_go_0.
    replace (acc * 10 ^ Z.of_nat 0 + Z.of_N 0)%Z with acc by (simpl; lia).
    destruct (JS.readDigits acc s) as [[v n] r]. by rewrite Nat.add_0_r.
  - destruct (IH (x `div` 10)%N) as (k & _ & Hk); [by apply N.div_lt|].
    exists (S k). split; [lia|]. intros s acc.
    rewrite pretty_N_go_step by done. rewrite Hk.
    destruct (pretty_N_char_digit (x `mod` 10)%N) as (Hd & Hv & _);
      [by apply N.mod_lt|].
    rewrite (readDigits_digit _ _ _ Hd), Hv.
    replace (10 * (acc * 10 ^ Z.of_nat k + Z.of_N (x `div` 10)) + Z.of_N (x `mod` 10))%Z
      with (acc * 10 ^ Z.of_nat (S k) + Z.of_N x)%Z.
    + destruct (JS.readDigits _ s) as [[v n] r]. by rewrite Nat.add_succ_r.
    + rewrite Nat2Z.inj_succ, Z.pow_succ_r by lia.
      rewrite N2Z.inj_div, N2Z.inj_mod.
      pose proof (Z.div_mod (Z.of_N x) 10 ltac:(lia)). lia.
Qed.

Lemma readDigits_pretty (x : N) :
  (0 < x)%N ->
  exists k, (0 < k)%nat /\ JS.readDigits 0 (pretty_N_go x "") = (Z.of_N x, k, "").
Proof.
  intros Hx. destruct (readDigits_pretty_go x) as (k & Hk & H).
  exists k. split; [auto|]. rewrite H. simpl. repeat f_equal; lia.
Qed.

Lemma digit_plain c :
  JS.isDigit c = true ->
  forall r, JS.parseInt (String c r)
            = (let '(v, n, _) := JS.readDigits 0 (String c r) in
               match n with O => None | _ => Some v end).
Proof.
  destruct c as [[] [] [] [] [] [] [] []]; try discriminate; intros _ r; reflexivity.
Qed.

Lemma pretty_pos_unfold p : pretty (Z.pos p) = pretty_N_go (N.pos p) "".
Proof. reflexivity. Qed.

Lemma pretty_neg_unfold p : pretty (Z.neg p) = String "-" (pretty_N_go (N.pos p) "").
Proof. reflexivity. Qed.

(** [parseInt] reads back what [String] wrote for an integer. *)
Lemma parseInt_showZ z : JS.parseInt (JS.showZ z) = Some z.
Proof.
  unfold JS.showZ. destruct z as [|p|p].
  - reflexivity.
  - rewrite pretty_pos_unfold.
    destruct (readDigits_pretty (N.pos p)) as (k & Hk & H); [lia|].
    destruct (pretty_N_go (N.pos p) "") as [|c r] eqn:Hs.
    { apply (f_equal (fun x => x.1.2)) in H. simpl in H. lia. }
    assert (Hd : JS.isDigit c = true).
    { simpl in H. destruct (JS.isDigit c); [done|].
      apply (f_equal (fun x => x.1.2)) in H. simpl in H. lia. }
    rewrite (digit_plain c Hd), H. destruct k; [lia|]. reflexivity.
  - rewrite pretty_neg_unfold.
    destruct (readDigits_pretty (N.pos p)) as (k & Hk & H); [lia|].
    unfold JS.parseInt.
    change (JS.trimStart (String "-" (pretty_N_go (N.pos p) "")))
      with (String "-" (pretty_N_go (N.pos p) "")).
    cbv iota beta. rewrite H. destruct k; [lia|]. reflexivity.
Qed.

Lemma hasChar_pretty_go x s : hasChar ":" (pretty_N_go x s) = hasChar ":" s.
Proof.
  revert s. induction (N.lt_wf_0 x) as [x _ IH]; intros s.
  assert (x = 0 \/ 0 < x)%N as [->|Hpos] by lia.
  - by rewrite pretty_N_go_0.
  - rewrite pretty_N_go_step by done. rewrite IH by (by apply N.div_lt).
    destruct (pretty_N_char_digit (x `mod` 10)%N) as (_ & _ & Hc); [by apply N.mod_lt|].
    cbn [hasChar]. by rewrite Hc.
Qed.

(** The decimal of an integer has no colon. *)
Lemma hasChar_showZ z : hasChar ":" (JS.showZ z) = false.
Proof.
  unfold JS.showZ. destruct z as [|p|p].
  - reflexivity.
  - rewrite pretty_pos_unfold. apply hasChar_pretty_go.
  - rewrite pretty_neg_unfold. simpl. apply hasChar_pretty_go.
Qed.

Lemma showZ_nonempty z : JS.truthy (JS.showZ z) = true.
Proof.
  pose proof (parseInt_showZ z) as H. destruct (JS.showZ z); [discriminate|reflexivity].
Qed.

Lemma hasChar_app c a b : hasChar c (a ++ b) = hasChar c a || hasChar c b.
Proof. induction a as [|d r IH]; simpl; [reflexivity|]. by rewrite IH, orb_assoc. Qed.

Lemma append_nil x : "" ++ x = x.
Proof. reflexivity. Qed.

Lemma append_cons c r x : String c r ++ x = String c (r ++ x).
Proof. reflexivity. Qed.

(** The key of a marker determines the mailbox and the UID, when the
    UIDs have no colon. *)
Lemma markerKey_inj mb mb' u u' :
  hasChar ":" u = false -> hasChar ":" u' = false ->
  Poller.markerKey mb u = Poller.markerKey mb' u' -> mb = mb' /\ u = u'.
Proof.
  unfold Poller.markerKey. intros Hu Hu'.
  change (":" ++ u) with (String ":" u). change (":" ++ u') with (String ":" u').
  assert (Hcolon : forall r x, hasChar ":" (r ++ String ":" x) = true).
  { intros r x. rewrite hasChar_app. cbn [hasChar]. apply orb_true_r. }
  revert mb'.
  induction mb as [|c r IH]; intros [|c' r'];
    rewrite ?append_nil, ?append_cons.
  - intros [= ->]. done.
  - intros [= <- ->]. by rewrite Hcolon in Hu.
  - intros [= -> <-]. by rewrite Hcolon in Hu'.
  - intros [= -> H]. destruct (IH _ H) as [-> ->]. done.
Qed.

End Numerals.

Section Markers.

Import Text Poller.

Lemma markerExists_spec db mb uid :
  markerExists db mb uid = true <-> markerKey mb uid ∈ mail_markers db.
Proof. unfold markerExists. apply bool_decide_eq_true. Qed.

Lemma markerKey_showZ_inj mb mb' a b :
  markerKey mb (JS.showZ a) = markerKey mb' (JS.showZ b) -> mb = mb' /\ a = b.
Proof.
  intros H. apply markerKey_inj in H as [-> H]; try apply hasChar_showZ.
  split; [done|]. unfold JS.showZ in H. by apply pretty_Z_inj in H.
Qed.

Lemma getStartUid_setStartUid db n : getStartUid (setStartUid db n) = Some (Some n).
Proof.
  unfold getStartUid, setStartUid, getSetting, setSetting. simpl.
  rewrite lookup_insert_eq, showZ_nonempty, parseInt_showZ. reflexivity.
Qed.

End Markers.

(** X10: the marker table.  [markProcessed] reports whether it
    inserted the marker, after it [markerExists] finds the marker of that
    mailbox and UID, a second [markProcessed] inserts nothing, and the
    answer of [markerExists] for every other mailbox or UID is as before:
    the keys of two markers are equal only when the mailboxes and the
    UIDs are.  Nothing but the marker table changes. *)
Theorem X10_marker_round_trip (db : DB) (mailbox : string) (uid : Z) :
  let r := Poller.markProcessed db mailbox (JS.showZ uid) in
  r.1 = negb (Poller.markerExists db mailbox (JS.showZ uid))
  /\ Poller.markerExists r.2 mailbox (JS.showZ uid) = true
  /\ Poller.markProcessed r.2 mailbox (JS.showZ uid) = (false, r.2)
  /\ (forall mailbox' uid',
        (mailbox', uid') <> (mailbox, uid) ->
        Poller.markerExists r.2 mailbox' (JS.showZ uid')
        = Poller.markerExists db mailbox' (JS.showZ uid'))
  /\ topups r.2 = topups db /\ users r.2 = users db
  /\ payment_logs r.2 = payment_logs db /\ app_settings r.2 = app_settings db.
Proof.
  cbv zeta.
  assert (Hm := markProcessed_markers db mailbox (JS.showZ uid)).
  split; [|split; [|split; [|split]]].
  - unfold Poller.markProcessed, Poller.markerExists. by case_bool_decide.
  - apply markerExists_spec. rewrite Hm. apply elem_of_union. left.
    by apply elem_of_singleton.
  - unfold Poller.markProcessed at 1.
    rewrite bool_decide_eq_true_2; [done|]. rewrite Hm. apply elem_of_union. left.
    by apply elem_of_singleton.
  - intros mb' uid' Hne. unfold Poller.markerExists. rewrite Hm.
    apply bool_decide_ext. rewrite elem_of_union, elem_of_singleton.
    split; [|auto]. intros [H|H]; [|done].
    apply markerKey_showZ_inj in H as [-> ->]. done.
  - unfold Poller.markProcessed. by case_bool_decide.
Qed.

(** X11: the stored watermark.  [getStartUid] reads back the number
    that [setStartUid] wrote, for every integer; the last of two writes
    is the one kept; the other settings and the other tables are
    untouched; and where nothing was stored, [getStartUid] returns
    null. *)
Theorem X11_start_uid_round_trip (db : DB) (m n : Z) :
  Poller.getStartUid (Poller.setStartUid db n) = Some (Some n)
  /\ Poller.setStartUid (Poller.setStartUid db m) n = Poller.setStartUid db n
  /\ (forall key defaultValue,
        key <> "gmail_start_uid" ->
        Poller.getSetting (Poller.setStartUid db n) key defaultValue
        = Poller.getSetting db key defaultValue)
  /\ topups (Poller.setStartUid db n) = topups db
  /\ users (Poller.setStartUid db n) = users db
  /\ payment_logs (Poller.setStartUid db n) = payment_logs db
  /\ mail_markers (Poller.setStartUid db n) = mail_markers db
  /\ (app_settings db !! "gmail_start_uid" = None -> Poller.getStartUid db = None).
Proof.
  split; [apply getStartUid_setStartUid|]. split.
  { unfold Poller.setStartUid, Poller.setSetting. simpl. by rewrite insert_insert_eq. }
  split.
  { intros key d Hne. unfold Poller.getSetting, Poller.setStartUid, Poller.setSetting. simpl.
    by rewrite lookup_insert_ne. }
  repeat split. intros H. unfold Poller.getStartUid, Poller.getSetting. by rewrite H.
Qed.

(** ** Opening the mailbox and the start of the search *)

Section Opening.

Import Poller.

(** [openFrom] on any list of names. *)
Lemma openFrom_spec names open db :
  match openFrom names open db with
  | None => forall mb, mb ∈ names -> open mb = None
  | Some (mb, db') =>
      exists pre post uidNext,
        names = (pre ++ mb :: post)%list
        /\ (forall x, x ∈ pre -> open x = None)
        /\ open mb = Some uidNext
        /\ db' = match uidNext, getStartUid db with
                 | Some n, None => if (0 <? n)%Z then setStartUid db n else db
                 | _, _ => db
                 end
  end.
Proof.
  induction names as [|mb names IH]; simpl.
  - intros mb H. inversion H.
  - destruct (open mb) as [uidNext|] eqn:Ho.
    + assert (Hgoal : forall db',
        db' = match uidNext, getStartUid db with
              | Some n, None => if (0 <? n)%Z then setStartUid db n else db
              | _, _ => db
              end ->
        exists pre post uidNext0,
          (mb :: names = pre ++ mb :: post)%list
          /\ (forall x, x ∈ pre -> open x = None)
          /\ open mb = Some uidNext0
          /\ db' = match uidNext0, getStartUid db with
                   | Some n, None => if (0 <? n)%Z then setStartUid db n else db
                   | _, _ => db
                   end).
      { intros db' ->. exists [], names, uidNext. split; [done|]. split; [|done].
        intros x Hx. inversion Hx. }
      destruct uidNext as [n|]; [|by apply Hgoal].
      destruct (getStartUid db); [by apply Hgoal|].
      destruct (0 <? n)%Z eqn:Hn; apply Hgoal; by rewrite ?Hn.
    + destruct (openFrom names open db) as [[mb' db']|].
      * destruct IH as (pre & post & uidNext & -> & Hpre & Hmb & Hdb).
        exists (mb :: pre), post, uidNext. split; [done|]. split; [|done].
        intros x Hx. apply elem_of_cons in Hx as [->|Hx]; auto.
      * intros x Hx. apply elem_of_cons in Hx as [->|Hx]; auto.
Qed.

Lemma open_keeps names open db mb db' :
  openFrom names open db = Some (mb, db') ->
  topups db' = topups db /\ users db' = users db
  /\ payment_logs db' = payment_logs db /\ mail_markers db' = mail_markers db
  /\ (forall key d, key <> "gmail_start_uid" -> getSetting db' key d = getSetting db key d).
Proof.
  intros H. pose proof (openFrom_spec names open db) as Hs. rewrite H in Hs.
  destruct Hs as (_ & _ & uidNext & _ & _ & _ & ->).
  destruct uidNext as [n|]; [|done]. destruct (getStartUid db); [done|].
  destruct (0 <? n)%Z; [|done]. repeat split.
  intros key d Hne. unfold getSetting, setStartUid, setSetting. simpl.
  by rewrite lookup_insert_ne.
Qed.

(** The smallest armed UIDNEXT among the PENDING rows of a list. *)
Lemma minArmed_list (l : list (Z * TopupRow)) :
  match foldr (fun (p : Z * TopupRow) (acc : option Z) =>
                 match armed_uidnext p.2 with
                 | Some a =>
                     if bool_decide (status p.2 = PENDING)
                     then match acc with Some b => Some (Z.min a b) | None => Some a end
                     else acc
                 | None => acc
                 end) None l with
  | Some a =>
      (exists p, p ∈ l /\ status p.2 = PENDING /\ armed_uidnext p.2 = Some a)
      /\ forall p b, p ∈ l -> status p.2 = PENDING -> armed_uidnext p.2 = Some b -> (a <= b)%Z
  | None => forall p, p ∈ l -> status p.2 = PENDING -> armed_uidnext p.2 = None
  end.
Proof.
  induction l as [|q l IH]; simpl.
  - intros p H. inversion H.
  - destruct (armed_uidnext q.2) as [a|] eqn:Ha.
    + case_bool_decide as Hs.
      * destruct (foldr _ None l) as [b|].
        -- destruct IH as ((p & Hp & Hps & Hpa) & Hmin). split.
           ++ destruct (Z.min_spec a b) as [[_ ->]|[_ ->]].
              ** exists q. split; [left|]. done.
              ** exists p. split; [by right|]. done.
           ++ intros p' b' Hp' Hs' Ha'. apply elem_of_cons in Hp' as [->|Hp'].
              ** assert (b' = a) by congruence. lia.
              ** specialize (Hmin p' b' Hp' Hs' Ha'). lia.
        -- split.
           ++ exists q. split; [left|]. done.
           ++ intros p' b' Hp' Hs' Ha'. apply elem_of_cons in Hp' as [->|Hp'].
              ** assert (b' = a) by congruence. lia.
              ** rewrite (IH p' Hp' Hs') in Ha'. discriminate.
      * destruct (foldr _ None l) as [b|].
        -- destruct IH as ((p & Hp & Hps & Hpa) & Hmin). split.
           ++ exists p. split; [by right|]. done.
           ++ intros p' b' Hp' Hs' Ha'. apply elem_of_cons in Hp' as [->|Hp']; [done|].
              by apply (Hmin p' b').
        -- intros p' Hp' Hs'. apply elem_of_cons in Hp' as [->|Hp']; [done|]. by apply IH.
    + destruct (foldr _ None l) as [b|].
      * destruct IH as ((p & Hp & Hps & Hpa) & Hmin). split.
        -- exists p. split; [by right|]. done.
        -- intros p' b' Hp' Hs' Ha'. apply elem_of_cons in Hp' as [->|Hp']; [congruence|].
           by apply (Hmin p' b').
      * intros p' Hp' Hs'. apply elem_of_cons in Hp' as [->|Hp']; [done|]. by apply IH.
Qed.

Lemma minArmed_spec db :
  match minArmed db with
  | Some a =>
      (exists id t, topups db !! id = Some t /\ status t = PENDING
                    /\ armed_uidnext t = Some a)
      /\ forall id t b, topups db !! id = Some t -> status t = PENDING ->
                        armed_uidnext t = Some b -> (a <= b)%Z
  | None =>
      forall id t, topups db !! id = Some t -> status t = PENDING ->
                   armed_uidnext t = None
  end.
Proof.
  unfold minArmed. pose proof (minArmed_list (map_to_list (topups db))) as H.
  destruct (foldr _ None _) as [a|].
  - destruct H as (([id t] & Hp & Hs & Ha) & Hmin). split.
    + exists id, t. by apply elem_of_map_to_list in Hp.
    + intros id' t' b Hrow Hs' Ha'. apply (Hmin (id', t') b); [|done..].
      by apply elem_of_map_to_list.
  - intros id t Hrow Hs. apply (H (id, t)); [|done]. by apply elem_of_map_to_list.
Qed.

Lemma minArmed_topups db db' : topups db' = topups db -> minArmed db' = minArmed db.
Proof. unfold minArmed. by intros ->. Qed.

End Opening.

(** X12: [openMailboxWithFallback] opens the first of the names INBOX,
    [Gmail]/All Mail, [Google Mail]/All Mail and All Mail that can be
    opened, and fails when none can.  It writes the start UID only when
    none is stored and the mailbox reports a UIDNEXT above zero, and then
    [getStartUid] returns that UIDNEXT; a stored start UID is never
    replaced; nothing else of the database changes. *)
Theorem X12_open_first_mailbox (open : string -> option (option Z)) (db : DB) :
  match Poller.openMailboxWithFallback open db with
  | None => forall mb, mb ∈ Poller.mailboxes -> open mb = None
  | Some (mb, db') =>
      (exists pre post,
         Poller.mailboxes = (pre ++ mb :: post)%list
         /\ (forall x, x ∈ pre -> open x = None)
         /\ open mb <> None)
      /\ (Poller.getStartUid db <> None -> db' = db)
      /\ (Poller.getStartUid db = None ->
          forall n, open mb = Some (Some n) ->
            if (0 <? n)%Z then Poller.getStartUid db' = Some (Some n) else db' = db)
      /\ (open mb = Some None -> db' = db)
      /\ topups db' = topups db /\ users db' = users db
      /\ payment_logs db' = payment_logs db /\ mail_markers db' = mail_markers db
      /\ forall key d, key <> "gmail_start_uid" ->
           Poller.getSetting db' key d = Poller.getSetting db key d
  end.
Proof.
  unfold Poller.openMailboxWithFallback.
  pose proof (openFrom_spec Poller.mailboxes open db) as H.
  destruct (Poller.openFrom Poller.mailboxes open db) as [[mb db']|] eqn:Ho; [|exact H].
  pose proof (open_keeps _ _ _ _ _ Ho) as Hk.
  destruct H as (pre & post & uidNext & Hnames & Hpre & Hmb & Hdb).
  split; [exists pre, post; rewrite Hmb; done|].
  split; [|split; [|split; [|exact Hk]]].
  - intros Hs. rewrite Hdb. destruct uidNext; [|done].
    by destruct (Poller.getStartUid db).
  - intros Hs n Hn. rewrite Hmb in Hn. injection Hn as ->. rewrite Hs in Hdb.
    destruct (0 <? n)%Z; [|done]. rewrite Hdb. apply getStartUid_setStartUid.
  - intros Hn. rewrite Hmb in Hn. injection Hn as ->. done.
Qed.

(** X13: the start of the search, [MIN(armed_uidnext)] over the PENDING
    topups, is the armed UIDNEXT of some PENDING topup and is at most
    that of every PENDING topup that has one; it is null exactly when no
    PENDING topup has an armed UIDNEXT.  Rows that are CONFIRMED or
    EXPIRED do not enter it. *)
Theorem X13_minArmed_is_minimum (db : DB) :
  match Poller.minArmed db with
  | Some a =>
      (exists id t, topups db !! id = Some t /\ status t = PENDING
                    /\ armed_uidnext t = Some a)
      /\ forall id t b, topups db !! id = Some t -> status t = PENDING ->
                        armed_uidnext t = Some b -> (a <= b)%Z
  | None =>
      forall id t, topups db !! id = Some t -> status t = PENDING ->
                   armed_uidnext t = None
  end.
Proof. apply minArmed_spec. Qed.

(** ** A scan pass: which messages it hands to the extractor and to the
    confirmer *)

Section PassCalls.

Import Validator Confirmer Poller.

Lemma markerExists_mono db db' mb uid :
  mail_markers db ⊆ mail_markers db' ->
  markerExists db' mb uid = false -> markerExists db mb uid = false.
Proof.
  unfold markerExists. intros Hsub H. apply bool_decide_eq_false in H.
  apply bool_decide_eq_false. intros Hin. apply H, Hsub, Hin.
Qed.

Lemma markerExists_mono_true db db' mb uid :
  mail_markers db ⊆ mail_markers db' ->
  markerExists db mb uid = true -> markerExists db' mb uid = true.
Proof.
  unfold markerExists. intros Hsub H. apply bool_decide_eq_true in H.
  apply bool_decide_eq_true. apply Hsub, H.
Qed.

Lemma bookkeeping_marked mb uid m st :
  markerExists (w_db (world (bookkeeping mb uid m st))) mb uid = true.
Proof.
  apply markerExists_spec. rewrite bookkeeping_marks. apply elem_of_union. left.
  by apply elem_of_singleton.
Qed.

(** One iteration either calls nobody, or calls the extractor for a
    message at or above the start that has no marker, and then possibly
    the confirmer, after which the marker is there. *)
Lemma processMessage_calls mb s m st :
  let st' := processMessage mb s m st in
  (parseCalls (world st') = parseCalls (world st)
   /\ confirmCalls (world st') = confirmCalls (world st))
  \/ ((s <= uidNum m)%Z
      /\ markerExists (w_db (world st)) mb (JS.showZ (uidNum m)) = false
      /\ parseCalls (world st') = uidNum m :: parseCalls (world st)
      /\ (confirmCalls (world st') = confirmCalls (world st)
          \/ (confirmCalls (world st') = uidNum m :: confirmCalls (world st)
              /\ markerExists (w_db (world st')) mb (JS.showZ (uidNum m)) = true))).
Proof.
  cbv zeta. unfold processMessage.
  destruct (Z.ltb_spec (uidNum m) s) as [Hlt|Hge]; [by left|].
  destruct (markerExists _ _ _) eqn:Hmark; [by left|].
  destruct (fetch m) as [e|subj|src subj date].
  - left. done.
  - left. unfold flagSeen. by destruct (flagOk m).
  - right. split; [done|]. split; [done|].
    destruct (parse m) as [e|d].
    + unfold flagSeen. destruct (flagOk m); simpl; auto.
    + destruct (validatePayment d _ _ _) as [v logs].
      destruct (negb (valid v)).
      * unfold flagAndMark, flagSeen. destruct (flagOk m); simpl; auto.
      * destruct (confirmTopupFromEmail _ _ _) as [[c l] db3].
        destruct (success c); (split; [|right; split; [|apply bookkeeping_marked]]);
          unfold bookkeeping, flagAndMark, flagSeen; destruct (flagOk m); reflexivity.
Qed.

Lemma loop_markers mb s uids st :
  mail_markers (w_db (world st))
  ⊆ mail_markers (w_db (world (fold_left (fun st m => processMessage mb s m st) uids st))).
Proof.
  revert st. induction uids as [|m uids IH]; intros st; simpl; [done|].
  etransitivity; [apply processMessage_markers|apply IH].
Qed.

(** The loop of a pass: the calls it adds. *)
Lemma loop_calls mb s uids st :
  let st' := fold_left (fun st m => processMessage mb s m st) uids st in
  exists newP newC,
    parseCalls (world st') = (newP ++ parseCalls (world st))%list
    /\ confirmCalls (world st') = (newC ++ confirmCalls (world st))%list
    /\ (forall u, u ∈ newC -> u ∈ newP)
    /\ NoDup newC
    /\ (forall u, u ∈ newP ->
          (s <= u)%Z /\ u ∈ uidNum <$> uids
          /\ markerExists (w_db (world st)) mb (JS.showZ u) = false)
    /\ (forall u, u ∈ newC -> markerExists (w_db (world st')) mb (JS.showZ u) = true).
Proof.
  revert st. induction uids as [|m uids IH]; intros st; cbv zeta.
  { exists [], []. simpl. split; [done|]. split; [done|].
    split; [intros u Hu; inversion Hu|]. split; [apply NoDup_nil_2|].
    split; intros u Hu; inversion Hu. }
  simpl fold_left.
  set (st1 := processMessage mb s m st).
  destruct (IH st1) as (newP & newC & HP & HC & Hsub & Hnd & Hel & Hmk).
  pose proof (processMessage_markers mb s m st) as Hmono. fold st1 in Hmono.
  assert (Hold : forall u, u ∈ newP ->
            (s <= u)%Z /\ u ∈ uidNum <$> m :: uids
            /\ markerExists (w_db (world st)) mb (JS.showZ u) = false).
  { intros u Hu. destruct (Hel u Hu) as (H1 & H2 & H3). split; [done|]. split.
    - rewrite fmap_cons. by right.
    - by apply (markerExists_mono _ _ _ _ Hmono). }
  destruct (processMessage_calls mb s m st) as [[Hp Hc]|(Hge & Hno & Hp & Hc)];
    fold st1 in Hp, Hc.
  - exists newP, newC. rewrite HP, HC, Hp, Hc.
    split; [done|]. split; [done|]. split; [done|]. split; [done|].
    split; [exact Hold|exact Hmk].
  - assert (Hnew : forall u, u ∈ (newP ++ [uidNum m])%list ->
              (s <= u)%Z /\ u ∈ uidNum <$> m :: uids
              /\ markerExists (w_db (world st)) mb (JS.showZ u) = false).
    { intros u Hu. apply elem_of_app in Hu as [Hu|Hu]; [by apply Hold|].
      apply list_elem_of_singleton in Hu as ->. split; [done|]. split; [|done].
      rewrite fmap_cons. left. }
    destruct Hc as [Hc|[Hc Hmark]].
    + exists (newP ++ [uidNum m])%list, newC. rewrite HP, HC, Hp, Hc.
      split; [by rewrite <- app_assoc|]. split; [done|].
      split; [intros u Hu; apply elem_of_app; left; by apply Hsub|].
      split; [done|]. split; [exact Hnew|exact Hmk].
    + exists (newP ++ [uidNum m])%list, (newC ++ [uidNum m])%list.
      rewrite HP, HC, Hp, Hc.
      split; [by rewrite <- app_assoc|]. split; [by rewrite <- app_assoc|].
      split.
      { intros u Hu. apply elem_of_app in Hu as [Hu|Hu]; apply elem_of_app; auto. }
      split.
      { apply NoDup_app. split; [done|]. split; [|apply NoDup_singleton].
        intros u Hu Hu'. apply list_elem_of_singleton in Hu' as ->.
        destruct (Hel _ (Hsub _ Hu)) as (_ & _ & Habs). congruence. }
      split; [exact Hnew|].
      intros u Hu. apply elem_of_app in Hu as [Hu|Hu]; [by apply Hmk|].
      apply list_elem_of_singleton in Hu as ->.
      eapply markerExists_mono_true; [apply loop_markers|exact Hmark].
Qed.

Lemma elem_of_search debugMode startUid seen msgs m :
  m ∈ search debugMode startUid seen msgs ->
  m ∈ msgs /\ (debugMode = true \/ uidNum m ∉ seen).
Proof.
  unfold search. destruct (maxUid msgs); [|intros H; inversion H].
  rewrite list_elem_of_filter. tauto.
Qed.

Lemma debugModeOf_open names open db mb db1 :
  openFrom names open db = Some (mb, db1) -> debugModeOf db1 = debugModeOf db.
Proof.
  intros H. apply open_keeps in H as (_ & _ & _ & _ & H).
  unfold debugModeOf. by rewrite H.
Qed.

Lemma setStartUid_markers db n : mail_markers (setStartUid db n) = mail_markers db.
Proof. reflexivity. Qed.

(** The calls a pass adds, the messages they are for, and the markers
    before and after. *)
Lemma pass_calls env w :
  let out := processEmails env w in
  exists newP newC,
    parseCalls out.2 = (newP ++ parseCalls w)%list
    /\ confirmCalls out.2 = (newC ++ confirmCalls w)%list
    /\ (forall u, u ∈ newC -> u ∈ newP)
    /\ NoDup newC
    /\ (forall u, u ∈ newP ->
          exists mb db1 s,
            openMailboxWithFallback (mailboxOpen env) (w_db w) = Some (mb, db1)
            /\ minArmed (w_db w) = Some s /\ (s <= u)%Z
            /\ (exists m, m ∈ inbox env /\ uidNum m = u
                          /\ (debugModeOf (w_db w) = true \/ u ∉ w_seen w))
            /\ markerExists (w_db w) mb (JS.showZ u) = false)
    /\ (forall u, u ∈ newC ->
          exists mb db1,
            openMailboxWithFallback (mailboxOpen env) (w_db w) = Some (mb, db1)
            /\ markerExists (w_db out.2) mb (JS.showZ u) = true)
    /\ mail_markers (w_db w) ⊆ mail_markers (w_db out.2).
Proof.
  cbv zeta.
  assert (Hnone : forall w' : World,
            parseCalls w' = parseCalls w -> confirmCalls w' = confirmCalls w ->
            mail_markers (w_db w) ⊆ mail_markers (w_db w') ->
            exists newP newC,
              parseCalls w' = (newP ++ parseCalls w)%list
              /\ confirmCalls w' = (newC ++ confirmCalls w)%list
              /\ (forall u, u ∈ newC -> u ∈ newP)
              /\ NoDup newC
              /\ (forall u, u ∈ newP ->
                    exists mb db1 s,
                      openMailboxWithFallback (mailboxOpen env) (w_db w) = Some (mb, db1)
                      /\ minArmed (w_db w) = Some s /\ (s <= u)%Z
                      /\ (exists m, m ∈ inbox env /\ uidNum m = u
                                    /\ (debugModeOf (w_db w) = true \/ u ∉ w_seen w))
                      /\ markerExists (w_db w) mb (JS.showZ u) = false)
              /\ (forall u, u ∈ newC ->
                    exists mb db1,
                      openMailboxWithFallback (mailboxOpen env) (w_db w) = Some (mb, db1)
                      /\ markerExists (w_db w') mb (JS.showZ u) = true)
              /\ mail_markers (w_db w) ⊆ mail_markers (w_db w')).
  { intros w' Hp Hc Hm. exists [], []. split; [done|]. split; [done|].
    split; [intros u Hu; inversion Hu|]. split; [apply NoDup_nil_2|].
    split; [intros u Hu; inversion Hu|]. split; [intros u Hu; inversion Hu|done]. }
  unfold processEmails.
  destruct (openMailboxWithFallback (mailboxOpen env) (w_db w)) as [[mb db1]|] eqn:Ho.
  2:{ apply Hnone; [done|done|simpl; by rewrite ?logPayment_markers]. }
  pose proof (open_keeps _ _ _ _ _ Ho) as (Ht & _ & _ & Hmk & _).
  pose proof (debugModeOf_open _ _ _ _ _ Ho) as Hdbg.
  rewrite (minArmed_topups _ _ Ht).
  destruct (minArmed (w_db w)) as [s|] eqn:Hmin.
  2:{ apply Hnone; [done|done|simpl; by rewrite ?Hmk]. }
  cbv zeta. destruct (searchError env) as [e|].
  { apply Hnone; [done|done|simpl; by rewrite ?logPayment_markers, ?Hmk]. }
  set (uids := search (debugModeOf db1) s (w_seen (setDb w db1)) (inbox env)).
  destruct (Nat.eqb (length uids) 0).
  { apply Hnone; [done|done|simpl; by rewrite ?Hmk]. }
  set (st0 := mkLoopState (setDb w db1) 0 0 0 0 (s - 1)).
  destruct (loop_calls mb s uids st0) as (newP & newC & HP & HC & Hsub & Hnd & Hel & Hmark).
  set (st := fold_left (fun st m => processMessage mb s m st) uids st0) in *.
  assert (Hfin : mail_markers
            (touchLastChecked env
               (if (s <=? highestProcessedUid st)%Z
                then setStartUid (w_db (world st)) (highestProcessedUid st + 1)
                else w_db (world st)))
          = mail_markers (w_db (world st))).
  { by destruct (s <=? highestProcessedUid st)%Z. }
  exists newP, newC. cbn [fst snd w_db setDb parseCalls confirmCalls].
  split; [exact HP|]. split; [exact HC|]. split; [exact Hsub|]. split; [exact Hnd|].
  split; [|split].
  - intros u Hu. destruct (Hel u Hu) as (Hge & Hin & Habs).
    exists mb, db1, s. split; [done|]. split; [done|]. split; [done|]. split.
    + apply list_elem_of_fmap in Hin as (m & -> & Hm).
      apply elem_of_search in Hm as [Hm Hseen]. exists m. rewrite <- Hdbg. auto.
    + simpl in Habs. unfold markerExists in *. by rewrite <- Hmk.
  - intros u Hu. exists mb, db1. split; [done|].
    specialize (Hmark u Hu). unfold markerExists in *. by rewrite Hfin.
  - rewrite Hfin, <- Hmk. apply (loop_markers mb s uids st0).
Qed.

End PassCalls.

(** X14: the messages a scan pass hands to the extractor.  Each one is
    a message of the mailbox whose UID is at or above the smallest armed
    UIDNEXT of the PENDING topups, that was unseen when the pass began
    (or the debug mode is on), and that had no marker for the mailbox
    the pass opened; the confirmer is called only for messages that were
    handed to the extractor in the same pass. *)
Theorem X14_pass_handles_eligible_messages (env : Poller.PassEnv) (w : Poller.World) :
  let out := Poller.processEmails env w in
  exists newP newC,
    Poller.parseCalls out.2 = (newP ++ Poller.parseCalls w)%list
    /\ Poller.confirmCalls out.2 = (newC ++ Poller.confirmCalls w)%list
    /\ (forall u, u ∈ newC -> u ∈ newP)
    /\ forall u, u ∈ newP ->
         (exists m, m ∈ Poller.inbox env /\ Poller.uidNum m = u)
         /\ (exists s, Poller.minArmed (Poller.w_db w) = Some s /\ (s <= u)%Z)
         /\ (Poller.debugModeOf (Poller.w_db w) = true \/ u ∉ Poller.w_seen w)
         /\ exists mb db1,
              Poller.openMailboxWithFallback (Poller.mailboxOpen env) (Poller.w_db w)
              = Some (mb, db1)
              /\ Poller.markerExists (Poller.w_db w) mb (JS.showZ u) = false.
Proof.
  cbv zeta. destruct (pass_calls env w) as (newP & newC & HP & HC & Hsub & _ & Hel & _).
  exists newP, newC. split; [done|]. split; [done|]. split; [done|].
  intros u Hu. destruct (Hel u Hu) as (mb & db1 & s & Ho & Hs & Hge & (m & Hm & Hu' & Hseen) & Hmk).
  split; [by exists m|]. split; [by exists s|]. split; [done|]. by exists mb, db1.
Qed.

(** X15: within a scan pass the confirmer is called at most once for a
    UID, only for a message that had no marker for the opened mailbox,
    and after the pass that marker exists, whether or not the message
    could be flagged as seen.  A pass removes no marker. *)
Theorem X15_pass_confirms_once_and_marks (env : Poller.PassEnv) (w : Poller.World) :
  let out := Poller.processEmails env w in
  (exists newC,
     Poller.confirmCalls out.2 = (newC ++ Poller.confirmCalls w)%list
     /\ NoDup newC
     /\ forall u, u ∈ newC ->
          exists mb db1,
            Poller.openMailboxWithFallback (Poller.mailboxOpen env) (Poller.w_db w)
            = Some (mb, db1)
            /\ Poller.markerExists (Poller.w_db w) mb (JS.showZ u) = false
            /\ Poller.markerExists (Poller.w_db out.2) mb (JS.showZ u) = true)
  /\ mail_markers (Poller.w_db w) ⊆ mail_markers (Poller.w_db out.2).
Proof.
  cbv zeta.
  destruct (pass_calls env w) as (newP & newC & _ & HC & Hsub & Hnd & Hel & Hmk & Hmono).
  split; [|done]. exists newC. split; [done|]. split; [done|].
  intros u Hu. destruct (Hmk u Hu) as (mb & db1 & Ho & Hafter).
  destruct (Hel u (Hsub u Hu)) as (mb' & db1' & _ & Ho' & _ & _ & _ & Hbefore).
  rewrite Ho in Ho'. injection Ho' as <- <-. by exists mb, db1.
Qed.

(** X16: two scan passes in a row that open the same mailbox never
    hand a message to the confirmer twice: the UIDs for which the
    confirmer is called over the two passes are pairwise different. *)
Theorem X16_no_message_confirmed_twice
    (env1 env2 : Poller.PassEnv) (w : Poller.World)
    (Hsame :
       fst <$> Poller.openMailboxWithFallback (Poller.mailboxOpen env1) (Poller.w_db w)
       = fst <$> Poller.openMailboxWithFallback (Poller.mailboxOpen env2)
                   (Poller.w_db (Poller.processEmails env1 w).2)) :
  let out1 := Poller.processEmails env1 w in
  let out2 := Poller.processEmails env2 out1.2 in
  exists new1 new2,
    Poller.confirmCalls out1.2 = (new1 ++ Poller.confirmCalls w)%list
    /\ Poller.confirmCalls out2.2 = (new2 ++ new1 ++ Poller.confirmCalls w)%list
    /\ NoDup (new2 ++ new1).
Proof.
  cbv zeta.
  destruct (pass_calls env1 w) as (_ & new1 & _ & HC1 & _ & Hnd1 & _ & Hmk1 & _).
  destruct (pass_calls env2 (Poller.processEmails env1 w).2)
    as (newP2 & new2 & _ & HC2 & Hsub2 & Hnd2 & Hel2 & _ & _).
  exists new1, new2. split; [done|]. split; [by rewrite HC2, HC1|].
  apply NoDup_app. split; [done|]. split; [|done].
  intros u Hu2 Hu1.
  destruct (Hmk1 u Hu1) as (mb1 & db1 & Ho1 & Hafter).
  destruct (Hel2 u (Hsub2 u Hu2)) as (mb2 & db2 & _ & Ho2 & _ & _ & _ & Hbefore).
  rewrite Ho1, Ho2 in Hsame. simpl in Hsame. injection Hsame as ->. congruence.
Qed.

(** X16 on the two passes over the messages 1005 and 1010, of which
    1005 cannot be flagged and is found again by the second search: the
    confirmer is called for 1005 and 1010 in the first pass and for no
    message in the second. *)
Lemma X16_witness :
  let env := Fixture.passOver [Fixture.paying 1005 "no such phrase" "40" false;
                               Fixture.paying 1010 "no such phrase" "40" true] in
  let out1 := Poller.processEmails env (Fixture.worldOf Fixture.dbReef) in
  let out2 := Poller.processEmails env out1.2 in
  exists new1 new2,
    Poller.confirmCalls out1.2
    = (new1 ++ Poller.confirmCalls (Fixture.worldOf Fixture.dbReef))%list
    /\ Poller.confirmCalls out2.2
       = (new2 ++ new1 ++ Poller.confirmCalls (Fixture.worldOf Fixture.dbReef))%list
    /\ NoDup (new2 ++ new1).
Proof.
  cbv zeta.
  apply (X16_no_message_confirmed_twice
    (Fixture.passOver [Fixture.paying 1005 "no such phrase" "40" false;
                       Fixture.paying 1010 "no such phrase" "40" true])
    (Fixture.passOver [Fixture.paying 1005 "no such phrase" "40" false;
                       Fixture.paying 1010 "no such phrase" "40" true])
    (Fixture.worldOf Fixture.dbReef)).
  vm_compute. reflexivity.
Defined.

(** X17: a scan pass that finds no PENDING topup with an armed UIDNEXT
    reads no message: the extractor and the confirmer are not called, no
    message is flagged, and the topups, the balances and the markers are
    as before.  When a mailbox opens, the pass returns the empty result
    and writes no log row; otherwise it throws for the mailbox. *)
Theorem X17_no_armed_topup_no_scan (env : Poller.PassEnv) (w : Poller.World)
    (Hnone : forall id t, topups (Poller.w_db w) !! id = Some t -> status t = PENDING ->
                          armed_uidnext t = None) :
  let out := Poller.processEmails env w in
  Poller.parseCalls out.2 = Poller.parseCalls w
  /\ Poller.confirmCalls out.2 = Poller.confirmCalls w
  /\ Poller.w_seen out.2 = Poller.w_seen w
  /\ topups (Poller.w_db out.2) = topups (Poller.w_db w)
  /\ users (Poller.w_db out.2) = users (Poller.w_db w)
  /\ mail_markers (Poller.w_db out.2) = mail_markers (Poller.w_db w)
  /\ match Poller.openMailboxWithFallback (Poller.mailboxOpen env) (Poller.w_db w) with
     | Some (mb, _) =>
         out.1 = inr (Poller.emptyResult mb)
         /\ payment_logs (Poller.w_db out.2) = payment_logs (Poller.w_db w)
     | None => out.1 = inl "Could not open any mailbox"
     end.
Proof.
  cbv zeta.
  assert (Hmin : Poller.minArmed (Poller.w_db w) = None).
  { pose proof (minArmed_spec (Poller.w_db w)) as H.
    destruct (Poller.minArmed (Poller.w_db w)) as [a|]; [|done].
    destruct H as ((id & t & Hrow & Hs & Ha) & _).
    rewrite (Hnone id t Hrow Hs) in Ha. discriminate. }
  unfold Poller.processEmails.
  destruct (Poller.openMailboxWithFallback _ _) as [[mb db1]|] eqn:Ho.
  - pose proof (open_keeps _ _ _ _ _ Ho) as (Ht & Hu & Hl & Hmk & _).
    rewrite (minArmed_topups _ _ Ht), Hmin. simpl. auto 10.
  - unfold Poller.batchError. cbn [fst snd Poller.w_db Poller.setDb Poller.parseCalls
      Poller.confirmCalls Poller.w_seen].
    rewrite logPayment_topups, logPayment_users, logPayment_markers. auto 10.
Qed.

(** X17 on a database whose only topup is CONFIRMED: the unseen
    message 1005 is not read. *)
Lemma X17_witness :
  let db := mkDB {[ 1%Z := mkTopup 7 "vine oak stone reef" CONFIRMED 2000000 1000
                             (Some (JS.Dec 40 0)) (Some 1000%Z) ]}
              {[ 7%Z := JS.Dec 40 0 ]} [] ∅ ∅ in
  let out := Poller.processEmails
               (Fixture.passOver [Fixture.paying 1005 "vine oak stone reef" "40" true])
               (Fixture.worldOf db) in
  Poller.parseCalls out.2 = []
  /\ Poller.confirmCalls out.2 = []
  /\ out.1 = inr (Poller.emptyResult "INBOX").
Proof.
  cbv zeta.
  pose proof (X17_no_armed_topup_no_scan
    (Fixture.passOver [Fixture.paying 1005 "vine oak stone reef" "40" true])
    (Fixture.worldOf
       (mkDB {[ 1%Z := mkTopup 7 "vine oak stone reef" CONFIRMED 2000000 1000
                         (Some (JS.Dec 40 0)) (Some 1000%Z) ]}
          {[ 7%Z := JS.Dec 40 0 ]} [] ∅ ∅))) as H.
  cbv zeta in H.
  destruct H as (Hp & Hc & _ & _ & _ & _ & Hr).
  { intros id t Hrow Hs. simpl in Hrow.
    apply lookup_singleton_Some in Hrow as [_ <-]. discriminate. }
  split; [exact Hp|]. split; [exact Hc|].
  exact (proj1 Hr).
Defined.

(** ** The check of a matched topup *)

(** X18: [validateTopupStatus] accepts exactly a topup that was found,
    is PENDING and whose expiry the clock has not passed; an accepted
    topup is not logged, and a refused one gives one entry with the
    decision REJECTED that carries the UID, the code, the id of the topup
    if there is one, and the reason returned.  Every topup that
    [getActiveTopups] lists, and so every topup the matcher returns, is
    accepted at the instant of the query. *)
Theorem X18_validateTopupStatus_exact
    (now : Z) (topup : option (Z * TopupRow)) (code emailUid : option string) :
  let r := StatusCheck.validateTopupStatus now topup code emailUid in
  (StatusCheck.s_valid r.1 = true
   <-> exists id t, topup = Some (id, t) /\ status t = PENDING /\ (now <= expiresAt t)%Z)
  /\ (StatusCheck.s_valid r.1 = true -> r.2 = [] /\ StatusCheck.s_reason r.1 = None)
  /\ (StatusCheck.s_valid r.1 = false ->
      exists e, r.2 = [e] /\ decision e = REJECTED /\ email_uid e = emailUid
                /\ extracted_code e = code /\ matched_topup_id e = fst <$> topup
                /\ reason e <> None /\ reason e = StatusCheck.s_reason r.1)
  /\ (forall db id t,
        topup = Some (id, t) -> (id, t) ∈ Confirmer.getActiveTopups now db ->
        StatusCheck.s_valid r.1 = true).
Proof.
  cbv zeta. unfold StatusCheck.validateTopupStatus.
  destruct topup as [[id t]|].
  2:{ simpl. split; [split; [discriminate|intros (? & ? & ? & _); discriminate]|].
      split; [discriminate|]. split; [|intros ? ? ? [=]].
      intros _. eexists. repeat split. discriminate. }
  destruct (decide (status t = PENDING)) as [Hs|Hs].
  - rewrite (bool_decide_eq_true_2 _ Hs). simpl negb. cbv iota.
    destruct (Z.ltb_spec (expiresAt t) now) as [Hlt|Hge]; simpl.
    + split; [split; [discriminate|intros (? & ? & [= <- <-] & _ & ?); lia]|].
      split; [discriminate|]. split.
      * intros _. eexists. repeat split. discriminate.
      * intros db id' t' [= <- <-] Hin. apply elem_of_getActiveTopups in Hin as [_ Ha].
        unfold Confirmer.isActive in Ha. apply andb_true_iff in Ha as [_ Ha].
        apply Z.ltb_lt in Ha. unfold JSDate.datetime in Ha.
        assert (now / 1000 <= expiresAt t / 1000)%Z by lia.
        assert (expiresAt t / 1000 <= now / 1000)%Z by (apply Z.div_le_mono; lia). lia.
    + split; [split; [intros _; by exists id, t|done]|].
      split; [done|]. split; [discriminate|done].
  - rewrite (bool_decide_eq_false_2 _ Hs). simpl.
    split; [split; [discriminate|intros (? & ? & [= <- <-] & ? & _); done]|].
    split; [discriminate|]. split.
    + intros _. eexists. repeat split. discriminate.
    + intros db id' t' [= <- <-] Hin. apply elem_of_getActiveTopups in Hin as [_ Ha].
      by apply isActive_pending in Ha.
Qed.

(** ** The phrase of a new topup *)

Example generateTopUpCode_sample :
  Codes.generateTopUpCode Codes.sampleDraws = Some "bace difo gugu huzu".
Proof. vm_compute. reflexivity. Qed.

Section CodeWords.

Import Validator Text Codes.

Lemma letters_plain c :
  hasChar c (consonants ++ vowels) = true -> plain c = true.
Proof.
  destruct c as [[] [] [] [] [] [] [] []]; intros H; vm_compute in H; try discriminate;
    reflexivity.
Qed.

Lemma hasChar_letters c (e : bool) :
  hasChar c (if e then consonants else vowels) = true ->
  hasChar c (consonants ++ vowels) = true.
Proof.
  intros H. rewrite hasChar_app. destruct e; rewrite H; [reflexivity|apply orb_true_r].
Qed.

Lemma alternates_plain i w : alternates i w = true -> allChars plain w = true.
Proof.
  revert i. induction w as [|c r IH]; intros i; simpl; [done|].
  intros H. apply andb_true_iff in H as [Hc Hr].
  rewrite (letters_plain c (hasChar_letters _ _ Hc)). by apply (IH (S i)).
Qed.

Lemma alternates_add i w c :
  alternates i (w ++ String c "")
  = alternates i w && hasChar c (if Nat.even (i + String.length w) then consonants else vowels).
Proof.
  revert i. induction w as [|d r IH]; intros i.
  - rewrite append_nil. cbn [alternates String.length]. rewrite Nat.add_0_r.
    by rewrite andb_true_r.
  - rewrite append_cons. cbn [alternates String.length]. rewrite IH.
    replace (S i + String.length r)%nat with (i + S (String.length r))%nat by lia.
    by rewrite andb_assoc.
Qed.

Lemma length_add w c : String.length (w ++ String c "") = S (String.length w).
Proof.
  induction w as [|d r IH]; [reflexivity|].
  rewrite append_cons. cbn [String.length]. by rewrite IH.
Qed.

Lemma get_hasChar n s c : String.get n s = Some c -> hasChar c s = true.
Proof.
  revert n. induction s as [|d r IH]; intros n; [by destruct n|].
  destruct n as [|n]; simpl.
  - intros [= ->]. by rewrite Ascii.eqb_refl.
  - intros H. rewrite (IH _ H). apply orb_true_r.
Qed.

Lemma get_in_range n s : (n < String.length s)%nat -> exists c, String.get n s = Some c.
Proof.
  revert n. induction s as [|d r IH]; intros n; simpl; [lia|].
  destruct n as [|n]; [eauto|]. intros H. apply IH. lia.
Qed.

Lemma floorTimes_range r n :
  inRange r -> (0 < n)%Z -> (0 <= floorTimes r n < n)%Z.
Proof.
  unfold inRange, floorTimes. intros Hr Hn. split.
  - apply Z.div_pos; nia.
  - apply Z.div_lt_upper_bound; nia.
Qed.

(** A value in the range of [Math.random()] picks a letter of the
    string. *)
Lemma charAt_letter r s :
  inRange r -> s <> "" ->
  exists c, charAt s (floorTimes r (Z.of_nat (String.length s))) = Some c
            /\ hasChar c s = true.
Proof.
  intros Hr Hs.
  assert (Hlen : (0 < Z.of_nat (String.length s))%Z) by (destruct s; [done|simpl; lia]).
  pose proof (floorTimes_range r _ Hr Hlen) as [H0 H1].
  unfold charAt. destruct (Z.ltb_spec (floorTimes r (Z.of_nat (String.length s))) 0); [lia|].
  destruct (get_in_range (Z.to_nat (floorTimes r (Z.of_nat (String.length s)))) s) as [c Hc];
    [lia|].
  exists c. split; [done|]. by apply get_hasChar in Hc.
Qed.

Lemma wordLoop_spec steps i word draws w rest :
  Forall inRange draws ->
  wordLoop steps i word draws = Some (w, rest) ->
  alternates 0 word = true -> String.length word = i ->
  alternates 0 w = true /\ String.length w = (i + steps)%nat
  /\ Forall inRange rest /\ (length rest + steps = length draws)%nat.
Proof.
  revert i word draws. induction steps as [|k IH]; intros i word draws Hd; cbn [wordLoop].
  - intros [= <- <-] Hw Hl. repeat split; try done; lia.
  - destruct draws as [|r draws]; [discriminate|].
    apply Forall_cons in Hd as [Hr Hd]. cbv zeta. intros H Hw Hl.
    set (s := if Nat.even i then consonants else vowels).
    assert (Hs : s <> "") by (unfold s; destruct (Nat.even i); discriminate).
    destruct (charAt_letter r s Hr Hs) as (c & Hc & Hin).
    assert (Hpick : (if Nat.even i
                     then charAt consonants (floorTimes r (Z.of_nat (String.length consonants)))
                     else charAt vowels (floorTimes r (Z.of_nat (String.length vowels))))
                    = Some c).
    { unfold s in Hc. by destruct (Nat.even i). }
    rewrite Hpick in H. unfold addChar in H.
    apply IH in H; [|done| |].
    + destruct H as (H1 & H2 & H3 & H4). split; [done|]. split; [lia|]. split; [done|].
      simpl. lia.
    + rewrite alternates_add, Hw. simpl. rewrite Hl. exact Hin.
    + rewrite length_add. lia.
Qed.

Lemma generateWord_spec draws w rest :
  Forall inRange draws ->
  generateWord draws = Some (w, rest) ->
  wordOk w /\ Forall inRange rest /\ (length rest < length draws)%nat.
Proof.
  intros Hd. unfold generateWord. destruct draws as [|r draws]; [discriminate|].
  apply Forall_cons in Hd as [Hr Hd].
  pose proof (floorTimes_range r 3 Hr ltac:(lia)) as Hlen.
  intros H. apply (wordLoop_spec _ _ _ _ _ _ Hd) in H; [|done..].
  destruct H as (H1 & H2 & H3 & H4). split; [|split; [done|simpl; lia]].
  split; [done|]. lia.
Qed.

Lemma wordsLoop_spec fuel words draws ws :
  Forall inRange draws ->
  NoDup words -> Forall wordOk words -> (length words <= 4)%nat ->
  wordsLoop fuel words draws = Some ws ->
  NoDup ws /\ Forall wordOk ws /\ length ws = 4%nat.
Proof.
  revert words draws. induction fuel as [|k IH]; intros words draws Hd Hnd Hok Hlen; simpl.
  - destruct (Nat.ltb_spec (length words) 4); [discriminate|].
    intros [= <-]. repeat split; try done. lia.
  - destruct (Nat.ltb_spec (length words) 4) as [Hlt|Hge].
    2:{ intros [= <-]. repeat split; try done. lia. }
    destruct (generateWord draws) as [[word rest]|] eqn:Hg; [|discriminate].
    apply generateWord_spec in Hg as (Hw & Hrest & _); [|done].
    apply IH; [done|..]; case_bool_decide as Hin; try done.
    + apply NoDup_app. split; [done|]. split; [|apply NoDup_singleton].
      intros x Hx Hx'. apply list_elem_of_singleton in Hx' as ->. done.
    + apply Forall_app. split; [done|]. by apply Forall_singleton.
    + rewrite length_app. simpl. lia.
Qed.

Lemma wordLoop_length steps i word draws w rest :
  wordLoop steps i word draws = Some (w, rest) ->
  (length rest + steps = length draws)%nat.
Proof.
  revert i word draws. induction steps as [|k IH]; intros i word draws; cbn [wordLoop].
  - intros [= _ <-]. lia.
  - destruct draws as [|r draws]; [discriminate|]. cbv zeta. intros H.
    apply IH in H. simpl. lia.
Qed.

Lemma generateWord_length draws w rest :
  generateWord draws = Some (w, rest) -> (length rest < length draws)%nat.
Proof.
  unfold generateWord. destruct draws as [|r draws]; [discriminate|]. cbv zeta.
  intros H. apply wordLoop_length in H. simpl. lia.
Qed.

(** The fuel of the [while] loop does not show: any fuel of the number
    of values or more gives the same result, the loop ending on its own
    or for want of values. *)
Lemma wordsLoop_fuel fuel1 fuel2 words draws :
  (length draws <= fuel1)%nat -> (length draws <= fuel2)%nat ->
  wordsLoop fuel1 words draws = wordsLoop fuel2 words draws.
Proof.
  revert fuel2 words draws. induction fuel1 as [|k IH]; intros fuel2 words draws H1 H2.
  - destruct draws; [|simpl in H1; lia].
    destruct fuel2; simpl; [done|]. by destruct (length words <? 4)%nat.
  - destruct fuel2 as [|k2].
    { destruct draws; [|simpl in H2; lia]. simpl. by destruct (length words <? 4)%nat. }
    simpl. destruct (length words <? 4)%nat; [|done].
    destruct (generateWord draws) as [[word rest]|] eqn:Hg; [|done].
    apply generateWord_length in Hg. apply IH; lia.
Qed.

Lemma toLowerCase_plain w : allChars plain w = true -> JS.toLowerCase w = w.
Proof.
  induction w as [|c r IH]; simpl; [done|]. intros H.
  apply andb_true_iff in H as [Hc Hr]. unfold plain in Hc.
  apply andb_true_iff in Hc as [_ Hc]. apply Ascii.eqb_eq in Hc.
  by rewrite Hc, IH.
Qed.

Lemma plain_not_space c : plain c = true -> JS.isWhiteSpace c = false.
Proof.
  unfold plain. intros H. apply andb_true_iff in H as [H _]. by apply negb_true_iff in H.
Qed.

Lemma settled_word w : allChars plain w = true -> w <> "" -> settled w.
Proof.
  intros Hp Hne. split; [done|]. split; [by apply toLowerCase_plain|].
  assert (Ht : forall f, tidy f w = true).
  { clear Hne. induction w as [|c r IH]; intros f; simpl; [done|].
    simpl in Hp. apply andb_true_iff in Hp as [Hc Hr].
    rewrite (plain_not_space c Hc). by apply IH. }
  split; [apply Ht|]. split.
  - destruct w as [|c r]; [done|]. simpl in *. apply andb_true_iff in Hp as [Hc _].
    by rewrite (plain_not_space c Hc).
  - clear Hne Ht. induction w as [|c r IH]; simpl; [done|].
    simpl in Hp. apply andb_true_iff in Hp as [Hc Hr]. rewrite (IH Hr).
    destruct r; [by rewrite (plain_not_space c Hc)|done].
Qed.

Lemma trimEnd_app_keep a s : JS.trimEnd s = s -> s <> "" -> JS.trimEnd (a ++ s) = a ++ s.
Proof.
  intros Hs Hne. induction a as [|c r IH]; [by rewrite append_nil|].
  rewrite append_cons. simpl. rewrite IH.
  destruct (r ++ s) as [|d t] eqn:Hrs; [|done].
  destruct r; [rewrite append_nil in Hrs; congruence|discriminate].
Qed.

Lemma tidy_plain_app f w x :
  allChars plain w = true -> w <> "" -> tidy f (w ++ x) = tidy false x.
Proof.
  revert f. induction w as [|c r IH]; intros f Hp Hne; [done|].
  rewrite append_cons. simpl in *. apply andb_true_iff in Hp as [Hc Hr].
  rewrite (plain_not_space c Hc). destruct r as [|d r'].
  - by rewrite append_nil.
  - by apply IH.
Qed.

Lemma settled_join w s :
  allChars plain w = true -> w <> "" -> settled s -> settled (w ++ " " ++ s).
Proof.
  intros Hp Hne (Hs & Hl & Ht & Hts & Hte).
  change (" " ++ s) with (String " " s).
  split; [destruct w; [done|discriminate]|]. split; [|split; [|split]].
  - rewrite toLowerCase_app. simpl. by rewrite (toLowerCase_plain w Hp), Hl.
  - rewrite (tidy_plain_app _ _ _ Hp Hne). simpl.
    destruct s as [|c r]; [done|]. simpl in Hts, Ht |- *. revert Hts Ht.
    destruct (JS.isWhiteSpace c) eqn:Hc; [|done].
    intros Hts _. exfalso.
    assert (Hlen : String.length (JS.trimStart r) <= String.length r).
    { clear. induction r as [|d r IH]; simpl; [lia|].
      destruct (JS.isWhiteSpace d); simpl; lia. }
    rewrite Hts in Hlen. simpl in Hlen. lia.
  - destruct w as [|c r]; [done|]. rewrite append_cons. simpl in *.
    apply andb_true_iff in Hp as [Hc _]. by rewrite (plain_not_space c Hc).
  - apply trimEnd_app_keep; [|done].
    simpl. rewrite Hte. destruct s; [done|reflexivity].
Qed.

Lemma settled_normal s : settled s -> normalizePhrase s = s.
Proof.
  intros (_ & Hl & Ht & Hts & Hte). apply normalizePhrase_fixed; [done..|].
  unfold JS.trim. by rewrite Hte.
Qed.

Lemma wordOk_plain w : wordOk w -> allChars plain w = true /\ w <> "".
Proof.
  intros [Ha Hl]. split; [by apply alternates_plain in Ha|].
  intros ->. simpl in Hl. lia.
Qed.

End CodeWords.

(** X19: a phrase that [generateTopUpCode] returns, for values of
    [Math.random()] in its range, is four different words joined by
    single spaces, every word of four to six letters, consonants of the
    source's list at the even positions and vowels at the odd ones; the
    phrase is not empty and [normalizePhrase] leaves it as it is, so that
    the stored code is equal to the candidate an email carries exactly
    when their normalized forms are. *)
Theorem X19_generated_code_is_normalized (draws : list Codes.Random) (code : string)
    (Hrange : Forall Codes.inRange draws)
    (Hcode : Codes.generateTopUpCode draws = Some code) :
  Validator.normalizePhrase code = code
  /\ code <> ""
  /\ exists w1 w2 w3 w4,
       code = w1 ++ " " ++ w2 ++ " " ++ w3 ++ " " ++ w4
       /\ NoDup [w1; w2; w3; w4]
       /\ Forall Codes.wordOk [w1; w2; w3; w4].
Proof.
  unfold Codes.generateTopUpCode in Hcode.
  destruct (Codes.wordsLoop _ _ _) as [ws|] eqn:Hws; [|discriminate].
  injection Hcode as <-.
  apply wordsLoop_spec in Hws as (Hnd & Hok & Hlen);
    [|done|apply NoDup_nil_2|apply Forall_nil_2|simpl; lia].
  destruct ws as [|w1 [|w2 [|w3 [|w4 [|w5 ws]]]]]; try discriminate.
  pose proof Hok as Hok'.
  apply Forall_cons in Hok' as [H1 Hok']. apply Forall_cons in Hok' as [H2 Hok'].
  apply Forall_cons in Hok' as [H3 Hok']. apply Forall_cons in Hok' as [H4 _].
  apply wordOk_plain in H1 as [P1 N1]. apply wordOk_plain in H2 as [P2 N2].
  apply wordOk_plain in H3 as [P3 N3]. apply wordOk_plain in H4 as [P4 N4].
  assert (Hs : Text.settled (w1 ++ " " ++ w2 ++ " " ++ w3 ++ " " ++ w4)).
  { apply settled_join; [done..|]. apply settled_join; [done..|].
    apply settled_join; [done..|]. by apply settled_word. }
  change (JS.join " " [w1; w2; w3; w4]) with (w1 ++ " " ++ w2 ++ " " ++ w3 ++ " " ++ w4).
  split; [by apply settled_normal|]. split; [apply Hs|].
  exists w1, w2, w3, w4. done.
Qed.

(** X19 on the sample values. *)
Lemma X19_witness :
  Validator.normalizePhrase "bace difo gugu huzu" = "bace difo gugu huzu"
  /\ "bace difo gugu huzu" <> ""
  /\ exists w1 w2 w3 w4,
       "bace difo gugu huzu" = w1 ++ " " ++ w2 ++ " " ++ w3 ++ " " ++ w4
       /\ NoDup [w1; w2; w3; w4]
       /\ Forall Codes.wordOk [w1; w2; w3; w4].
Proof.
  apply (X19_generated_code_is_normalized Codes.sampleDraws).
  - unfold Codes.sampleDraws. repeat constructor; simpl; lia.
  - vm_compute. reflexivity.
Defined.

(** ** The list of active topups *)

Section ActiveList.

Import Confirmer.

Lemma newerFirst_total : Total newerFirst.
Proof. intros a b. unfold newerFirst. lia. Qed.

Lemma newerFirst_trans : Transitive newerFirst.
Proof. intros a b c. unfold newerFirst. lia. Qed.

End ActiveList.

(** X20: [getActiveTopups] returns the rows of the table that are
    PENDING and whose expiry is a later second than now, each one once
    and with its id, ordered by creation time, the newest first: every
    row of the list was created no earlier than the rows after it. *)
Theorem X20_getActiveTopups_exact (now : Z) (db : DB) :
  (forall id t,
     (id, t) ∈ Confirmer.getActiveTopups now db
     <-> topups db !! id = Some t /\ status t = PENDING
         /\ (JSDate.datetime now < JSDate.datetime (expiresAt t))%Z)
  /\ NoDup (Confirmer.getActiveTopups now db)
  /\ NoDup (Confirmer.getActiveTopups now db).*1
  /\ StronglySorted (fun a b : Z * TopupRow => (createdAt b.2 <= createdAt a.2)%Z)
       (Confirmer.getActiveTopups now db).
Proof.
  split; [|split; [|split]].
  - intros id t. rewrite elem_of_getActiveTopups. unfold Confirmer.isActive.
    rewrite andb_true_iff, bool_decide_eq_true, Z.ltb_lt. tauto.
  - apply NoDup_getActiveTopups.
  - rewrite getActiveTopups_perm.
    apply NoDup_fmap_fst.
    + intros k v v' H H'. apply list_elem_of_filter in H as [_ H].
      apply list_elem_of_filter in H' as [_ H'].
      apply elem_of_map_to_list in H. apply elem_of_map_to_list in H'. congruence.
    + apply NoDup_filter, NoDup_map_to_list.
  - pose proof newerFirst_total. pose proof newerFirst_trans.
    apply (StronglySorted_merge_sort Confirmer.newerFirst).
Qed.

(** ** What the engine may do to the database *)

Section Evolution.

Import Validator Confirmer Poller Invariant.

Lemma rowStep_trans t1 t2 t3 : rowStep t1 t2 -> rowStep t2 t3 -> rowStep t1 t3.
Proof.
  intros [->|H12] [->|H23]; [by left|by right|by right|].
  destruct H12 as (_ & Hc & _), H23 as (Hp & _). congruence.
Qed.

Lemma evolves_refl db : evolves db db.
Proof.
  split; [done|]. split; [intros id t t' H H'; left; congruence|].
  split; [done|]. split; [exists []; by rewrite app_nil_r|]. done.
Qed.

Lemma evolves_trans db1 db2 db3 : evolves db1 db2 -> evolves db2 db3 -> evolves db1 db3.
Proof.
  intros (A1 & B1 & C1 & (r1 & D1) & E1 & F1) (A2 & B2 & C2 & (r2 & D2) & E2 & F2).
  split; [intros id; by rewrite A2, A1|]. split.
  { intros id t t'' H H''. destruct (topups db2 !! id) as [t'|] eqn:H'.
    - eapply rowStep_trans; [by eapply B1|by eapply B2].
    - apply A1 in H'. congruence. }
  split; [intros u; by rewrite C2, C1|].
  split; [exists (r1 ++ r2)%list; by rewrite D2, D1, app_assoc|].
  split; [auto|]. by etransitivity.
Qed.

(** A change of the settings or of the markers that removes no
    marker. *)
Lemma evolves_same db db' :
  topups db' = topups db -> users db' = users db ->
  payment_logs db' = payment_logs db -> mail_markers db ⊆ mail_markers db' ->
  evolves db db'.
Proof.
  intros Ht Hu Hl Hm. unfold evolves. rewrite Ht, Hu, Hl.
  split; [done|]. split; [intros id t t' H H'; left; congruence|].
  split; [done|]. split; [exists []; by rewrite app_nil_r|]. done.
Qed.

Lemma logPayment_nodup e db :
  NoDup (omap email_uid (payment_logs db)) ->
  NoDup (omap email_uid (payment_logs (Logger.logPayment e db))).
Proof.
  destruct (logPayment_cases e db) as [(u & Hu & Hl & ->)|[Hfresh ->]]; [done|].
  assert (Ho : omap email_uid [Logger.rowOf e]
               = match email_uid e with Some u => [u] | None => [] end).
  { cbn. by destruct (email_uid e). }
  cbn [payment_logs setPaymentLogs]. rewrite omap_app, Ho.
  destruct (email_uid e) as [u|] eqn:Hu; [|by rewrite app_nil_r].
  intros Hnd. apply NoDup_app. split; [done|]. split; [|apply NoDup_singleton].
  intros x Hx Hx'. apply list_elem_of_singleton in Hx' as ->.
  apply uidLogged_spec in Hx. rewrite (Hfresh u eq_refl) in Hx. discriminate.
Qed.

Lemma evolves_logPayment e db : evolves db (Logger.logPayment e db).
Proof.
  unfold evolves.
  rewrite logPayment_topups, logPayment_users, logPayment_markers.
  split; [done|]. split; [intros id t t' H H'; left; congruence|].
  split; [done|]. split; [|split; [apply logPayment_nodup|done]].
  destruct (logPayment_cases e db) as [(u & _ & _ & ->)|[_ ->]].
  - exists []. by rewrite app_nil_r.
  - by exists [Logger.rowOf e].
Qed.

Lemma evolves_logAll es db : evolves db (Logger.logAll es db).
Proof.
  revert db. induction es as [|e es IH]; intros db; [apply evolves_refl|].
  change (Logger.logAll (e :: es) db) with (Logger.logAll es (Logger.logPayment e db)).
  eapply evolves_trans; [apply evolves_logPayment|apply IH].
Qed.

Lemma evolves_confirm p clk db : evolves db (confirmTopupFromEmail p clk db).2.
Proof.
  destruct (confirm_outcome p clk db) as [(_ & -> & _)|(_ & H)]; [apply evolves_logAll|].
  destruct H as (id & row & balance & e & Hrow & Hst & Hbal & _ & _ & _ & _ & _ & ->).
  eapply evolves_trans; [|apply evolves_logPayment].
  unfold evolves. simpl. split; [|split; [|split; [|split; [|done]]]].
  - intros id'. destruct (decide (id' = id)) as [->|Hne].
    + rewrite lookup_insert_eq, Hrow. split; discriminate.
    + by rewrite lookup_insert_ne.
  - intros id' t t' Ht Ht'. destruct (decide (id' = id)) as [->|Hne].
    + rewrite lookup_insert_eq in Ht'. injection Ht' as <-.
      assert (t = row) as -> by congruence. right. by repeat split.
    + rewrite lookup_insert_ne in Ht' by done. left. congruence.
  - intros u. destruct (decide (u = userId row)) as [->|Hne].
    + rewrite lookup_insert_eq, Hbal. split; discriminate.
    + by rewrite lookup_insert_ne.
  - exists []. by rewrite app_nil_r.
Qed.

Lemma evolves_markProcessed db mb uid : evolves db (markProcessed db mb uid).2.
Proof.
  apply evolves_same; try (unfold markProcessed; by case_bool_decide).
  rewrite markProcessed_markers. apply union_subseteq_r.
Qed.

Lemma evolves_flagAndMark mb uid m w : evolves (w_db w) (w_db (flagAndMark mb uid m w)).
Proof.
  unfold flagAndMark. destruct (flagOk m); [|apply evolves_refl].
  apply evolves_markProcessed.
Qed.

Lemma evolves_flagSeen m w : w_db (flagSeen m w) = w_db w.
Proof. unfold flagSeen. by destruct (flagOk m). Qed.

Lemma evolves_processMessage mb s m st :
  evolves (w_db (world st)) (w_db (world (processMessage mb s m st))).
Proof.
  unfold processMessage.
  destruct (uidNum m <? s)%Z; [apply evolves_refl|].
  destruct (markerExists _ _ _); [apply evolves_refl|].
  destruct (fetch m) as [e|subj|src subj date].
  - eapply evolves_trans; [apply evolves_logPayment|]. apply evolves_markProcessed.
  - cbn [world]. rewrite evolves_flagSeen. apply evolves_logPayment.
  - destruct (parse m) as [e|d].
    + cbn [world]. rewrite evolves_flagSeen. apply evolves_logPayment.
    + destruct (validatePayment d _ _ _) as [v logs].
      destruct (negb (valid v)).
      * cbn [world]. eapply evolves_trans; [|apply evolves_flagAndMark].
        apply evolves_logAll.
      * match goal with |- context [confirmTopupFromEmail ?p ?c ?d] =>
          pose proof (evolves_confirm p c d) as Hc;
          destruct (confirmTopupFromEmail p c d) as [[c' l] db3]
        end.
        simpl in Hc.
        assert (Hgoal : forall st' : LoopState,
                  evolves db3 (w_db (world st')) ->
                  evolves (w_db (world st))
                    (w_db (world (bookkeeping mb (JS.showZ (uidNum m)) m st')))).
        { intros st' H. eapply evolves_trans; [apply evolves_logAll|].
          eapply evolves_trans; [exact Hc|]. eapply evolves_trans; [exact H|].
          apply evolves_markProcessed. }
        destruct (success c'); apply Hgoal; cbn [world];
          match goal with |- evolves _ (w_db (flagAndMark ?a ?b ?c ?w)) =>
            apply (evolves_flagAndMark a b c w) end.
Qed.

Lemma evolves_loop mb s uids st :
  evolves (w_db (world st))
    (w_db (world (fold_left (fun st m => processMessage mb s m st) uids st))).
Proof.
  revert st. induction uids as [|m uids IH]; intros st; simpl; [apply evolves_refl|].
  eapply evolves_trans; [apply evolves_processMessage|apply IH].
Qed.

Lemma evolves_setSetting db key value : evolves db (setSetting db key value).
Proof. by apply evolves_same. Qed.

Lemma evolves_processEmails env w : evolves (w_db w) (w_db (processEmails env w).2).
Proof.
  unfold processEmails.
  destruct (openMailboxWithFallback _ _) as [[mb db1]|] eqn:Ho;
    [|apply evolves_logPayment].
  assert (H1 : evolves (w_db w) db1).
  { apply open_keeps in Ho as (Ht & Hu & Hl & Hm & _). apply evolves_same; try done.
    by rewrite Hm. }
  destruct (minArmed db1) as [s|].
  2:{ eapply evolves_trans; [exact H1|]. apply evolves_setSetting. }
  cbv zeta. destruct (searchError env) as [e|].
  { eapply evolves_trans; [exact H1|]. apply evolves_logPayment. }
  set (uids := search (debugModeOf db1) s (w_seen (setDb w db1)) (inbox env)).
  destruct (Nat.eqb _ 0).
  { eapply evolves_trans; [exact H1|]. apply evolves_setSetting. }
  set (st0 := mkLoopState (setDb w db1) 0 0 0 0 (s - 1)).
  pose proof (evolves_loop mb s uids st0) as Hl.
  set (st := fold_left (fun st m => processMessage mb s m st) uids st0) in *.
  cbn [snd w_db setDb]. eapply evolves_trans; [exact H1|].
  eapply evolves_trans; [exact Hl|].
  eapply evolves_trans; [|apply evolves_setSetting].
  destruct (s <=? highestProcessedUid st)%Z; [apply evolves_setSetting|apply evolves_refl].
Qed.

Lemma evolves_pollGmail env g w : evolves (w_db w) (w_db (pollGmail env g w).2).
Proof.
  unfold pollGmail. destruct (isPolling g); [apply evolves_refl|].
  destruct (connectError env); [apply evolves_refl|].
  pose proof (evolves_processEmails (pass env) w) as H.
  destruct (processEmails (pass env) w) as [[e|r] w']; exact H.
Qed.

Lemma evolves_pollLoopFrom cycles g w :
  evolves (w_db w) (w_db (pollLoopFrom cycles g w).2).
Proof.
  revert g w. induction cycles as [|env cycles IH]; intros g w; [apply evolves_refl|].
  simpl. unfold pollLoopIter.
  pose proof (evolves_pollGmail env g w) as H.
  destruct (pollGmail env g w) as [[c g1] w1]. simpl in H.
  destruct c.
  - specialize (IH (mkGlobals 2000 (isPolling g1)) w1).
    destruct (pollLoopFrom cycles _ w1) as [[ds g2] w2]. simpl in *.
    by eapply evolves_trans.
  - specialize (IH (mkGlobals (Z.min (backoffMs g1 * 2) 60000) (isPolling g1)) w1).
    destruct (pollLoopFrom cycles _ w1) as [[ds g2] w2]. simpl in *.
    by eapply evolves_trans.
Qed.

End Evolution.

(** X21: what the poller may do to the database, over one scan pass
    and over any number of poll cycles.  It creates and deletes no topup
    and no user; a topup is left as it is or goes from PENDING to
    CONFIRMED with its user, code, dates and armed UIDNEXT kept, so that a
    CONFIRMED or EXPIRED topup is never changed again; log rows are only
    added at the end of the table and their UIDs stay pairwise different;
    no marker is removed. *)
Theorem X21_poller_database_invariants :
  (forall env w,
     Invariant.evolves (Poller.w_db w) (Poller.w_db (Poller.processEmails env w).2))
  /\ (forall cycles g w,
        Invariant.evolves (Poller.w_db w) (Poller.w_db (Poller.pollLoop cycles g w).2))
  /\ (forall db db' id t t',
        Invariant.evolves db db' ->
        topups db !! id = Some t -> topups db' !! id = Some t' ->
        status t <> PENDING -> t' = t).
Proof.
  split; [apply evolves_processEmails|]. split.
  - intros cycles g w. unfold Poller.pollLoop.
    pose proof (evolves_pollLoopFrom cycles g w) as H.
    by destruct (Poller.pollLoopFrom cycles g w) as [[ds g'] w'].
  - intros db db' id t t' (_ & H & _) Ht Ht' Hs.
    destruct (H id t t' Ht Ht') as [->|(Hp & _)]; [done|]. by destruct Hs.
Qed.

(** ** The TOPUP line *)

Section TopupLine.

Import Validator Text.

Lemma trimStart_all_app sp x :
  allChars JS.isWhiteSpace sp = true -> JS.trimStart (sp ++ x) = JS.trimStart x.
Proof.
  induction sp as [|c r IH]; [by rewrite append_nil|].
  rewrite append_cons. simpl. intros H. apply andb_true_iff in H as [Hc Hr].
  rewrite Hc. by apply IH.
Qed.

Lemma takeLine_app p rest :
  allChars (fun c => negb (JS.isLineTerminator c)) p = true ->
  rest = "" \/ (exists c r, rest = String c r /\ JS.isLineTerminator c = true) ->
  takeLine (p ++ rest) = p.
Proof.
  intros Hp Hrest. induction p as [|c r IH].
  - rewrite append_nil. destruct Hrest as [->|(c & r & -> & Hc)]; [done|].
    simpl. by rewrite Hc.
  - rewrite append_cons. simpl in *. apply andb_true_iff in Hp as [Hc Hr].
    apply negb_true_iff in Hc. rewrite Hc. by rewrite (IH Hr).
Qed.

Lemma matchCI_topup kw x : JS.toLowerCase kw = "topup" -> matchCI "topup" (kw ++ x) = Some x.
Proof.
  intros H.
  destruct kw as [|c1 [|c2 [|c3 [|c4 [|c5 [|c6 kw]]]]]]; try discriminate.
  simpl in H. injection H as H1 H2 H3 H4 H5.
  rewrite !append_cons, append_nil. cbn [matchCI].
  rewrite H1, H2, H3, H4, H5. reflexivity.
Qed.

Lemma topup_not_space kw x :
  JS.toLowerCase kw = "topup" -> JS.trimStart (kw ++ x) = kw ++ x.
Proof.
  intros H. destruct kw as [|c kw]; [discriminate|].
  simpl in H. injection H as Hc _. rewrite append_cons. simpl.
  rewrite <- (isWhiteSpace_lower c), Hc. reflexivity.
Qed.

Lemma trimStart_keep p x :
  JS.trimStart p = p -> p <> "" -> JS.trimStart (p ++ x) = p ++ x.
Proof.
  intros Hp Hne. destruct p as [|c r]; [done|]. rewrite append_cons.
  simpl in *. destruct (JS.isWhiteSpace c) eqn:Hc; [|done].
  exfalso.
  assert (Hlen : String.length (JS.trimStart r) <= String.length r).
  { clear. induction r as [|d r IH]; simpl; [lia|].
    destruct (JS.isWhiteSpace d); simpl; lia. }
  rewrite Hp in Hlen. simpl in Hlen. lia.
Qed.

End TopupLine.

(** X22: a body that begins with the TOPUP line.  After optional
    whitespace, the word TOPUP in any case, optional whitespace, a colon
    and optional whitespace, the text up to the end of the line is the
    passphrase: [extractTopupLine] returns its normalized form, whatever
    follows on the later lines. *)
Theorem X22_topup_line_first (sp1 kw sp2 sp3 phrase rest : string)
    (Hsp1 : Text.allChars JS.isWhiteSpace sp1 = true)
    (Hkw : JS.toLowerCase kw = "topup")
    (Hsp2 : Text.allChars JS.isWhiteSpace sp2 = true)
    (Hsp3 : Text.allChars JS.isWhiteSpace sp3 = true)
    (Hline : Text.allChars (fun c => negb (JS.isLineTerminator c)) phrase = true)
    (Hstart : JS.trimStart phrase = phrase)
    (Hne : phrase <> "")
    (Hrest : rest = "" \/ exists c r, rest = String c r /\ JS.isLineTerminator c = true) :
  Validator.extractTopupLine (sp1 ++ kw ++ sp2 ++ ":" ++ sp3 ++ phrase ++ rest)
  = Some (Validator.normalizePhrase phrase).
Proof.
  assert (Hat : Validator.topupAt (sp1 ++ kw ++ sp2 ++ ":" ++ sp3 ++ phrase ++ rest)
                = Some phrase).
  { unfold Validator.topupAt.
    rewrite (trimStart_all_app sp1 _ Hsp1), (topup_not_space kw _ Hkw),
      (matchCI_topup kw _ Hkw), (trimStart_all_app sp2 _ Hsp2).
    change (":" ++ sp3 ++ phrase ++ rest) with (String ":" (sp3 ++ phrase ++ rest)).
    change (JS.trimStart (String ":" (sp3 ++ phrase ++ rest)))
      with (String ":" (sp3 ++ phrase ++ rest)).
    cbv iota beta. rewrite (trimStart_all_app sp3 _ Hsp3).
    rewrite (trimStart_keep phrase rest Hstart Hne).
    destruct (phrase ++ rest) as [|c r] eqn:Hpr.
    - destruct phrase; [done|]. rewrite append_cons in Hpr. discriminate.
    - rewrite <- Hpr, (takeLine_app _ _ Hline Hrest). reflexivity. }
  unfold Validator.extractTopupLine.
  assert (Hbody : JS.truthy (sp1 ++ kw ++ sp2 ++ ":" ++ sp3 ++ phrase ++ rest) = true).
  { revert Hat. generalize (sp1 ++ kw ++ sp2 ++ ":" ++ sp3 ++ phrase ++ rest).
    intros b Hat. destruct b; [discriminate|done]. }
  rewrite Hbody.
  assert (Hsearch : Validator.searchTopup true
            (sp1 ++ kw ++ sp2 ++ ":" ++ sp3 ++ phrase ++ rest) = Some phrase).
  { revert Hat. generalize (sp1 ++ kw ++ sp2 ++ ":" ++ sp3 ++ phrase ++ rest).
    intros b Hat. destruct b; cbn [Validator.searchTopup]; by rewrite Hat. }
  rewrite Hsearch. destruct phrase; [done|]. reflexivity.
Qed.

(** X22 on a body whose first line is the TOPUP line and that goes on
    with another line. *)
Lemma X22_witness :
  Validator.extractTopupLine
    ("  " ++ "ToPuP" ++ " " ++ ":" ++ "  " ++ "Vine  Oak" ++ (Fixture.newline ++ "bye"))
  = Some (Validator.normalizePhrase "Vine  Oak").
Proof.
  apply X22_topup_line_first; try reflexivity; [discriminate|].
  right. eexists _, _. split; reflexivity.
Defined.

(** ** The body of a raw email and the counters of a pass *)

Section Body.

Import Text Poller Mail.

Lemma notLT_chars c :
  JS.isLineTerminator c = false -> Ascii.eqb c CR = false /\ Ascii.eqb c LF = false.
Proof.
  intros H. split.
  - destruct (Ascii.eqb_spec c CR) as [->|]; [discriminate|done].
  - destruct (Ascii.eqb_spec c LF) as [->|]; [discriminate|done].
Qed.

Lemma afterBlankLine_char c x :
  JS.isLineTerminator c = false -> afterBlankLine (String c x) = afterBlankLine x.
Proof.
  intros H. destruct (notLT_chars c H) as [Hcr Hlf].
  cbn [afterBlankLine]. unfold blankLineAt. by rewrite Hcr, Hlf.
Qed.

Lemma afterBlankLine_line l x :
  allChars (fun c => negb (JS.isLineTerminator c)) l = true ->
  afterBlankLine (l ++ x) = afterBlankLine x.
Proof.
  induction l as [|c r IH]; [by rewrite append_nil|].
  rewrite append_cons. simpl. intros H. apply andb_true_iff in H as [Hc Hr].
  apply negb_true_iff in Hc. rewrite <- (IH Hr). by apply afterBlankLine_char.
Qed.

(** A line end that a header line follows is not a blank line. *)
Lemma afterBlankLine_eol eol l x :
  eol = String LF "" \/ eol = String CR (String LF "") ->
  headerLine l -> afterBlankLine (eol ++ l ++ x) = afterBlankLine (l ++ x).
Proof.
  intros Heol [Hne Hl]. destruct l as [|c r]; [done|]. rewrite append_cons.
  simpl in Hl. apply andb_true_iff in Hl as [Hc _]. apply negb_true_iff in Hc.
  destruct (notLT_chars c Hc) as [Hcr Hlf].
  destruct Heol as [-> | ->]; rewrite !append_cons, append_nil.
  - cbn [afterBlankLine]. unfold blankLineAt.
    change (Ascii.eqb LF CR) with false. change (Ascii.eqb LF LF) with true.
    cbv iota beta. by rewrite Hcr, Hlf.
  - cbn [afterBlankLine]. unfold blankLineAt at 1.
    change (Ascii.eqb CR CR) with true. change (Ascii.eqb LF LF) with true.
    cbv iota beta. rewrite Hcr, Hlf. unfold blankLineAt.
    change (Ascii.eqb LF CR) with false. change (Ascii.eqb LF LF) with true.
    cbv iota beta. by rewrite Hcr, Hlf.
Qed.

Lemma afterBlankLine_blank eol body :
  eol = String LF "" \/ eol = String CR (String LF "") ->
  afterBlankLine (eol ++ eol ++ body) = Some body.
Proof.
  intros [-> | ->]; rewrite !append_cons, !append_nil; reflexivity.
Qed.

Lemma append_assoc a b c : (a ++ b) ++ c = a ++ b ++ c.
Proof.
  induction a as [|x r IH]; [by rewrite !append_nil|].
  rewrite !append_cons. by rewrite IH.
Qed.

Lemma afterBlankLine_headers eol lines body :
  eol = String LF "" \/ eol = String CR (String LF "") ->
  lines <> [] -> Forall headerLine lines ->
  afterBlankLine (headerBlock eol lines ++ eol ++ body) = Some body.
Proof.
  intros Heol Hne Hall. induction lines as [|l lines IH]; [done|].
  apply Forall_cons in Hall as [Hl Hall]. cbn [headerBlock].
  rewrite !append_assoc. rewrite (afterBlankLine_line l _ (proj2 Hl)).
  destruct lines as [|l' lines].
  - cbn [headerBlock]. rewrite append_nil. by apply afterBlankLine_blank.
  - specialize (IH ltac:(done) Hall). cbn [headerBlock] in IH |- *.
    rewrite !append_assoc in IH |- *.
    apply Forall_cons in Hall as [Hl' _].
    by rewrite (afterBlankLine_eol eol l' _ Heol Hl').
Qed.

(** The counters of one iteration. *)
Lemma processMessage_counters mb s m st :
  let st' := processMessage mb s m st in
  (processedCount st' + confirmedCount st = processedCount st + confirmedCount st')%nat
  /\ (confirmedCount st <= confirmedCount st')%nat
  /\ (rejectedCount st <= rejectedCount st')%nat
  /\ (confirmedCount st' + rejectedCount st' <= confirmedCount st + rejectedCount st + 1)%nat
  /\ (parsedCount st <= parsedCount st')%nat
  /\ (parsedCount st' + confirmedCount st + rejectedCount st
      <= parsedCount st + confirmedCount st' + rejectedCount st')%nat.
Proof.
  cbv zeta. unfold processMessage.
  destruct (uidNum m <? s)%Z; [lia|].
  destruct (markerExists _ _ _); [simpl; lia|].
  destruct (fetch m) as [e|subj|src subj date]; [simpl; lia..|].
  destruct (parse m) as [e|d]; [simpl; lia|].
  destruct (Validator.validatePayment d _ _ _) as [v logs].
  destruct (negb (Validator.valid v)); [simpl; lia|].
  destruct (Confirmer.confirmTopupFromEmail _ _ _) as [[c l] db3].
  destruct (Confirmer.success c); simpl; lia.
Qed.

Lemma loop_counters mb s uids st :
  let st' := fold_left (fun st m => processMessage mb s m st) uids st in
  (processedCount st' + confirmedCount st = processedCount st + confirmedCount st')%nat
  /\ (confirmedCount st <= confirmedCount st')%nat
  /\ (rejectedCount st <= rejectedCount st')%nat
  /\ (confirmedCount st' + rejectedCount st'
      <= confirmedCount st + rejectedCount st + length uids)%nat
  /\ (parsedCount st <= parsedCount st')%nat
  /\ (parsedCount st' + confirmedCount st + rejectedCount st
      <= parsedCount st + confirmedCount st' + rejectedCount st')%nat.
Proof.
  revert st. induction uids as [|m uids IH]; intros st; cbv zeta; [simpl; lia|].
  simpl fold_left. pose proof (processMessage_counters mb s m st) as H1.
  cbv zeta in H1. specialize (IH (processMessage mb s m st)). cbv zeta in IH.
  simpl length. lia.
Qed.

Lemma length_search debugMode startUid seen msgs :
  (length (search debugMode startUid seen msgs) <= length msgs)%nat.
Proof. unfold search. destruct (maxUid msgs); [apply length_filter|simpl; lia]. Qed.

End Body.

(** X23: the body of a raw email.  For a source made of one header
    line or more, each followed by the line end (LF, or CR LF), then an
    empty line and the body, [processEmails] takes exactly the body as
    the text it hands to the validator, whatever the body contains. *)
Theorem X23_body_after_headers (eol : string) (lines : list string) (body : string)
    (Heol : eol = String Poller.LF "" \/ eol = String Poller.CR (String Poller.LF ""))
    (Hlines : lines <> [])
    (Hheader : Forall Mail.headerLine lines) :
  Poller.bodyTextOf (Mail.headerBlock eol lines ++ eol ++ body) = body.
Proof.
  unfold Poller.bodyTextOf. by rewrite (afterBlankLine_headers eol lines body Heol Hlines Hheader).
Qed.

(** X23 on an email of two header lines whose body has blank lines of
    its own. *)
Lemma X23_witness :
  Poller.bodyTextOf
    (Mail.headerBlock Fixture.newline ["Subject: Payment"; "From: bank"]
     ++ Fixture.newline ++ ("You sent" ++ Fixture.newline ++ Fixture.newline ++ "TOPUP: x"))
  = "You sent" ++ Fixture.newline ++ Fixture.newline ++ "TOPUP: x".
Proof.
  apply X23_body_after_headers.
  - by left.
  - discriminate.
  - repeat constructor; discriminate.
Defined.

(** X24: the counters a scan pass returns.  The number of processed
    messages is the number of confirmed ones; confirmed and rejected
    together are at most the messages found by the search, which are at
    most the messages of the mailbox; and every parsed message is counted
    as confirmed or as rejected. *)
Theorem X24_pass_counters (env : Poller.PassEnv) (w : Poller.World) :
  match (Poller.processEmails env w).1 with
  | inr r =>
      Poller.r_processed r = Poller.r_confirmed r
      /\ (Poller.r_confirmed r + Poller.r_rejected r <= Poller.r_found r)%nat
      /\ (Poller.r_found r <= length (Poller.inbox env))%nat
      /\ (Poller.r_parsed r <= Poller.r_confirmed r + Poller.r_rejected r)%nat
  | inl _ => True
  end.
Proof.
  unfold Poller.processEmails.
  destruct (Poller.openMailboxWithFallback _ _) as [[mb db1]|]; [|done].
  destruct (Poller.minArmed db1) as [s|]; [|simpl; lia].
  cbv zeta. destruct (Poller.searchError env); [done|].
  set (uids := Poller.search _ _ _ _).
  destruct (Nat.eqb _ 0); [simpl; lia|].
  pose proof (loop_counters mb s uids
                (Poller.mkLoopState (Poller.setDb w db1) 0 0 0 0 (s - 1))) as H.
  cbv zeta in H. simpl in H.
  pose proof (length_search (Poller.debugModeOf db1) s (Poller.w_seen (Poller.setDb w db1))
                (Poller.inbox env)) as Hlen.
  fold uids in Hlen. cbn [fst Poller.r_processed Poller.r_confirmed Poller.r_rejected
    Poller.r_found Poller.r_parsed]. lia.
Qed.

(** ** The credited amount *)



(** X26: an amount string that is missing, empty, not numeric, or
    whose floor is not above zero.  The call returns [success = false]
    and changes no topup and no balance; unless the idempotency check
    ends it first, it hands one entry to [logPayment], with the
    decision REJECTED, the UID of the email and the reason of the
    invalid amount. *)
Theorem X26_invalid_amount_rejected
    (p : Confirmer.Params) (clk : Confirmer.Clock) (db : DB)
    (Hrejected : Spec.amountRejected (Confirmer.amountString p)) :
  let out := Confirmer.confirmTopupFromEmail p clk db in
  let why := "Invalid email amount: " ++ Validator.showField (Confirmer.amountString p)
    ++ " (must be > 0). Parser returned empty/invalid amount - likely no strong transaction match found." in
  Confirmer.success out.1.1 = false
  /\ topups out.2 = topups db /\ users out.2 = users db
  /\ (Confirmer.acceptedLogged (Confirmer.p_email_uid p) db = false ->
      Confirmer.c_reason out.1.1 = why
      /\ exists e, out.1.2 = [e] /\ decision e = REJECTED
                   /\ email_uid e = Some (Confirmer.p_email_uid p)
                   /\ matched_topup_id e = None
                   /\ reason e = Some (Confirmer.withSource p why)).
Proof.
  cbv zeta. apply amountRejected_guard in Hrejected.
  unfold Confirmer.confirmTopupFromEmail, Confirmer.confirmChecks.
  destruct (Confirmer.acceptedLogged _ _).
  - simpl. split; [reflexivity|]. split; [reflexivity|]. split; [reflexivity|]. discriminate.
  - rewrite Hrejected. cbn [fst snd Confirmer.success Confirmer.failure Confirmer.c_reason].
    rewrite logAll_topups, logAll_users.
    split; [reflexivity|]. split; [reflexivity|]. split; [reflexivity|].
    intros _. split; [reflexivity|]. eexists. repeat split.
Qed.

(** X26 on the amounts abc, which is not a number, and 0.9, whose
    floor is 0, for the reef request. *)
Lemma X26_witness :
  (let out := Confirmer.confirmTopupFromEmail (Fixture.payReef "abc") (Fixture.at_ 1500000)
                Fixture.dbReef in
   Confirmer.success out.1.1 = false
   /\ topups out.2 = topups Fixture.dbReef /\ users out.2 = users Fixture.dbReef)
  /\ (let out := Confirmer.confirmTopupFromEmail (Fixture.payReef "0.9") (Fixture.at_ 1500000)
                   Fixture.dbReef in
      Confirmer.success out.1.1 = false
      /\ topups out.2 = topups Fixture.dbReef /\ users out.2 = users Fixture.dbReef).
Proof.
  split.
  - pose proof (X26_invalid_amount_rejected (Fixture.payReef "abc") (Fixture.at_ 1500000)
                  Fixture.dbReef) as T.
    cbv zeta in T. destruct T as (Hs & Ht & Hu & _).
    { right. left. reflexivity. }
    cbv zeta. auto.
  - pose proof (X26_invalid_amount_rejected (Fixture.payReef "0.9") (Fixture.at_ 1500000)
                  Fixture.dbReef) as T.
    cbv zeta in T. destruct T as (Hs & Ht & Hu & _).
    { right. right. reflexivity. }
    cbv zeta. auto.
Defined.
